(** * GestureCanvas: the per-frame interaction state machine

    A shallow embedding of the gesture interpretation core of the
    application (geometry helpers, position filter, the IDLE / HOVER /
    DRAWING / MENU machine, stroke accumulation, dissolve and the menu
    dwell selector), followed by the properties established for it.

    JavaScript numbers are IEEE 754 binary64 values and are modelled by the
    primitive floats of Rocq, which are the same format with the same
    rounding; comparisons therefore behave on NaN as they do in the source.
    Frame counters and clock readings hold integers only and are modelled
    in [Z]. *)

From Stdlib Require Import ZArith List String Ascii Bool Lia Floats.
Import ListNotations.

Set Warnings "-inexact-float".
Local Open Scope string_scope.

(** ** Exceptions

    Reading a property of [undefined] (an array slot out of range) throws a
    [TypeError]; a computation that may throw is an [Exn]. An exception
    that escapes [update] also ends the animation loop, which re-arms
    itself only after [update] returns, so the half-written record is seen
    by no later tick and [None] needs to carry no state. *)

Definition Exn (A : Type) : Type := option A.

Definition ret {A : Type} (a : A) : Exn A := Some a.

Definition bind {A B : Type} (m : Exn A) (k : A -> Exn B) : Exn B :=
  match m with
  | Some a => k a
  | None => None
  end.

Declare Scope exn_scope.
Delimit Scope exn_scope with exn.
Notation "x <- m ;; k" := (bind m (fun x => k))
  (at level 61, m at next level, right associativity) : exn_scope.
Notation "' p <- m ;; k" := (bind m (fun v => let p := v in k))
  (at level 61, p pattern, m at next level, right associativity) : exn_scope.
Local Open Scope exn_scope.

(** [a[i]] followed by a property access. *)
Definition at_index {A : Type} (a : list A) (i : nat) : Exn A := nth_error a i.

(** ** JavaScript number helpers *)

Module Math.

(** [Math.pow(a, 2)] and [a ** 2]: the square, rounded once. *)
Definition pow2 (a : float) : float := (a * a)%float.

Definition sqrt (a : float) : float := PrimFloat.sqrt a.

(** [Math.min(a, b)]: NaN if either is NaN, and -0 below +0. *)
Definition min (a b : float) : float :=
  if is_nan a || is_nan b then nan
  else if (a <? b)%float then a
  else if (b <? a)%float then b
  else match classify a with
       | NZero => a
       | _ => b
       end.

End Math.

(** ** types.ts *)

Inductive ToolType := PEN | ERASER.

Definition ToolType_eqb (a b : ToolType) : bool :=
  match a, b with
  | PEN, PEN | ERASER, ERASER => true
  | _, _ => false
  end.

Module Point.
Record t := mk { x : float; y : float }.
End Point.

Module HandLandmark.
Record t := mk { x : float; y : float; z : float }.
End HandLandmark.

(** A colour or a width read from a table by index may be [undefined];
    [None] stands for it. *)
Module DrawingPath.
Record t := mk {
  points : list Point.t;
  color : option string;
  width : option float;
  isEraser : bool
}.
End DrawingPath.

Module Particle.
Record t := mk {
  x : float;
  y : float;
  vx : float;
  vy : float;
  color : option string;
  size : float;
  life : float
}.
End Particle.

(** The structural type [HandLandmark | Point] of the geometry helpers:
    anything with an [x] and a [y]. *)
Class HasXY (A : Type) := { X : A -> float; Y : A -> float }.

#[global] Instance Point_HasXY : HasXY Point.t :=
  {| X := Point.x; Y := Point.y |}.
#[global] Instance HandLandmark_HasXY : HasXY HandLandmark.t :=
  {| X := HandLandmark.x; Y := HandLandmark.y |}.

(** A landmark used where a [Point] is expected ([rawPoint = landmarks[8]]). *)
Definition asPoint (l : HandLandmark.t) : Point.t :=
  Point.mk (HandLandmark.x l) (HandLandmark.y l).

(** ** utils/geometry.ts *)

Section Geometry.
Local Open Scope float_scope.

Definition distanceSq {A B : Type} `{HasXY A} `{HasXY B} (p1 : A) (p2 : B) : float :=
  Math.pow2 (X p1 - X p2) + Math.pow2 (Y p1 - Y p2).

Definition distance {A B : Type} `{HasXY A} `{HasXY B} (p1 : A) (p2 : B) : float :=
  Math.sqrt (distanceSq p1 p2).

Definition lerp (start end_ t : float) : float :=
  start * (1 - t) + end_ * t.

Definition getHandSize (landmarks : list HandLandmark.t) : Exn float :=
  l0 <- at_index landmarks 0 ;;
  l9 <- at_index landmarks 9 ;;
  ret (distance l0 l9).

Definition getPinchRatio (landmarks : list HandLandmark.t) (handSize : float)
  : Exn float :=
  l8 <- at_index landmarks 8 ;;
  l4 <- at_index landmarks 4 ;;
  ret (distance l8 l4 / handSize).

Definition getPinchMidpoint (landmarks : list HandLandmark.t) : Exn Point.t :=
  l8 <- at_index landmarks 8 ;;
  l4 <- at_index landmarks 4 ;;
  l8' <- at_index landmarks 8 ;;
  l4' <- at_index landmarks 4 ;;
  ret (Point.mk ((HandLandmark.x l8 + HandLandmark.x l4) / 2)
                ((HandLandmark.y l8' + HandLandmark.y l4') / 2)).

Definition isFingerExtended (landmarks : list HandLandmark.t) (tipIdx pipIdx : nat)
  : Exn bool :=
  l0 <- at_index landmarks 0 ;;
  tip <- at_index landmarks tipIdx ;;
  l0' <- at_index landmarks 0 ;;
  pip <- at_index landmarks pipIdx ;;
  ret (distanceSq l0' pip <? distanceSq l0 tip).

Definition detectOpenPalm (landmarks : list HandLandmark.t) : Exn bool :=
  index <- isFingerExtended landmarks 8 6 ;;
  if negb index then ret false else
  middle <- isFingerExtended landmarks 12 10 ;;
  if negb middle then ret false else
  ring <- isFingerExtended landmarks 16 14 ;;
  if negb ring then ret false else
  pinky <- isFingerExtended landmarks 20 18 ;;
  if negb pinky then ret false else
  l4 <- at_index landmarks 4 ;;
  l17 <- at_index landmarks 17 ;;
  l3 <- at_index landmarks 3 ;;
  l17' <- at_index landmarks 17 ;;
  ret (distance l3 l17' <? distance l4 l17).

Definition detectPointing (landmarks : list HandLandmark.t) : Exn bool :=
  index <- isFingerExtended landmarks 8 6 ;;
  middle <- isFingerExtended landmarks 12 10 ;;
  ring <- isFingerExtended landmarks 16 14 ;;
  pinky <- isFingerExtended landmarks 20 18 ;;
  ret (index && negb middle && negb ring && negb pinky).

Definition detectVictory (landmarks : list HandLandmark.t) : Exn bool :=
  index <- isFingerExtended landmarks 8 6 ;;
  middle <- isFingerExtended landmarks 12 10 ;;
  ring <- isFingerExtended landmarks 16 14 ;;
  pinky <- isFingerExtended landmarks 20 18 ;;
  ret (index && middle && negb ring && negb pinky).

Definition isInSafeZone (point : Point.t) : bool :=
  (0.05 <? Point.x point) && (Point.x point <? 0.95)
  && (0.05 <? Point.y point) && (Point.y point <? 0.95).

End Geometry.

(** ** The application: configuration *)

Definition TARGET_FPS : float := 30%float.
Definition FRAME_INTERVAL : float := (1000 / TARGET_FPS)%float.

Definition PINCH_START_THRESHOLD : float := 0.09%float.
Definition PINCH_END_THRESHOLD : float := 0.14%float.
Definition PINCH_DEBOUNCE_FRAMES : Z := 3%Z.
Definition MIN_DRAW_DIST_PX : float := 2%float.
Definition DWELL_TIME_MS : float := 600%float.

Inductive AppMode := IDLE | HOVER | DRAWING | MENU.

Definition AppMode_eqb (a b : AppMode) : bool :=
  match a, b with
  | IDLE, IDLE | HOVER, HOVER | DRAWING, DRAWING | MENU, MENU => true
  | _, _ => false
  end.

(** ** The mutable record [state.current]

    The record is modelled by value. Nothing is lost by that: [endStroke]
    hands the array of the active stroke to the path collection and gives
    [currentPath] a fresh one, [cursorPos] is replaced by a fresh copy of
    [smoothedPos] on every frame rather than written in place, and
    particles copy the coordinates they start from; so no object that is
    written later is shared with a stroke or a finalized path.

    The two frame counters are JavaScript numbers that only ever hold
    integers. They are modelled as integers: [++] and [--] are then exact
    as long as the value stays below 2^53, and a property that increments
    a counter it does not bound itself assumes that much. *)

Record State := mkState {
  paths : list DrawingPath.t;
  currentPath : list Point.t;
  particles : list Particle.t;
  tool : ToolType;
  color : option string;
  size : option float;
  mode : AppMode;
  consecutivePinchFrames : Z;
  consecutiveOpenFrames : Z;
  cursorPos : Point.t;
  smoothedPos : option Point.t;
  handSize : float;
  isMenuOpen : bool;
  selectionProgress : float;
  hoveredId : option string;
  lastGestureTime : Z;
  lastLandmarks : option (list HandLandmark.t);
  cameraReady : bool
}.

Definition set_paths (v : list DrawingPath.t) (s : State) : State :=
  mkState v (currentPath s) (particles s) (tool s) (color s) (size s) (mode s) (consecutivePinchFrames s) (consecutiveOpenFrames s) (cursorPos s) (smoothedPos s) (handSize s) (isMenuOpen s) (selectionProgress s) (hoveredId s) (lastGestureTime s) (lastLandmarks s) (cameraReady s).

Definition set_currentPath (v : list Point.t) (s : State) : State :=
  mkState (paths s) v (particles s) (tool s) (color s) (size s) (mode s) (consecutivePinchFrames s) (consecutiveOpenFrames s) (cursorPos s) (smoothedPos s) (handSize s) (isMenuOpen s) (selectionProgress s) (hoveredId s) (lastGestureTime s) (lastLandmarks s) (cameraReady s).

Definition set_particles (v : list Particle.t) (s : State) : State :=
  mkState (paths s) (currentPath s) v (tool s) (color s) (size s) (mode s) (consecutivePinchFrames s) (consecutiveOpenFrames s) (cursorPos s) (smoothedPos s) (handSize s) (isMenuOpen s) (selectionProgress s) (hoveredId s) (lastGestureTime s) (lastLandmarks s) (cameraReady s).

Definition set_tool (v : ToolType) (s : State) : State :=
  mkState (paths s) (currentPath s) (particles s) v (color s) (size s) (mode s) (consecutivePinchFrames s) (consecutiveOpenFrames s) (cursorPos s) (smoothedPos s) (handSize s) (isMenuOpen s) (selectionProgress s) (hoveredId s) (lastGestureTime s) (lastLandmarks s) (cameraReady s).

Definition set_color (v : option string) (s : State) : State :=
  mkState (paths s) (currentPath s) (particles s) (tool s) v (size s) (mode s) (consecutivePinchFrames s) (consecutiveOpenFrames s) (cursorPos s) (smoothedPos s) (handSize s) (isMenuOpen s) (selectionProgress s) (hoveredId s) (lastGestureTime s) (lastLandmarks s) (cameraReady s).

Definition set_size (v : option float) (s : State) : State :=
  mkState (paths s) (currentPath s) (particles s) (tool s) (color s) v (mode s) (consecutivePinchFrames s) (consecutiveOpenFrames s) (cursorPos s) (smoothedPos s) (handSize s) (isMenuOpen s) (selectionProgress s) (hoveredId s) (lastGestureTime s) (lastLandmarks s) (cameraReady s).

Definition set_mode (v : AppMode) (s : State) : State :=
  mkState (paths s) (currentPath s) (particles s) (tool s) (color s) (size s) v (consecutivePinchFrames s) (consecutiveOpenFrames s) (cursorPos s) (smoothedPos s) (handSize s) (isMenuOpen s) (selectionProgress s) (hoveredId s) (lastGestureTime s) (lastLandmarks s) (cameraReady s).

Definition set_consecutivePinchFrames (v : Z) (s : State) : State :=
  mkState (paths s) (currentPath s) (particles s) (tool s) (color s) (size s) (mode s) v (consecutiveOpenFrames s) (cursorPos s) (smoothedPos s) (handSize s) (isMenuOpen s) (selectionProgress s) (hoveredId s) (lastGestureTime s) (lastLandmarks s) (cameraReady s).

Definition set_consecutiveOpenFrames (v : Z) (s : State) : State :=
  mkState (paths s) (currentPath s) (particles s) (tool s) (color s) (size s) (mode s) (consecutivePinchFrames s) v (cursorPos s) (smoothedPos s) (handSize s) (isMenuOpen s) (selectionProgress s) (hoveredId s) (lastGestureTime s) (lastLandmarks s) (cameraReady s).

Definition set_cursorPos (v : Point.t) (s : State) : State :=
  mkState (paths s) (currentPath s) (particles s) (tool s) (color s) (size s) (mode s) (consecutivePinchFrames s) (consecutiveOpenFrames s) v (smoothedPos s) (handSize s) (isMenuOpen s) (selectionProgress s) (hoveredId s) (lastGestureTime s) (lastLandmarks s) (cameraReady s).

Definition set_smoothedPos (v : option Point.t) (s : State) : State :=
  mkState (paths s) (currentPath s) (particles s) (tool s) (color s) (size s) (mode s) (consecutivePinchFrames s) (consecutiveOpenFrames s) (cursorPos s) v (handSize s) (isMenuOpen s) (selectionProgress s) (hoveredId s) (lastGestureTime s) (lastLandmarks s) (cameraReady s).

Definition set_handSize (v : float) (s : State) : State :=
  mkState (paths s) (currentPath s) (particles s) (tool s) (color s) (size s) (mode s) (consecutivePinchFrames s) (consecutiveOpenFrames s) (cursorPos s) (smoothedPos s) v (isMenuOpen s) (selectionProgress s) (hoveredId s) (lastGestureTime s) (lastLandmarks s) (cameraReady s).

Definition set_isMenuOpen (v : bool) (s : State) : State :=
  mkState (paths s) (currentPath s) (particles s) (tool s) (color s) (size s) (mode s) (consecutivePinchFrames s) (consecutiveOpenFrames s) (cursorPos s) (smoothedPos s) (handSize s) v (selectionProgress s) (hoveredId s) (lastGestureTime s) (lastLandmarks s) (cameraReady s).

Definition set_selectionProgress (v : float) (s : State) : State :=
  mkState (paths s) (currentPath s) (particles s) (tool s) (color s) (size s) (mode s) (consecutivePinchFrames s) (consecutiveOpenFrames s) (cursorPos s) (smoothedPos s) (handSize s) (isMenuOpen s) v (hoveredId s) (lastGestureTime s) (lastLandmarks s) (cameraReady s).

Definition set_hoveredId (v : option string) (s : State) : State :=
  mkState (paths s) (currentPath s) (particles s) (tool s) (color s) (size s) (mode s) (consecutivePinchFrames s) (consecutiveOpenFrames s) (cursorPos s) (smoothedPos s) (handSize s) (isMenuOpen s) (selectionProgress s) v (lastGestureTime s) (lastLandmarks s) (cameraReady s).

Definition set_lastGestureTime (v : Z) (s : State) : State :=
  mkState (paths s) (currentPath s) (particles s) (tool s) (color s) (size s) (mode s) (consecutivePinchFrames s) (consecutiveOpenFrames s) (cursorPos s) (smoothedPos s) (handSize s) (isMenuOpen s) (selectionProgress s) (hoveredId s) v (lastLandmarks s) (cameraReady s).

Definition set_lastLandmarks (v : option (list HandLandmark.t)) (s : State) : State :=
  mkState (paths s) (currentPath s) (particles s) (tool s) (color s) (size s) (mode s) (consecutivePinchFrames s) (consecutiveOpenFrames s) (cursorPos s) (smoothedPos s) (handSize s) (isMenuOpen s) (selectionProgress s) (hoveredId s) (lastGestureTime s) v (cameraReady s).

Definition set_cameraReady (v : bool) (s : State) : State :=
  mkState (paths s) (currentPath s) (particles s) (tool s) (color s) (size s) (mode s) (consecutivePinchFrames s) (consecutiveOpenFrames s) (cursorPos s) (smoothedPos s) (handSize s) (isMenuOpen s) (selectionProgress s) (hoveredId s) (lastGestureTime s) (lastLandmarks s) v.

Definition initialState : State :=
  {| paths := [];
     currentPath := [];
     particles := [];
     tool := PEN;
     color := Some "#00FF00";
     size := Some 5%float;
     mode := IDLE;
     consecutivePinchFrames := 0%Z;
     consecutiveOpenFrames := 0%Z;
     cursorPos := Point.mk 0%float 0%float;
     smoothedPos := None;
     handSize := 0%float;
     isMenuOpen := false;
     selectionProgress := 0%float;
     hoveredId := None;
     lastGestureTime := 0%Z;
     lastLandmarks := None;
     cameraReady := false |}.

(** ** What a tick reads and writes outside [state.current] *)

Module DOMRect.
Record t := mk { left : float; right : float; top : float; bottom : float }.
End DOMRect.

(** [document.getElementById(id)] followed by [getBoundingClientRect()];
    [None] when there is no such element. *)
Definition Document : Type := string -> option DOMRect.t.

(** Calls that leave the state record: the two React setters, and the
    press animation of a button ([el.style.transform = 'scale(0.9)'],
    undone by a timer). *)
Inductive Effect :=
| SetUiVisible (visible : bool)
| SetToolbarProps (activeTool : ToolType) (activeColor : option string)
                  (activeSize : option float)
| ScalePulse (id : string).

(** The inputs of one tick: the detector result handed to [onResults]
    since the previous tick, the clock, the canvas size, the live DOM, and
    the successive results of [Math.random()] in call order. *)
Record Frame := mkFrame {
  multiHandLandmarks : list (list HandLandmark.t);
  now : Z;
  width : float;
  height : float;
  document : Document;
  random : nat -> float
}.

(** ** Stroke accumulator *)

Definition startStroke (p : Point.t) (s : State) : State :=
  set_currentPath [p] s.

(** After the length test the path has a last element, so the default of
    [last] is never returned. *)
Definition addPointToStroke (p : Point.t) (s : State) : State :=
  if (List.length (currentPath s) =? 0)%nat then s
  else
    let lastP := last (currentPath s) p in
    let distSq :=
      (Math.pow2 (Point.x lastP - Point.x p)
       + Math.pow2 (Point.y lastP - Point.y p))%float in
    if (MIN_DRAW_DIST_PX * MIN_DRAW_DIST_PX <? distSq)%float
    then set_currentPath (currentPath s ++ [p])%list s
    else s.

Definition endStroke (s : State) : State :=
  if (0 <? List.length (currentPath s))%nat then
    let s :=
      set_paths (paths s ++ [DrawingPath.mk (currentPath s) (color s) (size s)
                                            (ToolType_eqb (tool s) ERASER)])%list s in
    set_currentPath [] s
  else s.

(** The loop [for (i = 0; i < points.length; i += 4)] visits these points. *)
Fixpoint every4th (pts : list Point.t) : list Point.t :=
  match pts with
  | [] => []
  | p :: rest =>
      p :: match rest with
           | _ :: _ :: _ :: rest' => every4th rest'
           | _ => []
           end
  end.

Section Dissolve.
Local Open Scope float_scope.
Variable rnd : nat -> float.

(** One particle per sampled point; [k] counts the [Math.random()] calls
    made so far. *)
Fixpoint spawn (path : DrawingPath.t) (samples : list Point.t) (k : nat)
  : list Particle.t * nat :=
  match samples with
  | [] => ([], k)
  | p :: rest =>
      let particle :=
        {| Particle.x := Point.x p;
           Particle.y := Point.y p;
           Particle.vx := (rnd k - 0.5) * 4;
           Particle.vy := rnd (k + 1) * 5 + 2;
           Particle.color :=
             if DrawingPath.isEraser path then Some "white"
             else DrawingPath.color path;
           Particle.size := rnd (k + 2) * 3 + 1;
           Particle.life := 1.0 |} in
      let '(more, k') := spawn path rest (k + 3) in
      (particle :: more, k')
  end.

(** [s.paths.forEach(...)]. *)
Fixpoint spawnAll (ps : list DrawingPath.t) (k : nat) : list Particle.t :=
  match ps with
  | [] => []
  | path :: rest =>
      let '(here, k') := spawn path (every4th (DrawingPath.points path)) k in
      (here ++ spawnAll rest k')%list
  end.

Definition triggerDissolve (w h : float) (s : State) : State :=
  if (List.length (paths s) =? 0)%nat then s
  else
    let s := set_particles (particles s ++ spawnAll (paths s) 0)%list s in
    let s := set_paths [] s in
    set_currentPath [] s.

End Dissolve.

(** ** Menu dwell selector *)

(** [`${i}`] for a one-digit [i]. *)
Definition digit (i : nat) : string := String (ascii_of_nat (48 + i)) "".

Definition ids : list string :=
  (["btn-pen"; "btn-eraser"]
   ++ map (fun i => ("btn-color-" ++ digit i)%string) [0; 1; 2; 3; 4]
   ++ map (fun i => ("btn-size-" ++ digit i)%string) [0; 1; 2; 3])%list.

(** [s.split(sep)] for a one-character separator. *)
Fixpoint split (sep : ascii) (s : string) : list string :=
  match s with
  | EmptyString => [EmptyString]
  | String c rest =>
      if Ascii.eqb c sep then EmptyString :: split sep rest
      else match split sep rest with
           | seg :: segs => String c seg :: segs
           | [] => [String c EmptyString]
           end
  end.

Fixpoint parseDigits (s : string) (acc : nat) : option nat :=
  match s with
  | EmptyString => Some acc
  | String c rest =>
      let n := nat_of_ascii c in
      if ((48 <=? n) && (n <=? 57))%nat then parseDigits rest (10 * acc + (n - 48))
      else None
  end.

(** [parseInt] on a string of decimal digits, which is what the ids above
    give it; [None] is NaN (also the result on [undefined]). *)
Definition parseInt (s : option string) : option nat :=
  match s with
  | Some (String c rest) => parseDigits (String c rest) 0
  | _ => None
  end.

(** [table[parseInt(id.split('-')[2])]]; out of range, or at NaN, the
    result is [undefined]. *)
Definition lookupBySuffix {A : Type} (table : list A) (id : string) : option A :=
  match parseInt (nth_error (split "-" id) 2) with
  | Some k => nth_error table k
  | None => None
  end.

Definition triggerClick (doc : Document) (id : string) (s : State)
  : State * list Effect :=
  let s :=
    if String.eqb id "btn-pen" then set_tool PEN s
    else if String.eqb id "btn-eraser" then set_tool ERASER s
    else if String.prefix "btn-color-" id then
      let colors := ["#FFFFFF"; "#FF0000"; "#00FF00"; "#0000FF"; "#FFFF00"] in
      set_color (lookupBySuffix colors id) s
    else if String.prefix "btn-size-" id then
      let sizes := [2; 5; 10; 15]%float in
      set_size (lookupBySuffix sizes id) s
    else s in
  let pulse :=
    match doc id with
    | Some _ => [ScalePulse id]
    | None => []
    end in
  (s, (pulse ++ [SetToolbarProps (tool s) (color s) (size s)])%list).

Definition contains (r : DOMRect.t) (x y : float) : bool :=
  ((DOMRect.left r <=? x) && (x <=? DOMRect.right r)
   && (DOMRect.top r <=? y) && (y <=? DOMRect.bottom r))%float.

(** The first id, in declared order, whose element exists and contains
    the cursor. *)
Definition hitTest (doc : Document) (x y : float) : option string :=
  find (fun id => match doc id with
                  | Some r => contains r x y
                  | None => false
                  end) ids.

Definition sameId (a : option string) (b : string) : bool :=
  match a with
  | Some a => String.eqb a b
  | None => false
  end.

Definition handleUIInteraction (doc : Document) (s : State) : State * list Effect :=
  let x := Point.x (cursorPos s) in
  let y := Point.y (cursorPos s) in
  match hitTest doc x y with
  | Some hit =>
      if negb (sameId (hoveredId s) hit) then
        let s := set_hoveredId (Some hit) s in
        (set_selectionProgress 0%float s, [])
      else
        let s := set_selectionProgress (selectionProgress s + FRAME_INTERVAL)%float s in
        if (DWELL_TIME_MS <=? selectionProgress s)%float then
          let '(s, effects) := triggerClick doc hit s in
          let s := set_selectionProgress 0%float s in
          (set_hoveredId None s, effects)
        else (s, [])
  | None =>
      let s := set_hoveredId None s in
      (set_selectionProgress 0%float s, [])
  end.

(** ** The per-frame update *)

Definition toggleMenu (time : Z) (s : State) : State * list Effect :=
  let s := set_isMenuOpen (negb (isMenuOpen s)) s in
  let s := set_lastGestureTime time s in
  let s := set_mode (if isMenuOpen s then MENU else HOVER) s in
  let s := if (0 <? List.length (currentPath s))%nat then endStroke s else s in
  (s, [SetUiVisible (isMenuOpen s)]).

(** The detector callback. *)
Definition onResults (results : list (list HandLandmark.t)) (s : State) : State :=
  match results with
  | first :: _ => set_lastLandmarks (Some first) s
  | [] => set_lastLandmarks None s
  end.

Section Update.
(** [Math.sin], of which only its type matters here. *)
Variable Math_sin : float -> float.

Local Open Scope float_scope.

Definition stepParticle (p : Particle.t) : Particle.t :=
  {| Particle.x :=
       Particle.x p + (Particle.vx p + Math_sin (Particle.y p * 0.05) * 0.5);
     Particle.y := Particle.y p + Particle.vy p;
     Particle.vx := Particle.vx p;
     Particle.vy := Particle.vy p;
     Particle.color := Particle.color p;
     Particle.size := Particle.size p;
     Particle.life := Particle.life p - 0.02 |}.

Definition physics (height : float) (s : State) : State :=
  if (0 <? List.length (particles s))%nat then
    set_particles
      (filter (fun p => (0 <? Particle.life p) && (Particle.y p <? height))
              (map stepParticle (particles s))) s
  else s.

(** Loss of tracking, as both the no-landmarks test and the zone test
    write it: [if (s.mode === 'DRAWING') endStroke(); s.mode = 'IDLE']. *)
Definition dropToIdle (s : State) : State :=
  let s := if AppMode_eqb (mode s) DRAWING then endStroke s else s in
  set_mode IDLE s.

(** The cursor source: index tip while the menu is open, pinch midpoint
    otherwise. *)
Definition rawPointOf (menuOpen : bool) (landmarks : list HandLandmark.t)
  : Exn Point.t :=
  if menuOpen then
    l8 <- at_index landmarks 8 ;;
    ret (asPoint l8)
  else getPinchMidpoint landmarks.

(** The speed-adaptive filter; leaves [smoothedPos] non-null. *)
Definition smoothing (currX currY : float) (s : State) : State :=
  match smoothedPos s with
  | None => set_smoothedPos (Some (Point.mk currX currY)) s
  | Some sp =>
      let dist :=
        Math.sqrt (Math.pow2 (currX - Point.x sp) + Math.pow2 (currY - Point.y sp)) in
      let minAlpha := 0.1 in
      let maxAlpha := 0.8 in
      let speedFactor := Math.min 1 (dist / 80) in
      let alpha := lerp minAlpha maxAlpha speedFactor in
      let x' := lerp (Point.x sp) currX alpha in
      let y' := lerp (Point.y sp) currY alpha in
      set_smoothedPos (Some (Point.mk x' y')) s
  end.

(** [s.cursorPos = { ...s.smoothedPos }]. *)
Definition copyCursor (s : State) : State :=
  match smoothedPos s with
  | Some sp => set_cursorPos (Point.mk (Point.x sp) (Point.y sp)) s
  | None => s
  end.

(** The open-palm menu toggle, behind its cooldown. *)
Definition menuGesture (now : Z) (landmarks : list HandLandmark.t) (s : State)
  : Exn (State * list Effect) :=
  if (1000 <? now - lastGestureTime s)%Z then
    palm <- detectOpenPalm landmarks ;;
    if palm then
      let s := set_consecutiveOpenFrames (consecutiveOpenFrames s + 1)%Z s in
      if (5 <? consecutiveOpenFrames s)%Z then
        let '(s, effects) := toggleMenu now s in
        ret (set_consecutiveOpenFrames 0%Z s, effects)
      else ret (s, [])
    else ret (set_consecutiveOpenFrames 0%Z s, [])
  else ret (s, []).

(** Mode specific logic: menu interaction, or the draw entry and exit. *)
Definition modeLogic (doc : Document) (landmarks : list HandLandmark.t)
           (pinchRatio : float) (s : State) : Exn (State * list Effect) :=
  if isMenuOpen s then
    let s := set_mode MENU s in
    isIndexUp <- isFingerExtended landmarks 8 6 ;;
    if isIndexUp then ret (handleUIInteraction doc s)
    else
      let s := set_hoveredId None s in
      ret (set_selectionProgress 0 s, [])
  else if AppMode_eqb (mode s) DRAWING then
    if PINCH_END_THRESHOLD <? pinchRatio then
      let s := set_consecutivePinchFrames (consecutivePinchFrames s - 1)%Z s in
      if (consecutivePinchFrames s <? 0)%Z then
        let s := endStroke s in
        ret (set_mode HOVER s, [])
      else ret (s, [])
    else
      let s := set_consecutivePinchFrames PINCH_DEBOUNCE_FRAMES s in
      ret (addPointToStroke (cursorPos s) s, [])
  else
    if pinchRatio <? PINCH_START_THRESHOLD then
      let s := set_consecutivePinchFrames (consecutivePinchFrames s + 1)%Z s in
      if (PINCH_DEBOUNCE_FRAMES <? consecutivePinchFrames s)%Z then
        let s := startStroke (cursorPos s) s in
        ret (set_mode DRAWING s, [])
      else ret (s, [])
    else
      let s := set_consecutivePinchFrames 0%Z s in
      ret (set_mode HOVER s, []).

Definition update (f : Frame) (s : State) : Exn (State * list Effect) :=
  let s := physics (height f) s in
  match lastLandmarks s with
  | None =>
      let s := dropToIdle s in
      ret (set_smoothedPos None s, [])
  | Some landmarks =>
      hs <- getHandSize landmarks ;;
      let s := set_handSize hs s in
      pinchRatio <- getPinchRatio landmarks (handSize s) ;;
      rawPoint <- rawPointOf (isMenuOpen s) landmarks ;;
      let rawX := 1 - Point.x rawPoint in
      let rawY := Point.y rawPoint in
      if negb (isInSafeZone (Point.mk rawX rawY)) then ret (dropToIdle s, [])
      else
        let currX := rawX * width f in
        let currY := rawY * height f in
        let s := copyCursor (smoothing currX currY s) in
        if negb (AppMode_eqb (mode s) DRAWING) then
          '(s, effects) <- menuGesture (now f) landmarks s ;;
          victory <- detectVictory landmarks ;;
          if victory && negb (isMenuOpen s) then
            ret (triggerDissolve (random f) (width f) (height f) s, effects)
          else
            '(s, effects') <- modeLogic (document f) landmarks pinchRatio s ;;
            ret (s, (effects ++ effects')%list)
        else modeLogic (document f) landmarks pinchRatio s
  end.

(** One tick of the loop: the detector result, if any, then [update]. *)
Definition tick (f : Frame) (s : State) : Exn (State * list Effect) :=
  update f (onResults (multiHandLandmarks f) s).

(** Consecutive ticks; the effects of all of them, in order. *)
Fixpoint run (fs : list Frame) (s : State) : Exn (State * list Effect) :=
  match fs with
  | [] => ret (s, [])
  | f :: rest =>
      '(s, effects) <- tick f s ;;
      '(s, effects') <- run rest s ;;
      ret (s, (effects ++ effects')%list)
  end.

End Update.

(** ** Vocabulary of the properties *)

(** The point whose zone is tested and whose pixels are filtered: the
    detector's point mirrored horizontally. *)
Definition mirror (rawPoint : Point.t) : Point.t :=
  Point.mk (1 - Point.x rawPoint)%float (Point.y rawPoint).

(** The pinch ratio [update] computes for a landmark set. *)
Definition pinchRatioOf (landmarks : list HandLandmark.t) : Exn float :=
  hs <- getHandSize landmarks ;;
  getPinchRatio landmarks hs.

(** A frame that delivers a hand whose pinch midpoint is inside the safe
    zone, with pinch ratio [r]. *)
Definition inZoneFrame (f : Frame) (r : float) : Prop :=
  exists l others rp,
    multiHandLandmarks f = l :: others
    /\ pinchRatioOf l = Some r
    /\ rawPointOf false l = Some rp
    /\ isInSafeZone (mirror rp) = true.

(** A frame whose hand shows neither of the two global gestures. *)
Definition noGesture (f : Frame) : Prop :=
  exists l others,
    multiHandLandmarks f = l :: others
    /\ detectOpenPalm l = Some false
    /\ detectVictory l = Some false.

(** A qualifying frame of the draw entry: in zone, no global gesture,
    pinch ratio below the start threshold. *)
Definition pinchedFrame (f : Frame) : Prop :=
  exists r, inZoneFrame f r /\ noGesture f
            /\ (r <? PINCH_START_THRESHOLD)%float = true.

(** The same with the pinch released: ratio at or above the start
    threshold. *)
Definition releasedFrame (f : Frame) : Prop :=
  exists r, inZoneFrame f r /\ noGesture f
            /\ (PINCH_START_THRESHOLD <=? r)%float = true.

(** A frame inside the hysteresis band or below it: in zone, ratio at most
    the end threshold. *)
Definition heldFrame (f : Frame) : Prop :=
  exists r, inZoneFrame f r /\ (r <=? PINCH_END_THRESHOLD)%float = true.

(** The in-progress strokes of a state: the one in [currentPath], if it has
    a point. *)
Definition activeStrokes (s : State) : list (list Point.t) :=
  match currentPath s with
  | [] => []
  | stroke => [stroke]
  end.

(** What [endStroke] pushes when it finalizes the active stroke of [s]. *)
Definition finalized (s : State) : DrawingPath.t :=
  DrawingPath.mk (currentPath s) (color s) (size s) (ToolType_eqb (tool s) ERASER).

(** Mode and strokes agree: DRAWING goes with a non-empty active stroke
    and a closed menu, every other mode with no active stroke. *)
Definition consistent (s : State) : Prop :=
  (mode s = DRAWING -> currentPath s <> [] /\ isMenuOpen s = false)
  /\ (mode s <> DRAWING -> currentPath s = []).

(** What one update may do to the path collection: leave it, push the
    active stroke of [s] at its end, or clear it in bulk. *)
Definition pathsStep (s s' : State) : Prop :=
  paths s' = paths s
  \/ paths s' = (paths s ++ [finalized s])%list
  \/ paths s' = [].

(** The one situation in which [update] clears the canvas: outside
    DRAWING, with the menu closed, the hand of the last detector result
    shows the victory sign. *)
Definition clearGesture (s : State) : Prop :=
  mode s <> DRAWING
  /\ isMenuOpen s = false
  /\ exists l, lastLandmarks s = Some l /\ detectVictory l = Some true.

(** Two states with the same mode, menu flag, strokes, paths and tool
    settings. *)
Definition sameStrokes (s t : State) : Prop :=
  mode t = mode s
  /\ isMenuOpen t = isMenuOpen s
  /\ currentPath t = currentPath s
  /\ paths t = paths s
  /\ finalized t = finalized s.

(** What one path contributes to a dissolve: ⌈n/4⌉ particles, the j-th at
    the point of index 4j, each with unit life. *)
Definition batchOf (path : DrawingPath.t) (batch : list Particle.t) : Prop :=
  List.length batch = (List.length (DrawingPath.points path) + 3) / 4
  /\ forall j, j < List.length batch ->
       exists p q,
         nth_error (DrawingPath.points path) (4 * j) = Some p
         /\ nth_error batch j = Some q
         /\ Particle.x q = Point.x p
         /\ Particle.y q = Point.y p
         /\ Particle.life q = 1%float.

(** Number of selection events among the effects of some ticks: each call
    of [triggerClick] ends in one [setToolbarProps]. *)
Fixpoint selections (effects : list Effect) : nat :=
  match effects with
  | [] => 0
  | SetToolbarProps _ _ _ :: rest => S (selections rest)
  | _ :: rest => selections rest
  end.

(** One menu frame with the filtered cursor at [p]. *)
Definition hoverAt (doc : Document) (p : Point.t) (s : State) : State * list Effect :=
  handleUIInteraction doc (set_cursorPos p s).

(** Menu frames at the successive cursor positions [ps]. *)
Fixpoint hoverRun (doc : Document) (ps : list Point.t) (s : State)
  : State * list Effect :=
  match ps with
  | [] => (s, [])
  | p :: rest =>
      let '(s, effects) := hoverAt doc p s in
      let '(s, effects') := hoverRun doc rest s in
      (s, (effects ++ effects')%list)
  end.

(** Successive [addPointToStroke] calls. *)
Definition addPoints (ps : list Point.t) (s : State) : State :=
  fold_left (fun s p => addPointToStroke p s) ps s.

Section UpdateVocabulary.
Variable Math_sin : float -> float.

(** The state [update] has built when it enters the state machine phase
    on a frame of hand size [hs] and cursor source [rp]: particles
    advanced, hand size stored, position filtered, cursor copied. *)
Definition tracked (f : Frame) (hs : float) (rp : Point.t) (s : State) : State :=
  copyCursor
    (smoothing (Point.x (mirror rp) * width f) (Point.y (mirror rp) * height f)
               (set_handSize hs (physics Math_sin (height f) s))).

(** States the running application can be in: the detector callback,
    the camera becoming ready and the per-frame update are what write
    [state.current]. *)
Inductive reachable : State -> Prop :=
| reach_init : reachable initialState
| reach_results results s :
    reachable s -> reachable (onResults results s)
| reach_camera s :
    reachable s -> reachable (set_cameraReady true s)
| reach_update f s s' effects :
    reachable s -> update Math_sin f s = Some (s', effects) -> reachable s'.

End UpdateVocabulary.

(** A stand-in for [Math.sin] where an instance is needed; the states it
    is used with hold no particle, so it is never applied. *)
Definition noDrift (a : float) : float := 0%float.

(** Accumulated dwell time after [k] accumulating menu frames. *)
Fixpoint dwellAfter (k : nat) : float :=
  match k with
  | O => 0%float
  | S k' => (dwellAfter k' + FRAME_INTERVAL)%float
  end.

(** ** Sample inputs *)

Definition landmarkAt (x y : float) : HandLandmark.t := HandLandmark.mk x y 0%float.

(** A hand with the wrist at the left edge and the middle knuckle at the
    right edge, one unit apart, thumb tip [t4] and index tip [t8]; every
    other joint sits on the knuckle, so no finger counts as extended. *)
Definition handWith (t4 t8 : HandLandmark.t) : list HandLandmark.t :=
  let k := landmarkAt 1 0.5 in
  [landmarkAt 0 0.5; k; k; k; t4; k; k; k; t8; k; k; k; k; k; k; k; k; k; k; k; k].

(** Hands of pinch ratio 0.05, 0.10, 0.13 and 0.20, in the zone. *)
Definition hand005 := handWith (landmarkAt 0.5 0.1) (landmarkAt 0.5 0.05).
Definition hand010 := handWith (landmarkAt 0.5 0.2) (landmarkAt 0.5 0.1).
Definition hand013 := handWith (landmarkAt 0.5 0.26) (landmarkAt 0.5 0.13).
Definition hand020 := handWith (landmarkAt 0.5 0.4) (landmarkAt 0.5 0.2).

(** A pinching hand at the right edge of the image, which the mirror puts
    at x = 0.02, outside the zone. *)
Definition handAtEdge := handWith (landmarkAt 0.98 0.5) (landmarkAt 0.98 0.5).

Definition noDocument : Document := fun _ => None.

Definition frameOf (hand : list HandLandmark.t) : Frame :=
  mkFrame [hand] 0%Z 640%float 480%float noDocument (fun _ => 0.5%float).

(** A frame in which the detector found no hand. *)
Definition lostFrame : Frame :=
  mkFrame [] 0%Z 640%float 480%float noDocument (fun _ => 0.5%float).

(** Drawing, exit counter at its ceiling, a stroke of two points, the
    filter at the second one. *)
Definition drawingState : State :=
  {| paths := [];
     currentPath := [Point.mk 320 240; Point.mk 320 200]%float;
     particles := [];
     tool := PEN;
     color := Some "#00FF00";
     size := Some 5%float;
     mode := DRAWING;
     consecutivePinchFrames := 3%Z;
     consecutiveOpenFrames := 0%Z;
     cursorPos := Point.mk 320 200;
     smoothedPos := Some (Point.mk 320 200);
     handSize := 1%float;
     isMenuOpen := false;
     selectionProgress := 0%float;
     hoveredId := None;
     lastGestureTime := 0%Z;
     lastLandmarks := Some hand005;
     cameraReady := true |}.

(** A page whose only button is the eraser. *)
Definition eraserOnly : Document :=
  fun id =>
    if String.eqb id "btn-eraser"
    then Some (DOMRect.mk 100 200 100 150)
    else None.

(** Menu open, the cursor resting on the eraser button since the previous
    frame. *)
Definition hoveringState : State :=
  set_hoveredId (Some "btn-eraser")
    (set_isMenuOpen true (set_mode MENU initialState)).

(** Two finalized paths, of five points and of one, and a stroke under
    way. *)
Definition twoPaths : State :=
  set_currentPath [Point.mk 9 9]
    (set_paths
       [DrawingPath.mk
          [Point.mk 0 0; Point.mk 10 0; Point.mk 20 0; Point.mk 30 0; Point.mk 40 0]
          (Some "#00FF00") (Some 5%float) false;
        DrawingPath.mk [Point.mk 5 5] (Some "#FF0000") (Some 2%float) true]
       initialState).

(** ** components/Toolbar.tsx

    The component is modelled by the interactive elements it renders, the
    ones that carry an id; headings, wrappers and the fixed parts of the
    styling are left out. The three [onSelect] callbacks of its props are
    never called by the component and carry no behaviour. *)

Module Toolbar.

Definition COLORS : list string :=
  ["#FFFFFF"; "#FF0000"; "#00FF00"; "#0000FF"; "#FFFF00"].

Definition SIZES : list float := [2; 5; 10; 15]%float.

Record Props := mkProps {
  isOpen : bool;
  activeTool : ToolType;
  activeColor : option string;
  activeSize : option float;
  cursorPos : option Point.t
}.

(** A rendered button: its id, its class, its background colour if it is a
    swatch, the scale of its transform, and for a size button its width
    and height. *)
Record Button := mkButton {
  id : string;
  className : string;
  backgroundColor : option string;
  scale : string;
  extent : option float
}.

Definition isHovered (doc : Document) (cursorPos : option Point.t) (id : string)
  : bool :=
  match cursorPos with
  | None => false
  | Some c =>
      match doc id with
      | None => false
      | Some rect =>
          ((DOMRect.left rect <=? Point.x c) && (Point.x c <=? DOMRect.right rect)
           && (DOMRect.top rect <=? Point.y c)
           && (Point.y c <=? DOMRect.bottom rect))%float
      end
  end.

(** [activeColor === color], where [activeColor] may be [undefined]. *)
Definition isActiveColor (activeColor : option string) (color : string) : bool :=
  match activeColor with
  | Some c => String.eqb c color
  | None => false
  end.

(** [activeSize === size] on numbers. *)
Definition isActiveSize (activeSize : option float) (size : float) : bool :=
  match activeSize with
  | Some z => (z =? size)%float
  | None => false
  end.

Definition toolButton (doc : Document) (p : Props) (id : string) (tool : ToolType)
           (on : string) : Button :=
  {| id := id;
     className :=
       "p-4 rounded-lg flex-1 font-bold text-center transition-all cursor-pointer select-none "
       ++ (if ToolType_eqb (activeTool p) tool then on
           else "bg-gray-700 text-gray-300");
     backgroundColor := None;
     scale := if isHovered doc (cursorPos p) id then "scale(1.1)" else "scale(1)";
     extent := None |}.

Definition colorButton (doc : Document) (p : Props) (idx : nat) (color : string)
  : Button :=
  let id := "btn-color-" ++ digit idx in
  {| id := id;
     className :=
       "w-8 h-8 rounded-full border-2 transition-transform cursor-pointer "
       ++ (if isActiveColor (activeColor p) color then "border-white"
           else "border-transparent");
     backgroundColor := Some color;
     scale := if isHovered doc (cursorPos p) id then "scale(1.4)"
              else if isActiveColor (activeColor p) color then "scale(1.25)"
              else "scale(1)";
     extent := None |}.

Definition sizeButton (doc : Document) (p : Props) (idx : nat) (size : float)
  : Button :=
  let id := "btn-size-" ++ digit idx in
  {| id := id;
     className :=
       "rounded-full bg-white transition-all cursor-pointer "
       ++ (if isActiveSize (activeSize p) size then "bg-blue-400"
           else "bg-gray-400");
     backgroundColor := None;
     scale := if isHovered doc (cursorPos p) id then "scale(1.3)" else "scale(1)";
     extent := Some (size * 2 + 4)%float |}.

(** [xs.map((x, idx) => f idx x)]. *)
Fixpoint mapIndexed {A B : Type} (f : nat -> A -> B) (idx : nat) (xs : list A)
  : list B :=
  match xs with
  | [] => []
  | x :: rest => f idx x :: mapIndexed f (S idx) rest
  end.

(** [None] is the [null] the component returns while the menu is closed. *)
Definition render (doc : Document) (p : Props) : option (list Button) :=
  if negb (isOpen p) then None
  else
    Some ([toolButton doc p "btn-pen" PEN "bg-blue-600 ring-2 ring-white text-white";
           toolButton doc p "btn-eraser" ERASER
                      "bg-red-600 ring-2 ring-white text-white"]
          ++ mapIndexed (colorButton doc p) 0 COLORS
          ++ mapIndexed (sizeButton doc p) 0 SIZES)%list.

End Toolbar.

(** ** The React state of [App] and the toolbar it renders *)

Record ReactState := mkReact {
  uiVisible : bool;
  toolbarProps : ToolType * option string * option float
}.

(** [useState(false)] and [useState({ activeTool: PEN, ... })]. *)
Definition initialReact : ReactState :=
  {| uiVisible := false; toolbarProps := (PEN, Some "#00FF00", Some 5%float) |}.

(** What an effect of a tick does to the React state. *)
Definition react (r : ReactState) (e : Effect) : ReactState :=
  match e with
  | SetUiVisible visible => mkReact visible (toolbarProps r)
  | SetToolbarProps t c z => mkReact (uiVisible r) (t, c, z)
  | ScalePulse _ => r
  end.

(** The props [App] hands to [Toolbar]; the cursor is always [null]. *)
Definition toolbarOf (r : ReactState) : Toolbar.Props :=
  let '(t, c, z) := toolbarProps r in
  Toolbar.mkProps (uiVisible r) t c z None.

(** ** Rendering of a path: [drawPath] inside [draw] *)

Inductive CanvasOp :=
| BeginPath
| StrokeStyle (color : option string)
| LineWidth (width : option float)
| MoveTo (x y : float)
| LineTo (x y : float)
| QuadraticCurveTo (cpx cpy x y : float)
| Stroke.

(** The loop [for (i = 1; i < points.length - 1; i++)] over the points
    from index 1 on: one curve per point that has a successor. *)
Fixpoint curves (fromSecond : list Point.t) : list CanvasOp :=
  match fromSecond with
  | p1 :: ((p2 :: _) as rest) =>
      QuadraticCurveTo (Point.x p1) (Point.y p1)
                       ((Point.x p1 + Point.x p2) / 2)%float
                       ((Point.y p1 + Point.y p2) / 2)%float
      :: curves rest
  | _ => []
  end.

Definition drawPath (points : list Point.t) (color : option string)
           (width : option float) : list CanvasOp :=
  match points with
  | p0 :: ((p1 :: more) as rest) =>
      ([BeginPath; StrokeStyle color; LineWidth width;
        MoveTo (Point.x p0) (Point.y p0)]
       ++ (match more with
           | [] => [LineTo (Point.x p1) (Point.y p1)]
           | _ =>
               let lastP := last rest p1 in
               curves rest ++ [LineTo (Point.x lastP) (Point.y lastP)]
           end)
       ++ [Stroke])%list
  | _ => []
  end.

(** ** More vocabulary *)

(** A frame in the zone whose ratio is above the end threshold. *)
Definition exitFrame (f : Frame) : Prop :=
  exists r, inZoneFrame f r /\ (PINCH_END_THRESHOLD <? r)%float = true.

(** A frame in the zone showing an open palm with the pinch released, at a
    time past the cooldown that follows [since]. *)
Definition releasedPalmFrame (since : Z) (f : Frame) : Prop :=
  (exists r, inZoneFrame f r /\ (r <? PINCH_START_THRESHOLD)%float = false)
  /\ (exists l others,
        multiHandLandmarks f = l :: others /\ detectOpenPalm l = Some true)
  /\ (1000 < now f - since)%Z.


(** The life of a particle [k] frames after it had life [life]. *)
Fixpoint lifeAfter (k : nat) (life : float) : float :=
  match k with
  | O => life
  | S k' => (lifeAfter k' life - 0.02)%float
  end.

(** Number of menu toggles among some effects: each [toggleMenu] ends in
    one [setUiVisible]. *)
Definition countToggle (n : nat) (e : Effect) : nat :=
  match e with
  | SetUiVisible _ => S n
  | _ => n
  end.

Definition toggles (effects : list Effect) : nat := fold_left countToggle effects 0.

(** The particle physics of consecutive frames of the given heights. *)
Definition physicsRun (Math_sin : float -> float) (heights : list float)
           (s : State) : State :=
  fold_left (fun s h => physics Math_sin h s) heights s.

(** A particle spawned with life 1.0 that has lived [j] frames, for some
    [j] between [lo] and [hi]. *)
Definition aged (lo hi : nat) (p : Particle.t) : Prop :=
  exists j, lo <= j <= hi /\ Particle.life p = lifeAfter j 1%float.

(** The counters stay in range. *)
Definition countersInRange (s : State) : Prop :=
  (0 <= consecutiveOpenFrames s <= 5)%Z
  /\ (-1 <= consecutivePinchFrames s)%Z
  /\ (mode s = DRAWING -> 0 <= consecutivePinchFrames s)%Z.

(** Mode and menu flag agree. *)
Definition menuInStep (s : State) : Prop :=
  (mode s = MENU -> isMenuOpen s = true)
  /\ (isMenuOpen s = true -> mode s = MENU \/ mode s = IDLE).

(** The React state shows what the record holds. *)
Definition mirrored (s : State) (r : ReactState) : Prop :=
  uiVisible r = isMenuOpen s
  /\ toolbarProps r = (tool s, color s, size s).

(** Colour and width of the tool, and of every finalized path, come from
    the toolbar's tables. *)
Definition fromTables (s : State) : Prop :=
  In (color s) (map Some Toolbar.COLORS)
  /\ In (size s) (map Some Toolbar.SIZES)
  /\ Forall (fun path =>
               In (DrawingPath.color path) (map Some Toolbar.COLORS)
               /\ In (DrawingPath.width path) (map Some Toolbar.SIZES))
            (paths s).

(** An open hand, fingers up, thumb out. *)
Definition palmHand : list HandLandmark.t :=
  [landmarkAt 0.5 0.9; landmarkAt 0.4 0.8; landmarkAt 0.35 0.7;
   landmarkAt 0.3 0.65; landmarkAt 0.2 0.6;
   landmarkAt 0.45 0.6; landmarkAt 0.45 0.5; landmarkAt 0.45 0.4;
   landmarkAt 0.45 0.3;
   landmarkAt 0.5 0.6; landmarkAt 0.5 0.5; landmarkAt 0.5 0.4;
   landmarkAt 0.5 0.3;
   landmarkAt 0.55 0.6; landmarkAt 0.55 0.5; landmarkAt 0.55 0.4;
   landmarkAt 0.55 0.3;
   landmarkAt 0.6 0.6; landmarkAt 0.6 0.5; landmarkAt 0.6 0.4;
   landmarkAt 0.6 0.3].


(** All 21 landmarks on one spot: hand size 0 and pinch ratio 0 / 0. *)
Definition collapsedHand : list HandLandmark.t :=
  repeat (landmarkAt 0.5 0.5) 21.

(** The frame of a hand at clock reading [time]. *)
Definition frameAt (time : Z) (hand : list HandLandmark.t) : Frame :=
  mkFrame [hand] time 640%float 480%float noDocument (fun _ => 0.5%float).

(** The props of an open toolbar with the initial settings. *)
Definition openToolbar : Toolbar.Props :=
  Toolbar.mkProps true PEN (Some "#00FF00") (Some 5%float) None.

(** One fresh particle and nothing else. *)
Definition oneParticle : State :=
  set_particles
    [{| Particle.x := 10; Particle.y := 10; Particle.vx := 1; Particle.vy := 3;
        Particle.color := Some "#00FF00"; Particle.size := 2;
        Particle.life := 1 |}]%float
    initialState.

(** The clock readings of six frames 40 ms apart, past the first cooldown. *)
Definition sixPalmFrames : list Frame :=
  map (fun time => frameAt time palmHand) [2000; 2040; 2080; 2120; 2160; 2200]%Z.

(** Five open-palm frames counted, inside the first cooldown. *)
Definition palmPending : State :=
  set_consecutiveOpenFrames 5 (set_lastLandmarks (Some palmHand) initialState).

(** The pinched hand moved 0.05 to the left of [hand005]: the mirrored
    midpoint is 32 pixels to the right. *)
Definition hand005moved := handWith (landmarkAt 0.45 0.1) (landmarkAt 0.45 0.05).

(** A pinched hand whose index tip is inside the zone as well, so that it
    is in the zone whichever cursor source is read. *)
Definition hand004 := handWith (landmarkAt 0.5 0.14) (landmarkAt 0.5 0.1).

(** A frame without a hand at clock reading [time]. *)
Definition lostAt (time : Z) : Frame :=
  mkFrame [] time 640%float 480%float noDocument (fun _ => 0.5%float).

(** Four pinched frames that follow [sixPalmFrames] and a lost frame. *)
Definition pinchUnderMenu : list Frame :=
  map (fun time => frameAt time hand004) [2280; 2320; 2360; 2400]%Z.

(** * Properties *)

(** Evaluate the tick or run in the goal. *)
Ltac evaluate c :=
  let E := fresh "E" in
  destruct c as [[? ?]|] eqn:E; vm_compute in E;
  [injection E as <- <-|discriminate].


(** ** Order of binary64 values *)

Section FloatOrder.
Local Open Scope float_scope.

Lemma SFcompare_antisym (a b : spec_float) :
  SFcompare b a = option_map CompOpp (SFcompare a b).
Proof.
  destruct a as [sa|sa| |sa ma ea], b as [sb|sb| |sb mb eb]; cbn;
    try reflexivity; try (destruct sa; reflexivity);
    try (destruct sb; reflexivity); try (destruct sa, sb; reflexivity).
  destruct sa, sb; cbn; try reflexivity;
    rewrite (Z.compare_antisym eb ea); destruct (eb ?= ea)%Z; cbn;
    try reflexivity;
    change (PosDef.Pos.compare_cont Eq) with Pos.compare;
    rewrite (Pos.compare_antisym mb ma); destruct (mb ?= ma)%positive;
    reflexivity.
Qed.

Lemma SFcompare_trans_lt (a b c : spec_float) :
  SFcompare a b = Some Lt -> SFcompare b c = Some Lt -> SFcompare a c = Some Lt.
Proof.
  destruct a as [sa|sa| |sa ma ea], b as [sb|sb| |sb mb eb],
           c as [sc|sc| |sc mc ec];
    cbn; try discriminate;
    try (destruct sa; try discriminate); try (destruct sb; try discriminate);
    try (destruct sc; try discriminate); try reflexivity; try discriminate;
    change (PosDef.Pos.compare_cont Eq) with Pos.compare;
    destruct (Z.compare_spec ea eb), (Z.compare_spec eb ec),
             (Z.compare_spec ea ec);
    try discriminate; try reflexivity; try lia; subst;
    destruct (Pos.compare_spec ma mb), (Pos.compare_spec mb mc),
             (Pos.compare_spec ma mc);
    cbn; try discriminate; try reflexivity; try lia.
Qed.

Lemma ltb_trans (a b c : float) :
  (a <? b) = true -> (b <? c) = true -> (a <? c) = true.
Proof.
  rewrite !ltb_spec. unfold SFltb.
  destruct (SFcompare (Prim2SF a) (Prim2SF b)) as [[]|] eqn:E1; try discriminate.
  destruct (SFcompare (Prim2SF b) (Prim2SF c)) as [[]|] eqn:E2; try discriminate.
  now rewrite (SFcompare_trans_lt _ _ _ E1 E2).
Qed.

Lemma leb_not_ltb (a b : float) : (a <=? b) = true -> (b <? a) = false.
Proof.
  rewrite leb_spec, ltb_spec. unfold SFleb, SFltb.
  rewrite (SFcompare_antisym (Prim2SF a) (Prim2SF b)).
  destruct (SFcompare (Prim2SF a) (Prim2SF b)) as [[]|]; cbn;
    intros; congruence.
Qed.

(** The start threshold lies below the end threshold, so a ratio under
    the first is never over the second. *)
Lemma below_start_not_above_end (r : float) :
  (r <? PINCH_START_THRESHOLD) = true -> (PINCH_END_THRESHOLD <? r) = false.
Proof.
  intros H. destruct (PINCH_END_THRESHOLD <? r) eqn:E; [|reflexivity].
  pose proof (ltb_trans _ _ _ E H) as K. vm_compute in K. discriminate.
Qed.

End FloatOrder.

(** ** Stroke accumulator *)

Section StrokeProperties.
Local Open Scope float_scope.

Lemma endStroke_empty (s : State) : currentPath s = [] -> endStroke s = s.
Proof. intros H. unfold endStroke. now rewrite H. Qed.

Lemma endStroke_nonempty (s : State) :
  currentPath s <> [] ->
  endStroke s = set_currentPath [] (set_paths (paths s ++ [finalized s]) s).
Proof.
  intros H. unfold endStroke, finalized.
  destruct (currentPath s) as [|p rest]; [congruence|reflexivity].
Qed.

Lemma endStroke_currentPath (s : State) : currentPath (endStroke s) = [].
Proof.
  unfold endStroke. destruct (currentPath s) eqn:E; cbn; [exact E|reflexivity].
Qed.

(** C9. [endStroke] is idempotent: a second call in a row, with no
    [startStroke] or [addPointToStroke] in between, changes nothing, so
    the path collection and the in-progress stroke are those left by the
    first call. *)
Theorem endStroke_idempotent (s : State) :
  endStroke (endStroke s) = endStroke s.
Proof. apply endStroke_empty, endStroke_currentPath. Qed.

Lemma addPointToStroke_last (p lastP : Point.t) (init : list Point.t) (s : State) :
  currentPath s = (init ++ [lastP])%list ->
  addPointToStroke p s =
    if 4 <? distanceSq lastP p
    then set_currentPath (currentPath s ++ [p]) s
    else s.
Proof.
  intros H. unfold addPointToStroke. rewrite H, last_last.
  destruct init; reflexivity.
Qed.

(** C8. [addPointToStroke] on an empty active stroke changes nothing; on
    a stroke ending in [lastP] it appends [p] exactly when the squared
    pixel distance from [lastP] exceeds 4, and otherwise changes nothing;
    so points that all stay within 2 px (squared distance at most 4) of
    the single point of a stroke never make it grow. *)
Theorem addPointToStroke_filters_micro_movements (p : Point.t) (s : State) :
  (currentPath s = [] -> addPointToStroke p s = s)
  /\ (forall init lastP,
        currentPath s = (init ++ [lastP])%list ->
        (currentPath (addPointToStroke p s) = (currentPath s ++ [p])%list
         <-> (4 <? distanceSq lastP p) = true)
        /\ ((4 <? distanceSq lastP p) = false -> addPointToStroke p s = s))
  /\ (forall p0 ps,
        currentPath s = [p0] ->
        Forall (fun q => (distanceSq p0 q <=? 4) = true) ps ->
        addPoints ps s = s).
Proof.
  split; [|split].
  - intros H. unfold addPointToStroke. now rewrite H.
  - intros init lastP H. rewrite (addPointToStroke_last p lastP init s H).
    destruct (4 <? distanceSq lastP p); split.
    + split; [intros _; reflexivity|intros _; destruct s; reflexivity].
    + discriminate.
    + split; [|discriminate]. intros K.
      apply (f_equal (@List.length _)) in K. rewrite length_app in K.
      cbn in K. lia.
    + reflexivity.
  - intros p0 ps H Hall. unfold addPoints.
    induction Hall as [|q ps Hq _ IH]; [reflexivity|]. cbn [fold_left].
    rewrite (addPointToStroke_last q p0 [] s H), (leb_not_ltb _ _ Hq).
    exact IH.
Qed.

End StrokeProperties.

(** ** Dissolve *)

Section DissolveProperties.
Variable rnd : nat -> float.

Lemma every4th_length_le (n : nat) :
  forall pts, List.length pts <= n ->
              List.length (every4th pts) = (List.length pts + 3) / 4.
Proof.
  induction n as [n IH] using lt_wf_ind. intros pts Hn.
  destruct pts as [|a [|b [|c [|d rest]]]]; try reflexivity.
  cbn [every4th List.length].
  rewrite (IH (List.length rest)); [|cbn in Hn; lia|lia].
  replace (S (S (S (S (List.length rest)))) + 3)
    with (1 * 4 + (List.length rest + 3)) by lia.
  rewrite Nat.div_add_l by lia. reflexivity.
Qed.

(** The loop samples ⌈n/4⌉ points of a path of n points… *)
Lemma every4th_length (pts : list Point.t) :
  List.length (every4th pts) = (List.length pts + 3) / 4.
Proof. now apply (every4th_length_le (List.length pts)). Qed.

Lemma every4th_nth_le (n : nat) :
  forall pts j, List.length pts <= n ->
                j < List.length (every4th pts) ->
                nth_error (every4th pts) j = nth_error pts (4 * j).
Proof.
  induction n as [n IH] using lt_wf_ind. intros pts j Hn Hj.
  destruct pts as [|a rest]; [cbn in Hj; lia|].
  destruct j as [|j]; [reflexivity|].
  destruct rest as [|b [|c [|d rest]]]; cbn in Hj; try lia.
  replace (4 * S j) with (S (S (S (S (4 * j))))) by lia.
  cbn [every4th nth_error].
  apply (IH (List.length rest)); [cbn in Hn; lia|lia|lia].
Qed.

(** … namely those at the indices 0, 4, 8, … *)
Lemma every4th_nth (pts : list Point.t) (j : nat) :
  j < List.length (every4th pts) ->
  nth_error (every4th pts) j = nth_error pts (4 * j).
Proof. now apply (every4th_nth_le (List.length pts)). Qed.

Lemma spawn_samples (path : DrawingPath.t) (samples : list Point.t) :
  forall k,
    Forall2 (fun p q => Particle.x q = Point.x p
                        /\ Particle.y q = Point.y p
                        /\ Particle.life q = 1%float)
            samples (fst (spawn rnd path samples k)).
Proof.
  induction samples as [|p rest IH]; intros k; cbn; [constructor|].
  specialize (IH (k + 3)). destruct (spawn rnd path rest (k + 3)); cbn in *.
  constructor; [repeat split|exact IH].
Qed.

Lemma spawn_batchOf (path : DrawingPath.t) (k : nat) :
  batchOf path (fst (spawn rnd path (every4th (DrawingPath.points path)) k)).
Proof.
  pose proof (spawn_samples path (every4th (DrawingPath.points path)) k) as F.
  pose proof (Forall2_length F) as L.
  split; [now rewrite <- L, every4th_length|].
  intros j Hj. rewrite <- L in Hj.
  destruct (nth_error (every4th (DrawingPath.points path)) j) as [p|] eqn:Ep;
    [|apply nth_error_None in Ep; lia].
  destruct (nth_error (fst (spawn rnd path (every4th (DrawingPath.points path)) k)) j)
    as [q|] eqn:Eq; [|apply nth_error_None in Eq; lia].
  exists p, q. rewrite <- every4th_nth by exact Hj.
  split; [exact Ep|split; [reflexivity|]].
  clear L Hj. revert j Ep Eq.
  induction F as [|p' q' ps qs Hpq _ IH]; intros [|j] Ep Eq; cbn in *;
    try discriminate.
  - now injection Ep as <-; injection Eq as <-.
  - now apply (IH j).
Qed.

Lemma spawnAll_batches (ps : list DrawingPath.t) :
  forall k, exists batches,
    spawnAll rnd ps k = List.concat batches /\ Forall2 batchOf ps batches.
Proof.
  induction ps as [|path rest IH]; intros k.
  - exists []. split; [reflexivity|constructor].
  - cbn [spawnAll].
    pose proof (spawn_batchOf path k) as B.
    destruct (spawn rnd path (every4th (DrawingPath.points path)) k)
      as [here k'].
    destruct (IH k') as [batches [E F]].
    exists (here :: batches). cbn. rewrite E.
    split; [reflexivity|constructor; assumption].
Qed.

Lemma triggerDissolve_nonempty (w h : float) (s : State) :
  paths s <> [] ->
  triggerDissolve rnd w h s =
    set_currentPath []
      (set_paths [] (set_particles (particles s ++ spawnAll rnd (paths s) 0) s)).
Proof.
  intros H. unfold triggerDissolve.
  destruct (paths s); [congruence|reflexivity].
Qed.

(** C6. With at least one finalized path, [triggerDissolve] appends to
    the particles, for each path of n points, ⌈n/4⌉ particles placed at
    the points of index 0, 4, 8, … with life 1.0, then empties the path
    collection and discards the in-progress stroke; with no finalized
    path it leaves the whole state as it is, in-progress stroke
    included. *)
Theorem triggerDissolve_spawns_and_clears (w h : float) (s : State) :
  (paths s <> [] ->
     exists batches,
       particles (triggerDissolve rnd w h s)
         = (particles s ++ List.concat batches)%list
       /\ Forall2 batchOf (paths s) batches
       /\ paths (triggerDissolve rnd w h s) = []
       /\ currentPath (triggerDissolve rnd w h s) = [])
  /\ (paths s = [] -> triggerDissolve rnd w h s = s).
Proof.
  split; intros H.
  - destruct (spawnAll_batches (paths s) 0) as [batches [Eb F]].
    exists batches. rewrite (triggerDissolve_nonempty w h s H), <- Eb.
    now destruct s.
  - unfold triggerDissolve. now rewrite H.
Qed.

End DissolveProperties.

(** ** The per-frame update, phase by phase *)

Section UpdateProperties.
Variable sin : float -> float.
Local Open Scope float_scope.


Lemma physics_shape (h : float) (s : State) :
  exists ps, physics sin h s = set_particles ps s.
Proof.
  unfold physics. destruct (0 <? List.length (particles s))%nat.
  - eexists. reflexivity.
  - exists (particles s). now destruct s.
Qed.

(** The two first phases touch the particles, the hand size, the filter
    state and the cursor, and nothing else. *)
Lemma tracked_shape (f : Frame) (hs : float) (rp : Point.t) (s : State) :
  exists ps sp,
    smoothedPos (smoothing (Point.x (mirror rp) * width f)
                           (Point.y (mirror rp) * height f) s) = Some sp
    /\ tracked sin f hs rp s =
         set_cursorPos sp
           (set_smoothedPos (Some sp) (set_handSize hs (set_particles ps s))).
Proof.
  unfold tracked. destruct (physics_shape (height f) s) as [ps ->].
  exists ps. destruct s as [? ? ? ? ? ? ? ? ? ? [sp|] ? ? ? ? ? ? ?];
    eexists; split; reflexivity.
Qed.

Lemma update_lost (f : Frame) (s : State) :
  lastLandmarks s = None ->
  update sin f s = Some (set_smoothedPos None (dropToIdle (physics sin (height f) s)), []).
Proof.
  intros H. unfold update.
  destruct (physics_shape (height f) s) as [ps ->].
  destruct s; cbn in *. now rewrite H.
Qed.

Lemma update_out_of_zone (f : Frame) (s : State) l hs r rp :
  lastLandmarks s = Some l ->
  getHandSize l = Some hs ->
  getPinchRatio l hs = Some r ->
  rawPointOf (isMenuOpen s) l = Some rp ->
  isInSafeZone (mirror rp) = false ->
  update sin f s = Some (dropToIdle (set_handSize hs (physics sin (height f) s)), []).
Proof.
  intros Hl Hs Hr Hp Hz. unfold update.
  destruct (physics_shape (height f) s) as [ps ->].
  destruct s; cbn in *. rewrite Hl. cbn. rewrite Hs. cbn. rewrite Hr. cbn.
  rewrite Hp. cbn. unfold mirror in Hz. now rewrite Hz.
Qed.

Lemma update_in_zone (f : Frame) (s : State) l hs r rp :
  lastLandmarks s = Some l ->
  getHandSize l = Some hs ->
  getPinchRatio l hs = Some r ->
  rawPointOf (isMenuOpen s) l = Some rp ->
  isInSafeZone (mirror rp) = true ->
  update sin f s =
    let t := tracked sin f hs rp s in
    if negb (AppMode_eqb (mode t) DRAWING) then
      '(t, effects) <- menuGesture (now f) l t ;;
      victory <- detectVictory l ;;
      if victory && negb (isMenuOpen t) then
        ret (triggerDissolve (random f) (width f) (height f) t, effects)
      else
        '(t, effects') <- modeLogic (document f) l r t ;;
        ret (t, (effects ++ effects')%list)
    else modeLogic (document f) l r t.
Proof.
  intros Hl Hs Hr Hp Hz. unfold update, tracked.
  destruct (physics_shape (height f) s) as [ps ->].
  destruct s; cbn in *. rewrite Hl. cbn. rewrite Hs. cbn. rewrite Hr. cbn.
  rewrite Hp. cbn. unfold mirror in Hz. now rewrite Hz.
Qed.

Lemma run_app (fs gs : list Frame) :
  forall s,
    run sin (fs ++ gs) s =
      ('(s1, e1) <- run sin fs s ;;
       '(s2, e2) <- run sin gs s1 ;;
       ret (s2, (e1 ++ e2)%list)).
Proof.
  induction fs as [|f fs IH]; intros s; cbn.
  - destruct (run sin gs s) as [[s2 e2]|]; reflexivity.
  - destruct (tick sin f s) as [[s1 e1]|]; [cbn|reflexivity].
    rewrite IH. destruct (run sin fs s1) as [[s2 e2]|]; [cbn|reflexivity].
    destruct (run sin gs s2) as [[s3 e3]|]; [cbn|reflexivity].
    now rewrite app_assoc.
Qed.

Lemma tick_unfold (f : Frame) (s : State) l others :
  multiHandLandmarks f = l :: others ->
  tick sin f s = update sin f (set_lastLandmarks (Some l) s).
Proof. intros H. unfold tick, onResults. now rewrite H. Qed.

(** A frame inside the zone reaches the state machine phase. *)
Lemma tick_in_zone (f : Frame) (s : State) (r : float) :
  isMenuOpen s = false ->
  inZoneFrame f r ->
  exists l hs rp others,
    multiHandLandmarks f = l :: others
    /\ tick sin f s =
         (let t := tracked sin f hs rp (set_lastLandmarks (Some l) s) in
          if negb (AppMode_eqb (mode t) DRAWING) then
            '(t, effects) <- menuGesture (now f) l t ;;
            victory <- detectVictory l ;;
            if victory && negb (isMenuOpen t) then
              ret (triggerDissolve (random f) (width f) (height f) t, effects)
            else
              '(t, effects') <- modeLogic (document f) l r t ;;
              ret (t, (effects ++ effects')%list)
          else modeLogic (document f) l r t).
Proof.
  intros Hm (l & others & rp & Hf & Hr & Hp & Hz).
  unfold pinchRatioOf in Hr.
  destruct (getHandSize l) as [hs|] eqn:Hs; [|discriminate]. cbn in Hr.
  exists l, hs, rp, others. split; [exact Hf|].
  rewrite (tick_unfold f s l others Hf).
  apply update_in_zone; try assumption.
  - now destruct s.
  - destruct s; cbn in *. now rewrite Hm.
Qed.

Lemma modeLogic_held (doc : Document) l (r : float) (t : State) :
  isMenuOpen t = false ->
  mode t = DRAWING ->
  (PINCH_END_THRESHOLD <? r) = false ->
  modeLogic doc l r t =
    Some (addPointToStroke (cursorPos t)
            (set_consecutivePinchFrames PINCH_DEBOUNCE_FRAMES t), []).
Proof.
  intros Hm Hd Hr. unfold modeLogic. rewrite Hm, Hd, Hr. now destruct t.
Qed.

Lemma modeLogic_exit (doc : Document) l (r : float) (t : State) :
  isMenuOpen t = false ->
  mode t = DRAWING ->
  (PINCH_END_THRESHOLD <? r) = true ->
  modeLogic doc l r t =
    let t' := set_consecutivePinchFrames (consecutivePinchFrames t - 1)%Z t in
    Some (if (consecutivePinchFrames t - 1 <? 0)%Z
          then set_mode HOVER (endStroke t') else t', []).
Proof.
  intros Hm Hd Hr. unfold modeLogic. rewrite Hm, Hd, Hr. destruct t; cbn.
  now destruct (_ <? 0)%Z.
Qed.

Lemma modeLogic_entry (doc : Document) l (r : float) (t : State) :
  isMenuOpen t = false ->
  mode t <> DRAWING ->
  (r <? PINCH_START_THRESHOLD) = true ->
  modeLogic doc l r t =
    let t' := set_consecutivePinchFrames (consecutivePinchFrames t + 1)%Z t in
    Some (if (PINCH_DEBOUNCE_FRAMES <? consecutivePinchFrames t + 1)%Z
          then set_mode DRAWING (startStroke (cursorPos t') t') else t', []).
Proof.
  intros Hm Hd Hr. unfold modeLogic. rewrite Hm, Hr.
  destruct t as [? ? ? ? ? ? [] ? ? ? ? ? ? ? ? ? ? ?]; cbn in *;
    try congruence; now destruct (_ <? _)%Z.
Qed.

Lemma modeLogic_released (doc : Document) l (r : float) (t : State) :
  isMenuOpen t = false ->
  mode t <> DRAWING ->
  (r <? PINCH_START_THRESHOLD) = false ->
  modeLogic doc l r t =
    Some (set_mode HOVER (set_consecutivePinchFrames 0%Z t), []).
Proof.
  intros Hm Hd Hr. unfold modeLogic. rewrite Hm, Hr.
  destruct t as [? ? ? ? ? ? [] ? ? ? ? ? ? ? ? ? ? ?]; cbn in *;
    first [reflexivity | congruence].
Qed.

(** While drawing, a frame whose ratio is not above the end threshold
    holds the exit counter at its ceiling and offers the cursor to the
    stroke. *)
Lemma drawing_tick_held (f : Frame) (s : State) (r : float) :
  mode s = DRAWING ->
  isMenuOpen s = false ->
  inZoneFrame f r ->
  (PINCH_END_THRESHOLD <? r) = false ->
  exists s',
    tick sin f s = Some (s', [])
    /\ mode s' = DRAWING
    /\ isMenuOpen s' = false
    /\ consecutivePinchFrames s' = PINCH_DEBOUNCE_FRAMES
    /\ paths s' = paths s
    /\ (currentPath s' = currentPath s
        \/ currentPath s' = (currentPath s ++ [cursorPos s'])%list).
Proof.
  intros Hd Hm Hz Hr.
  destruct (tick_in_zone f s r Hm Hz) as (l & hs & rp & others & _ & ->).
  destruct (tracked_shape f hs rp (set_lastLandmarks (Some l) s))
    as (ps & sp & _ & ->).
  cbv zeta.
  replace (mode _) with DRAWING by now destruct s.
  cbn [AppMode_eqb negb].
  rewrite modeLogic_held; [|now destruct s..|assumption].
  eexists. split; [reflexivity|].
  unfold addPointToStroke. destruct s; cbn in *; subst.
  destruct (List.length currentPath0 =? 0)%nat; [|destruct (4 <? _)];
    cbn; auto 10.
Qed.

(** While drawing, a frame whose ratio is above the end threshold
    decrements the exit counter and offers no point; the stroke ends once
    the counter is negative. *)
Lemma drawing_tick_exit (f : Frame) (s : State) (r : float) :
  mode s = DRAWING ->
  isMenuOpen s = false ->
  inZoneFrame f r ->
  (PINCH_END_THRESHOLD <? r) = true ->
  exists s',
    tick sin f s = Some (s', [])
    /\ isMenuOpen s' = false
    /\ consecutivePinchFrames s' = (consecutivePinchFrames s - 1)%Z
    /\ if (consecutivePinchFrames s - 1 <? 0)%Z
       then mode s' = HOVER /\ currentPath s' = []
            /\ paths s' = paths (endStroke s)
       else mode s' = DRAWING /\ currentPath s' = currentPath s
            /\ paths s' = paths s.
Proof.
  intros Hd Hm Hz Hr.
  destruct (tick_in_zone f s r Hm Hz) as (l & hs & rp & others & _ & ->).
  destruct (tracked_shape f hs rp (set_lastLandmarks (Some l) s))
    as (ps & sp & _ & ->).
  cbv zeta.
  replace (mode _) with DRAWING by now destruct s.
  cbn [AppMode_eqb negb].
  rewrite modeLogic_exit; [|now destruct s..|assumption].
  eexists. split; [reflexivity|].
  unfold endStroke. destruct s; cbn in *; subst.
  destruct (_ - 1 <? 0)%Z; [destruct currentPath0|]; cbn; auto.
Qed.

(** C1 (as amended). In DRAWING mode with the exit counter at its ceiling
    3, one in-zone frame whose pinch ratio is above the end threshold (as
    0.20 is) decrements the counter to 2 and keeps the mode DRAWING; it
    takes the decrement branch, which offers no point: the active stroke
    and the path collection stay as they were. *)
Theorem exit_frame_decrements_without_append (f : Frame) (s : State) (r : float) :
  mode s = DRAWING ->
  isMenuOpen s = false ->
  consecutivePinchFrames s = PINCH_DEBOUNCE_FRAMES ->
  inZoneFrame f r ->
  (PINCH_END_THRESHOLD <? r) = true ->
  exists s',
    tick sin f s = Some (s', [])
    /\ consecutivePinchFrames s' = 2%Z
    /\ mode s' = DRAWING
    /\ currentPath s' = currentPath s
    /\ paths s' = paths s.
Proof.
  intros Hd Hm Hc Hz Hr.
  destruct (drawing_tick_exit f s r Hd Hm Hz Hr) as (s' & Ht & _ & Hc' & Hrest).
  rewrite Hc in Hc', Hrest. cbn in Hrest. destruct Hrest as (? & ? & ?).
  exists s'. auto.
Qed.

Lemma run_held (fs : list Frame) :
  forall s,
    mode s = DRAWING ->
    isMenuOpen s = false ->
    Forall (fun f => exists r, inZoneFrame f r
                               /\ (PINCH_END_THRESHOLD <? r) = false) fs ->
    exists s' ext,
      run sin fs s = Some (s', [])
      /\ mode s' = DRAWING
      /\ isMenuOpen s' = false
      /\ (fs <> [] -> consecutivePinchFrames s' = PINCH_DEBOUNCE_FRAMES)
      /\ paths s' = paths s
      /\ currentPath s' = (currentPath s ++ ext)%list.
Proof.
  induction fs as [|f fs IH]; intros s Hd Hm Hall.
  - exists s, []. rewrite app_nil_r. cbn. repeat split; auto; congruence.
  - inversion Hall as [|? ? (r & Hz & Hr) Hall']; subst.
    destruct (drawing_tick_held f s r Hd Hm Hz Hr)
      as (s1 & Ht & Hd1 & Hm1 & Hc1 & Hp1 & Hcur).
    destruct (IH s1 Hd1 Hm1 Hall') as (s' & ext & Hrun & Hd' & Hm' & Hc' & Hp' & Hcur').
    assert (exists ext1, currentPath s1 = (currentPath s ++ ext1)%list) as [ext1 E1].
    { destruct Hcur as [-> | ->]; [exists []; now rewrite app_nil_r|eauto]. }
    exists s', (ext1 ++ ext)%list. cbn [run]. rewrite Ht. cbn. rewrite Hrun. cbn.
    repeat split; auto; try congruence.
    + intros _. destruct fs; [|apply Hc'; discriminate].
      cbn in Hrun. injection Hrun as <-. exact Hc1.
    + rewrite Hcur', E1. now rewrite app_assoc.
Qed.

Lemma heldFrame_not_above_end (f : Frame) :
  heldFrame f ->
  exists r, inZoneFrame f r /\ (PINCH_END_THRESHOLD <? r) = false.
Proof.
  intros (r & Hz & Hr). exists r. split; [exact Hz|now apply leb_not_ltb].
Qed.

(** C4. From DRAWING mode, after every one of a sequence of in-zone frames
    whose pinch ratios are all at most the end threshold 0.14 (such as
    ratios oscillating between 0.10 and 0.13), the mode is still DRAWING
    and the exit counter is at its ceiling 3: no such frame decrements it,
    and no stroke is finalized. *)
Theorem hysteresis_band_never_exits (fs : list Frame) (s : State) (k : nat) :
  mode s = DRAWING ->
  isMenuOpen s = false ->
  Forall heldFrame fs ->
  0 < k <= List.length fs ->
  exists s',
    run sin (firstn k fs) s = Some (s', [])
    /\ mode s' = DRAWING
    /\ consecutivePinchFrames s' = PINCH_DEBOUNCE_FRAMES
    /\ paths s' = paths s.
Proof.
  intros Hd Hm Hall Hk.
  assert (Forall (fun f => exists r, inZoneFrame f r
                                     /\ (PINCH_END_THRESHOLD <? r) = false)
                 (firstn k fs)) as Hall'.
  { apply Forall_forall. intros f Hin. apply heldFrame_not_above_end.
    rewrite Forall_forall in Hall. apply Hall.
    rewrite <- (firstn_skipn k fs). apply in_or_app. now left. }
  destruct (run_held (firstn k fs) s Hd Hm Hall')
    as (s' & ext & Hrun & Hd' & _ & Hc' & Hp' & _).
  exists s'. repeat split; auto. apply Hc'.
  destruct fs, k; cbn in *; try lia; discriminate.
Qed.

(** ** Draw entry *)

Lemma menuGesture_no_palm (time : Z) l (t : State) :
  detectOpenPalm l = Some false ->
  exists t',
    menuGesture time l t = Some (t', [])
    /\ (t' = t \/ t' = set_consecutiveOpenFrames 0%Z t).
Proof.
  intros Hp. unfold menuGesture. rewrite Hp. cbn.
  destruct (1000 <? time - lastGestureTime t)%Z; eauto.
Qed.

(** Outside DRAWING, a frame in the zone that shows no global gesture
    reaches the draw entry logic with the mode, the pinch counter and the
    strokes it started with. *)
Lemma idle_tick (f : Frame) (s : State) (r : float) :
  mode s <> DRAWING ->
  isMenuOpen s = false ->
  inZoneFrame f r ->
  noGesture f ->
  exists l t,
    tick sin f s = modeLogic (document f) l r t
    /\ mode t = mode s
    /\ isMenuOpen t = false
    /\ consecutivePinchFrames t = consecutivePinchFrames s
    /\ currentPath t = currentPath s
    /\ paths t = paths s.
Proof.
  intros Hd Hm Hz (l' & others' & Hf' & Hpalm & Hvic).
  destruct (tick_in_zone f s r Hm Hz) as (l & hs & rp & others & Hf & ->).
  rewrite Hf in Hf'. injection Hf' as <- <-.
  destruct (tracked_shape f hs rp (set_lastLandmarks (Some l) s))
    as (ps & sp & _ & ->).
  cbv zeta.
  replace (mode (set_cursorPos _ _)) with (mode s) by now destruct s.
  replace (negb (AppMode_eqb (mode s) DRAWING)) with true
    by (destruct (mode s); try reflexivity; congruence).
  destruct (menuGesture_no_palm (now f) l
              (set_cursorPos sp
                 (set_smoothedPos (Some sp)
                    (set_handSize hs
                       (set_particles ps (set_lastLandmarks (Some l) s))))) Hpalm)
    as (t & -> & Ht).
  cbn [bind]. rewrite Hvic. cbn [bind andb].
  exists l, t. split.
  - destruct (modeLogic (document f) l r t) as [[t' e]|]; reflexivity.
  - destruct Ht as [-> | ->]; now destruct s.
Qed.

Lemma entry_tick (f : Frame) (s : State) :
  mode s <> DRAWING ->
  isMenuOpen s = false ->
  pinchedFrame f ->
  exists s',
    tick sin f s = Some (s', [])
    /\ isMenuOpen s' = false
    /\ paths s' = paths s
    /\ consecutivePinchFrames s' = (consecutivePinchFrames s + 1)%Z
    /\ if (PINCH_DEBOUNCE_FRAMES <? consecutivePinchFrames s + 1)%Z
       then mode s' = DRAWING /\ currentPath s' = [cursorPos s']
       else mode s' = mode s /\ currentPath s' = currentPath s.
Proof.
  intros Hd Hm (r & Hz & Hg & Hr).
  destruct (idle_tick f s r Hd Hm Hz Hg) as (l & t & -> & Hd' & Hm' & Hc & Hcur & Hp).
  rewrite modeLogic_entry; [|assumption|congruence|assumption].
  eexists. split; [reflexivity|]. rewrite Hc.
  destruct (PINCH_DEBOUNCE_FRAMES <? consecutivePinchFrames s + 1)%Z;
    destruct t; cbn in *; auto 10.
Qed.

Lemma released_tick (f : Frame) (s : State) :
  mode s <> DRAWING ->
  isMenuOpen s = false ->
  releasedFrame f ->
  exists s',
    tick sin f s = Some (s', [])
    /\ consecutivePinchFrames s' = 0%Z
    /\ mode s' = HOVER
    /\ currentPath s' = currentPath s
    /\ paths s' = paths s.
Proof.
  intros Hd Hm (r & Hz & Hg & Hr).
  destruct (idle_tick f s r Hd Hm Hz Hg) as (l & t & -> & Hd' & Hm' & Hc & Hcur & Hp).
  rewrite modeLogic_released;
    [|assumption|congruence|now apply leb_not_ltb].
  eexists. split; [reflexivity|]. destruct t; cbn in *; auto.
Qed.

(** Up to three qualifying frames only count. *)
Lemma run_counting (fs : list Frame) :
  forall s,
    mode s <> DRAWING ->
    isMenuOpen s = false ->
    Forall pinchedFrame fs ->
    (consecutivePinchFrames s + Z.of_nat (List.length fs) <= PINCH_DEBOUNCE_FRAMES)%Z ->
    exists s',
      run sin fs s = Some (s', [])
      /\ mode s' = mode s
      /\ isMenuOpen s' = false
      /\ consecutivePinchFrames s'
         = (consecutivePinchFrames s + Z.of_nat (List.length fs))%Z
      /\ currentPath s' = currentPath s
      /\ paths s' = paths s.
Proof.
  induction fs as [|f fs IH]; intros s Hd Hm Hall Hle.
  - exists s. cbn. rewrite Z.add_0_r. auto 10.
  - inversion Hall as [|? ? Hf Hall']; subst.
    cbn [List.length] in Hle. rewrite Nat2Z.inj_succ in Hle.
    destruct (entry_tick f s Hd Hm Hf) as (s1 & Ht & Hm1 & Hp1 & Hc1 & Hb).
    replace (PINCH_DEBOUNCE_FRAMES <? consecutivePinchFrames s + 1)%Z
      with false in Hb by (symmetry; apply Z.ltb_ge; lia).
    destruct Hb as [Hd1 Hcur1].
    destruct (IH s1) as (s' & Hrun & Hd' & Hm' & Hc' & Hcur' & Hp');
      [congruence|assumption|assumption|lia|].
    exists s'. cbn [run List.length]. rewrite Ht. cbn. rewrite Hrun. cbn.
    repeat split; try congruence. rewrite Hc', Hc1. lia.
Qed.

(** The fourth one opens the stroke. *)
Lemma run_confirming (fs : list Frame) (s : State) :
  mode s <> DRAWING ->
  isMenuOpen s = false ->
  consecutivePinchFrames s = 0%Z ->
  Forall pinchedFrame fs ->
  List.length fs = 4%nat ->
  exists s',
    run sin fs s = Some (s', [])
    /\ mode s' = DRAWING
    /\ isMenuOpen s' = false
    /\ currentPath s' = [cursorPos s']
    /\ paths s' = paths s.
Proof.
  intros Hd Hm Hc Hall Hlen.
  destruct fs as [|f1 [|f2 [|f3 [|f4 [|]]]]]; try discriminate.
  assert (Forall pinchedFrame [f1; f2; f3]) as H3
    by (inversion Hall as [|? ? ? H]; inversion H as [|? ? ? H'];
        inversion H' as [|? ? ? H'']; repeat constructor; assumption).
  assert (pinchedFrame f4) as H4
    by (rewrite Forall_forall in Hall; apply Hall; cbn; auto).
  destruct (run_counting [f1; f2; f3] s Hd Hm H3)
    as (s3 & Hrun & Hd3 & Hm3 & Hc3 & Hcur3 & Hp3);
    [rewrite Hc; cbn; unfold PINCH_DEBOUNCE_FRAMES; lia|].
  rewrite Hc in Hc3. cbn in Hc3.
  destruct (entry_tick f4 s3) as (s4 & Ht & Hm4 & Hp4 & Hc4 & Hb);
    [congruence|assumption|assumption|].
  rewrite Hc3 in Hb. cbn in Hb. destruct Hb as [Hd4 Hcur4].
  exists s4.
  change [f1; f2; f3; f4] with ([f1; f2; f3] ++ [f4])%list.
  rewrite run_app, Hrun. cbn. rewrite Ht. cbn.
  repeat split; try congruence.
Qed.

Lemma Forall_split_at {A : Type} (P : A -> Prop) (n : nat) (l : list A) :
  Forall P l -> Forall P (firstn n l) /\ Forall P (skipn n l).
Proof. intros H. apply Forall_app. now rewrite firstn_skipn. Qed.

Lemma pinchedFrame_not_above_end (f : Frame) :
  pinchedFrame f ->
  exists r, inZoneFrame f r /\ (PINCH_END_THRESHOLD <? r) = false.
Proof.
  intros (r & Hz & _ & Hr). exists r.
  split; [exact Hz|now apply below_start_not_above_end].
Qed.

(** ** Mode and strokes stay consistent *)

Lemma sameStrokes_consistent (s t : State) :
  sameStrokes s t -> consistent s -> consistent t.
Proof.
  intros (Hd & Hm & Hc & _) [H1 H2]. unfold consistent.
  rewrite Hd, Hm, Hc. now split.
Qed.

Lemma tracked_sameStrokes (f : Frame) (hs : float) (rp : Point.t) (s : State) :
  sameStrokes s (tracked sin f hs rp s).
Proof.
  destruct (tracked_shape f hs rp s) as (ps & sp & _ & ->).
  destruct s; repeat split.
Qed.

Lemma dropToIdle_step (s : State) :
  mode (dropToIdle s) = IDLE
  /\ pathsStep s (dropToIdle s)
  /\ smoothedPos (dropToIdle s) = smoothedPos s
  /\ cursorPos (dropToIdle s) = cursorPos s
  /\ (consistent s -> currentPath (dropToIdle s) = []).
Proof.
  unfold dropToIdle, consistent, pathsStep, endStroke, finalized.
  destruct s as [? cur ? ? ? ? [] ? ? ? ? ? ? ? ? ? ? ?]; cbn;
    try destruct cur; cbn; repeat split; intros; auto;
    try (match goal with
         | H : _ /\ _ |- _ => destruct H as [_ H]; apply H; discriminate
         end).
Qed.

Lemma toggleMenu_step (time : Z) (s : State) :
  mode s <> DRAWING ->
  let t := fst (toggleMenu time s) in
  mode t <> DRAWING
  /\ currentPath t = []
  /\ (paths t = paths s \/ paths t = (paths s ++ [finalized s])%list)
  /\ smoothedPos t = smoothedPos s
  /\ cursorPos t = cursorPos s.
Proof.
  intros Hd. unfold toggleMenu, endStroke, finalized.
  destruct s as [? cur ? ? ? ? ? ? ? ? ? ? [] ? ? ? ? ?]; cbn in *;
    destruct cur; cbn; repeat split; auto; discriminate.
Qed.

Lemma menuGesture_step (time : Z) l (t t' : State) effects :
  menuGesture time l t = Some (t', effects) ->
  mode t <> DRAWING ->
  mode t' <> DRAWING
  /\ (currentPath t' = currentPath t \/ currentPath t' = [])
  /\ (paths t' = paths t \/ paths t' = (paths t ++ [finalized t])%list)
  /\ smoothedPos t' = smoothedPos t
  /\ cursorPos t' = cursorPos t.
Proof.
  unfold menuGesture. intros H Hd.
  destruct (1000 <? time - lastGestureTime t)%Z;
    [|injection H as <- <-; auto 10].
  destruct (detectOpenPalm l) as [[]|]; cbn [bind] in H; try discriminate.
  - destruct (5 <? _)%Z.
    + pose proof (toggleMenu_step time
                    (set_consecutiveOpenFrames (consecutiveOpenFrames t + 1)%Z t))
        as K.
      destruct (toggleMenu time _) as [u e]. injection H as <- <-.
      cbn in K. destruct K as (K1 & K2 & K3 & K4 & K5); [now destruct t|].
      unfold finalized in *. destruct t, u; cbn in *. auto 10.
    + injection H as <- <-. destruct t; cbn in *. auto 10.
  - injection H as <- <-. destruct t; cbn in *. auto 10.
Qed.

Lemma triggerClick_fields (doc : Document) (id : string) (s : State) :
  let t := fst (triggerClick doc id s) in
  mode t = mode s /\ isMenuOpen t = isMenuOpen s
  /\ currentPath t = currentPath s /\ paths t = paths s
  /\ smoothedPos t = smoothedPos s /\ cursorPos t = cursorPos s
  /\ hoveredId t = hoveredId s /\ selectionProgress t = selectionProgress s.
Proof.
  unfold triggerClick.
  destruct (String.eqb id "btn-pen"), (String.eqb id "btn-eraser"),
    (String.prefix "btn-color-" id), (String.prefix "btn-size-" id);
    destruct s; cbn; auto 10.
Qed.

Lemma handleUIInteraction_fields (doc : Document) (s : State) :
  let t := fst (handleUIInteraction doc s) in
  mode t = mode s /\ isMenuOpen t = isMenuOpen s
  /\ currentPath t = currentPath s /\ paths t = paths s
  /\ smoothedPos t = smoothedPos s /\ cursorPos t = cursorPos s.
Proof.
  unfold handleUIInteraction.
  destruct (hitTest doc _ _) as [hit|]; [|now destruct s].
  destruct (negb _); [now destruct s|].
  destruct (DWELL_TIME_MS <=? _); [|now destruct s].
  pose proof (triggerClick_fields doc hit
                (set_selectionProgress (selectionProgress s + FRAME_INTERVAL) s))
    as K.
  destruct (triggerClick doc hit _) as [u e]. cbn in K.
  destruct s, u; cbn in *. intuition congruence.
Qed.

Lemma modeLogic_frame (doc : Document) l (r : float) (t t' : State) effects :
  modeLogic doc l r t = Some (t', effects) ->
  smoothedPos t' = smoothedPos t
  /\ cursorPos t' = cursorPos t
  /\ (paths t' = paths t \/ paths t' = (paths t ++ [finalized t])%list)
  /\ (mode t <> DRAWING -> paths t' = paths t)
  /\ (forall q, In q (currentPath t') -> In q (currentPath t) \/ q = cursorPos t').
Proof.
  unfold modeLogic. intros H.
  destruct (isMenuOpen t) eqn:Hm.
  - destruct (isFingerExtended l 8 6) as [[]|]; cbn [bind] in H;
      try discriminate.
    + pose proof (handleUIInteraction_fields doc (set_mode MENU t)) as K.
      destruct (handleUIInteraction doc (set_mode MENU t)) as [u e].
      injection H as <- <-. cbn in K.
      destruct t, u; cbn in *. intuition (subst; auto).
    + injection H as <- <-. destruct t; cbn. auto 10.
  - destruct (AppMode_eqb (mode t) DRAWING) eqn:Hd.
    + destruct (PINCH_END_THRESHOLD <? r).
      * destruct (_ <? 0)%Z; injection H as <- <-;
          unfold endStroke, finalized;
          destruct t as [? cur ? ? ? ? [] ? ? ? ? ? ? ? ? ? ? ?]; cbn in *;
          try discriminate; try destruct cur; cbn;
          repeat split; auto; try congruence; intros ? []; auto.
      * injection H as <- <-. unfold addPointToStroke.
        destruct t as [? cur ? ? ? ? [] ? ? ? ? ? ? ? ? ? ? ?]; cbn in *;
          try discriminate.
        destruct (List.length cur =? 0)%nat; [|destruct (4 <? _)]; cbn;
          repeat split; auto; try congruence.
        intros q Hq. apply in_app_or in Hq. destruct Hq as [|[<-|[]]]; auto.
    + destruct (r <? PINCH_START_THRESHOLD).
      * destruct (PINCH_DEBOUNCE_FRAMES <? _)%Z; injection H as <- <-;
          destruct t; cbn; repeat split; auto.
        intros q [<-|[]]. auto.
      * injection H as <- <-. destruct t; cbn; auto 10.
Qed.

Lemma modeLogic_consistent (doc : Document) l (r : float) (t t' : State) effects :
  modeLogic doc l r t = Some (t', effects) ->
  consistent t ->
  consistent t'.
Proof.
  unfold modeLogic, consistent. intros H [H1 H2].
  destruct (isMenuOpen t) eqn:Hm.
  - assert (currentPath t = []) as Hc.
    { apply H2. intros Hd. destruct (H1 Hd). congruence. }
    destruct (isFingerExtended l 8 6) as [[]|]; cbn [bind] in H;
      try discriminate.
    + pose proof (handleUIInteraction_fields doc (set_mode MENU t)) as K.
      destruct (handleUIInteraction doc (set_mode MENU t)) as [u e].
      injection H as <- <-. cbn in K. destruct K as (K1 & K2 & K3 & _).
      rewrite K1, K3. destruct t; cbn in *. split; [discriminate|auto].
    + injection H as <- <-. destruct t; cbn in *. split; [discriminate|auto].
  - destruct (AppMode_eqb (mode t) DRAWING) eqn:Hd.
    + assert (mode t = DRAWING) as Hd' by (destruct (mode t); easy).
      destruct (H1 Hd') as [Hc _].
      destruct (PINCH_END_THRESHOLD <? r).
      * destruct (_ <? 0)%Z; injection H as <- <-; unfold endStroke;
          destruct t as [? cur ? ? ? ? ? ? ? ? ? ? ? ? ? ? ? ?]; cbn in *;
          subst; try destruct cur; cbn; try congruence;
          (split; [discriminate || auto|auto]).
      * injection H as <- <-. unfold addPointToStroke.
        destruct t as [? cur ? ? ? ? ? ? ? ? ? ? ? ? ? ? ? ?]; cbn in *; subst.
        destruct (List.length cur =? 0)%nat; [|destruct (4 <? _)]; cbn;
          (split; [|congruence]); intros _; (split; [|reflexivity]);
          try assumption.
        destruct cur; discriminate.
    + assert (mode t <> DRAWING) as Hd' by (destruct (mode t); easy).
      destruct (r <? PINCH_START_THRESHOLD).
      * destruct (PINCH_DEBOUNCE_FRAMES <? _)%Z; injection H as <- <-;
          destruct t; cbn in *; subst.
        -- split; [intros _; split; [discriminate|reflexivity]|congruence].
        -- split; [congruence|auto].
      * injection H as <- <-. destruct t; cbn in *.
        split; [discriminate|auto].
Qed.

(** Every successful update took one of three ways. *)
Lemma update_cases (f : Frame) (s s' : State) effects :
  update sin f s = Some (s', effects) ->
  (lastLandmarks s = None
   /\ s' = set_smoothedPos None (dropToIdle (physics sin (height f) s)))
  \/ (exists l hs r rp,
        lastLandmarks s = Some l
        /\ getHandSize l = Some hs
        /\ getPinchRatio l hs = Some r
        /\ rawPointOf (isMenuOpen s) l = Some rp
        /\ ((isInSafeZone (mirror rp) = false
             /\ s' = dropToIdle (set_handSize hs (physics sin (height f) s)))
            \/ isInSafeZone (mirror rp) = true)).
Proof.
  intros H. destruct (lastLandmarks s) as [l|] eqn:Hl.
  - right. pose proof H as H0. unfold update in H.
    destruct (physics_shape (height f) s) as [ps Hps]. rewrite Hps in H.
    replace (lastLandmarks (set_particles ps s)) with (Some l) in H
      by now destruct s.
    destruct (getHandSize l) as [hs|] eqn:Hs; [|discriminate]. cbn [bind] in H.
    replace (handSize (set_handSize hs (set_particles ps s))) with hs in H
      by now destruct s.
    destruct (getPinchRatio l hs) as [r|] eqn:Hr; [|discriminate].
    cbn [bind] in H.
    replace (isMenuOpen (set_handSize hs (set_particles ps s)))
      with (isMenuOpen s) in H by now destruct s.
    destruct (rawPointOf (isMenuOpen s) l) as [rp|] eqn:Hp; [|discriminate].
    exists l, hs, r, rp. repeat split; try assumption.
    destruct (isInSafeZone (mirror rp)) eqn:Hz; [now right|left].
    split; [reflexivity|].
    rewrite (update_out_of_zone f s l hs r rp Hl Hs Hr Hp Hz) in H0.
    congruence.
  - left. split; [reflexivity|]. rewrite (update_lost f s Hl) in H. congruence.
Qed.

Lemma physics_sameStrokes (h : float) (s : State) :
  sameStrokes s (physics sin h s)
  /\ smoothedPos (physics sin h s) = smoothedPos s
  /\ cursorPos (physics sin h s) = cursorPos s.
Proof.
  destruct (physics_shape h s) as [ps ->]. destruct s; repeat split.
Qed.

(** What one update does to the strokes and the paths. *)
Lemma update_step (f : Frame) (s s' : State) effects :
  update sin f s = Some (s', effects) ->
  pathsStep s s'
  /\ (consistent s -> consistent s')
  /\ (forall q, In q (currentPath s') -> In q (currentPath s) \/ q = cursorPos s').
Proof.
  intros H.
  destruct (update_cases f s s' effects H)
    as [[Hl ->] | (l & hs & r & rp & Hl & Hs & Hr & Hp & [[Hz ->] | Hz])].
  - destruct (physics_sameStrokes (height f) s) as ((Hd & Hm & Hc & Hps & Hf) & _).
    destruct (dropToIdle_step (physics sin (height f) s)) as (D1 & D2 & _ & _ & D5).
    assert (currentPath (dropToIdle (physics sin (height f) s)) = []
            \/ currentPath (dropToIdle (physics sin (height f) s)) = currentPath s)
      as Hcur.
    { unfold dropToIdle, endStroke.
      destruct (AppMode_eqb _ _); [destruct (0 <? _)%nat|];
        destruct (physics sin (height f) s); cbn in *; auto. }
    unfold pathsStep, consistent in *. rewrite Hps, Hf in D2.
    destruct (dropToIdle (physics sin (height f) s)); cbn in *.
    split; [exact D2|]. split.
    + intros Hcons. subst. split; [discriminate|]. intros _. apply D5.
      now rewrite Hd, Hm, Hc.
    + intros q Hq. destruct Hcur as [E | E]; rewrite E in Hq; [easy|auto].
  - set (u := set_handSize hs (physics sin (height f) s)).
    assert (sameStrokes s u) as (Hd' & Hm' & Hc' & Hps' & Hf')
      by (unfold u; destruct (physics_shape (height f) s) as [ps ->];
          destruct s; repeat split).
    destruct (dropToIdle_step u) as (D1 & D2 & _ & _ & D5).
    assert (currentPath (dropToIdle u) = []
            \/ currentPath (dropToIdle u) = currentPath s) as Hcur.
    { unfold dropToIdle, endStroke.
      destruct (AppMode_eqb _ _); [destruct (0 <? _)%nat|];
        destruct u; cbn in *; auto. }
    unfold pathsStep, consistent in *. rewrite Hps', Hf' in D2.
    rewrite Hd', Hm', Hc' in D5.
    destruct (dropToIdle u); cbn in *.
    split; [exact D2|]. split.
    + intros Hcons. subst. split; [discriminate|]. intros _. now apply D5.
    + intros q Hq. destruct Hcur as [E | E]; rewrite E in Hq; [easy|auto].
  - rewrite (update_in_zone f s l hs r rp Hl Hs Hr Hp Hz) in H. cbv zeta in H.
    pose proof (tracked_sameStrokes f hs rp s) as (Hd & Hm & Hc & Hps & Hf).
    set (t := tracked sin f hs rp s) in *.
    assert (consistent s -> consistent t) as Hcons
      by (apply sameStrokes_consistent; repeat split; assumption).
    destruct (AppMode_eqb (mode t) DRAWING) eqn:Hmode; cbn [negb] in H.
    + destruct (modeLogic_frame _ _ _ _ _ _ H) as (_ & _ & M3 & _ & M5).
      rewrite Hps, Hf in M3. rewrite Hc in M5.
      split; [unfold pathsStep; tauto|]. split; [|exact M5].
      intros K. exact (modeLogic_consistent _ _ _ _ _ _ H (Hcons K)).
    + assert (mode t <> DRAWING) as Hnd by (destruct (mode t); easy).
      destruct (menuGesture (now f) l t) as [[t1 e1]|] eqn:Hg; [|discriminate].
      destruct (menuGesture_step _ _ _ _ _ Hg Hnd) as (G1 & G2 & G3 & G4 & G5).
      cbn [bind] in H.
      destruct (detectVictory l) as [v|]; [|discriminate]. cbn [bind] in H.
      assert (consistent s -> consistent t1) as Hcons1.
      { intros K. destruct (Hcons K) as [_ K2]. split; [congruence|].
        intros _. destruct G2 as [-> | ->]; auto. }
      assert (paths t1 = paths s \/ paths t1 = (paths s ++ [finalized s])%list)
        as G3' by (rewrite <- Hps, <- Hf; exact G3).
      assert (currentPath t1 = currentPath s \/ currentPath t1 = [])
        as G2' by (rewrite <- Hc; exact G2).
      destruct (v && negb (isMenuOpen t1)).
      * injection H as <- <-. unfold triggerDissolve.
        destruct (List.length (paths t1) =? 0)%nat.
        -- split; [unfold pathsStep; tauto|]. split; [exact Hcons1|].
           intros q Hq. destruct G2' as [E | E]; rewrite E in Hq; [auto|easy].
        -- split; [right; right; now destruct t1|]. split.
           ++ intros _. split; destruct t1; cbn in *; congruence.
           ++ destruct t1; cbn. easy.
      * destruct (modeLogic (document f) l r t1) as [[t2 e2]|] eqn:Hml;
          [|discriminate].
        injection H as <- <-.
        destruct (modeLogic_frame _ _ _ _ _ _ Hml) as (_ & _ & _ & M4 & M5).
        split; [unfold pathsStep; rewrite (M4 G1); tauto|]. split.
        -- intros K. exact (modeLogic_consistent _ _ _ _ _ _ Hml (Hcons1 K)).
        -- intros q Hq. destruct (M5 q Hq) as [Hin | ->]; [|auto].
           destruct G2' as [E | E]; rewrite E in Hin; [auto|easy].
Qed.

Lemma initialState_consistent : consistent initialState.
Proof. split; [discriminate|reflexivity]. Qed.

Lemma reachable_consistent (s : State) :
  reachable sin s -> consistent s.
Proof.
  induction 1 as [|results s _ IH|s _ IH|f s s' effects _ IH Hu].
  - exact initialState_consistent.
  - apply (sameStrokes_consistent s); [|exact IH].
    unfold onResults. destruct results; destruct s; repeat split.
  - apply (sameStrokes_consistent s); [|exact IH]. destruct s; repeat split.
  - exact (proj1 (proj2 (update_step f s s' effects Hu)) IH).
Qed.

Lemma victory_not_palm (l : list HandLandmark.t) :
  detectVictory l = Some true -> detectOpenPalm l = Some false.
Proof.
  unfold detectVictory, detectOpenPalm.
  destruct (isFingerExtended l 8 6) as [[]|]; cbn; try discriminate;
    destruct (isFingerExtended l 12 10) as [[]|]; cbn; try discriminate;
    destruct (isFingerExtended l 16 14) as [[]|]; cbn; try discriminate;
    destruct (isFingerExtended l 20 18) as [[]|]; cbn; try discriminate.
  reflexivity.
Qed.

(** What losing the hand does to the strokes of a consistent state. *)
Lemma dropToIdle_strokes (s u : State) :
  sameStrokes s u ->
  consistent s ->
  (paths (dropToIdle u) = paths s
   /\ currentPath (dropToIdle u) = currentPath s)
  \/ (mode s = DRAWING
      /\ mode (dropToIdle u) <> DRAWING
      /\ paths (dropToIdle u) = (paths s ++ [finalized s])%list
      /\ currentPath (dropToIdle u) = []).
Proof.
  intros (Hd & Hm & Hc & Hp & Hf) [H1 H2]. unfold dropToIdle.
  destruct (AppMode_eqb (mode u) DRAWING) eqn:E.
  - assert (mode s = DRAWING) as Hs by (rewrite <- Hd; destruct (mode u); easy).
    destruct (H1 Hs) as [Hne _]. right.
    rewrite endStroke_nonempty by congruence.
    rewrite <- Hp, <- Hf. destruct u; cbn. repeat split; auto. discriminate.
  - assert (mode s <> DRAWING) as Hs
      by (rewrite <- Hd; destruct (mode u); easy).
    left. rewrite <- Hp, <- Hc. now destruct u.
Qed.

(** Outside DRAWING a consistent state has no stroke for the menu toggle
    to end. *)
Lemma menuGesture_strokes (time : Z) l (t t' : State) effects :
  menuGesture time l t = Some (t', effects) ->
  mode t <> DRAWING ->
  currentPath t = [] ->
  mode t' <> DRAWING
  /\ currentPath t' = []
  /\ paths t' = paths t
  /\ (detectOpenPalm l = Some false ->
        mode t' = mode t /\ isMenuOpen t' = isMenuOpen t).
Proof.
  unfold menuGesture. intros H Hd Hc.
  destruct (1000 <? time - lastGestureTime t)%Z;
    [|injection H as <- <-; auto].
  destruct (detectOpenPalm l) as [[]|]; cbn [bind] in H; try discriminate.
  - destruct (5 <? _)%Z.
    + unfold toggleMenu in H. cbv beta iota zeta in H.
      destruct t as [? cur ? ? ? ? ? ? ? ? ? ? [] ? ? ? ? ?]; cbn in *; subst;
        cbn in H; injection H as <- <-; cbn;
        repeat split; try discriminate.
    + injection H as <- <-. destruct t; cbn in *.
      repeat split; auto; discriminate.
  - injection H as <- <-. destruct t; cbn in *. auto.
Qed.

(** What the mode logic does to the strokes of a consistent state. *)
Lemma modeLogic_strokes (doc : Document) l (r : float) (t t' : State) effects :
  modeLogic doc l r t = Some (t', effects) ->
  consistent t ->
  (paths t' = paths t
   /\ (currentPath t' = currentPath t
       \/ currentPath t' = (currentPath t ++ [cursorPos t'])%list))
  \/ (mode t = DRAWING
      /\ mode t' <> DRAWING
      /\ paths t' = (paths t ++ [finalized t])%list
      /\ currentPath t' = []).
Proof.
  unfold modeLogic, consistent. intros H [H1 H2].
  destruct (isMenuOpen t) eqn:Hm.
  - left.
    destruct (isFingerExtended l 8 6) as [[]|]; cbn [bind] in H;
      try discriminate.
    + pose proof (handleUIInteraction_fields doc (set_mode MENU t)) as K.
      destruct (handleUIInteraction doc (set_mode MENU t)) as [u e].
      injection H as <- <-. cbn in K. destruct K as (_ & _ & K3 & K4 & _).
      rewrite K3, K4. now destruct t; auto.
    + injection H as <- <-. destruct t; cbn. auto.
  - destruct (AppMode_eqb (mode t) DRAWING) eqn:Hd.
    + assert (mode t = DRAWING) as Hd' by (destruct (mode t); easy).
      destruct (H1 Hd') as [Hc _].
      destruct (PINCH_END_THRESHOLD <? r).
      * destruct (_ <? 0)%Z; injection H as <- <-.
        -- right. rewrite endStroke_nonempty by (now destruct t).
           unfold finalized. destruct t; cbn in *.
           repeat split; auto; discriminate.
        -- left. destruct t; cbn; auto.
      * left. injection H as <- <-. unfold addPointToStroke.
        destruct t as [? cur ? ? ? ? ? ? ? ? ? ? ? ? ? ? ? ?]; cbn in *.
        destruct (List.length cur =? 0)%nat; [|destruct (4 <? _)]; cbn; auto.
    + assert (mode t <> DRAWING) as Hd' by (destruct (mode t); easy).
      left. specialize (H2 Hd').
      destruct (r <? PINCH_START_THRESHOLD).
      * destruct (PINCH_DEBOUNCE_FRAMES <? _)%Z; injection H as <- <-;
          destruct t; cbn in *; subst; auto.
      * injection H as <- <-. destruct t; cbn; auto.
Qed.

(** What one update does to the strokes of a consistent state: it leaves
    the path collection alone and at most offers the cursor to the active
    stroke, or it ends the stroke of a DRAWING state, or it clears on the
    victory sign. *)
Lemma update_strokes (f : Frame) (s s' : State) effects :
  consistent s ->
  update sin f s = Some (s', effects) ->
  (paths s' = paths s
   /\ (currentPath s' = currentPath s
       \/ currentPath s' = (currentPath s ++ [cursorPos s'])%list))
  \/ (mode s = DRAWING
      /\ mode s' <> DRAWING
      /\ paths s' = (paths s ++ [finalized s])%list
      /\ currentPath s' = [])
  \/ (clearGesture s
      /\ paths s <> []
      /\ paths s' = []
      /\ currentPath s' = []).
Proof.
  intros Hcons H.
  destruct (update_cases f s s' effects H)
    as [[Hl ->] | (l & hs & r & rp & Hl & Hs & Hr & Hp & [[Hz ->] | Hz])].
  - destruct (physics_sameStrokes (height f) s) as (Hsame & _).
    destruct (dropToIdle_strokes s _ Hsame Hcons) as [[K1 K2] | K].
    + left. destruct (dropToIdle (physics sin (height f) s)); cbn in *. auto.
    + right; left.
      destruct (dropToIdle (physics sin (height f) s)); cbn in *. exact K.
  - assert (sameStrokes s (set_handSize hs (physics sin (height f) s))) as Hsame
      by (destruct (physics_shape (height f) s) as [ps ->];
          destruct s; repeat split).
    destruct (dropToIdle_strokes s _ Hsame Hcons) as [[K1 K2] | K]; auto.
  - rewrite (update_in_zone f s l hs r rp Hl Hs Hr Hp Hz) in H. cbv zeta in H.
    pose proof (tracked_sameStrokes f hs rp s) as Hsame.
    pose proof (sameStrokes_consistent s _ Hsame Hcons) as Hcons'.
    destruct Hsame as (Hd & Hm & Hc & Hps & Hf).
    set (t := tracked sin f hs rp s) in *.
    destruct (AppMode_eqb (mode t) DRAWING) eqn:Hmode; cbn [negb] in H.
    + destruct (modeLogic_strokes _ _ _ _ _ _ H Hcons') as [K | K];
        rewrite ?Hd, ?Hc, ?Hps, ?Hf in K; auto.
    + assert (mode t <> DRAWING) as Hnd by (destruct (mode t); easy).
      assert (currentPath t = []) as Hnone by (apply Hcons'; exact Hnd).
      destruct (menuGesture (now f) l t) as [[t1 e1]|] eqn:Hg; [|discriminate].
      destruct (menuGesture_strokes _ _ _ _ _ Hg Hnd Hnone)
        as (G1 & G2 & G3 & G4).
      cbn [bind] in H.
      destruct (detectVictory l) as [v|] eqn:Hv; [|discriminate].
      cbn [bind] in H.
      destruct (v && negb (isMenuOpen t1)) eqn:Hclear.
      * injection H as <- <-. unfold triggerDissolve.
        destruct (List.length (paths t1) =? 0)%nat eqn:Hlen.
        -- left. split; [congruence|left; congruence].
        -- right; right.
           apply andb_true_iff in Hclear. destruct Hclear as [-> Hopen].
           destruct (G4 (victory_not_palm l Hv)) as [G5 G6].
           split; [|split; [|now destruct t1]].
           ++ split; [congruence|]. split; [|eauto].
              rewrite <- Hm, <- G6. now destruct (isMenuOpen t1).
           ++ rewrite <- Hps, <- G3. now destruct (paths t1).
      * destruct (modeLogic (document f) l r t1) as [[t2 e2]|] eqn:Hml;
          [|discriminate].
        injection H as <- <-.
        assert (consistent t1) as Hcons1 by (split; [congruence|auto]).
        destruct (modeLogic_strokes _ _ _ _ _ _ Hml Hcons1)
          as [[K1 K2] | (K & _)]; [|congruence].
        left. rewrite K1, G3, Hps. split; [reflexivity|].
        rewrite G2, <- Hc, Hnone in *. exact K2.
Qed.

(** C7. In every state reachable from the initial one the in-progress
    stroke is the one non-empty stroke of DRAWING mode and there is none
    in any other mode. And one update of such a state does one of three
    things to the strokes: it leaves the path collection as it is, the
    active stroke staying as it is or gaining the cursor at its end; or,
    from DRAWING, it pushes the stroke just ended at the end of the
    collection and leaves DRAWING with no active stroke; or it empties a
    non-empty collection, which happens only outside DRAWING with the
    menu closed on a hand showing the victory sign. A finalized path is
    thus never rewritten, and removed only by that clear. *)
Theorem strokes_invariant (s : State) :
  reachable sin s ->
  (mode s = DRAWING -> activeStrokes s = [currentPath s] /\ currentPath s <> [])
  /\ (mode s <> DRAWING -> activeStrokes s = [])
  /\ (forall f s' effects,
        update sin f s = Some (s', effects) ->
        (paths s' = paths s
         /\ (currentPath s' = currentPath s
             \/ currentPath s' = (currentPath s ++ [cursorPos s'])%list))
        \/ (mode s = DRAWING
            /\ mode s' <> DRAWING
            /\ paths s' = (paths s ++ [finalized s])%list
            /\ currentPath s' = [])
        \/ (clearGesture s
            /\ paths s <> []
            /\ paths s' = []
            /\ currentPath s' = [])).
Proof.
  intros Hr. pose proof (reachable_consistent s Hr) as Hcons.
  split; [|split].
  - intros Hd. destruct (proj1 Hcons Hd) as [Hne _]. split; [|exact Hne].
    unfold activeStrokes. destruct (currentPath s); [congruence|reflexivity].
  - intros Hd. unfold activeStrokes. now rewrite (proj2 Hcons Hd).
  - intros f s' effects Hu. exact (update_strokes f s s' effects Hcons Hu).
Qed.

(** ** A well-formed frame is always processed *)






(** ** The cursor source is mirrored *)

Lemma update_cursor (f : Frame) (s s' : State) effects l hs r rp :
  lastLandmarks s = Some l ->
  getHandSize l = Some hs ->
  getPinchRatio l hs = Some r ->
  rawPointOf (isMenuOpen s) l = Some rp ->
  isInSafeZone (mirror rp) = true ->
  update sin f s = Some (s', effects) ->
  smoothedPos s'
    = smoothedPos (smoothing (Point.x (mirror rp) * width f)
                             (Point.y (mirror rp) * height f) s)
  /\ smoothedPos s' = Some (cursorPos s').
Proof.
  intros Hl Hs Hr Hp Hz H.
  rewrite (update_in_zone f s l hs r rp Hl Hs Hr Hp Hz) in H. cbv zeta in H.
  destruct (tracked_shape f hs rp s) as (ps & sp & Hsp & Ht).
  set (t := tracked sin f hs rp s) in *.
  assert (smoothedPos t = Some sp /\ cursorPos t = sp) as [T1 T2]
    by (rewrite Ht; now destruct s).
  rewrite Hsp.
  enough (smoothedPos s' = smoothedPos t /\ cursorPos s' = cursorPos t)
    as [E1 E2] by (rewrite E1, E2, T1, T2; auto).
  destruct (AppMode_eqb (mode t) DRAWING) eqn:Hmode; cbn [negb] in H.
  - destruct (modeLogic_frame _ _ _ _ _ _ H) as (M1 & M2 & _). auto.
  - assert (mode t <> DRAWING) as Hnd by (destruct (mode t); easy).
    destruct (menuGesture (now f) l t) as [[t1 e1]|] eqn:Hg; [|discriminate].
    destruct (menuGesture_step _ _ _ _ _ Hg Hnd) as (_ & _ & _ & G4 & G5).
    cbn [bind] in H.
    destruct (detectVictory l) as [v|]; [|discriminate]. cbn [bind] in H.
    destruct (v && negb (isMenuOpen t1)).
    + injection H as <- <-. unfold triggerDissolve.
      destruct (_ =? 0)%nat; [auto|]. destruct t1; cbn in *; auto.
    + destruct (modeLogic (document f) l r t1) as [[t2 e2]|] eqn:Hml;
        [|discriminate].
      injection H as <- <-.
      destruct (modeLogic_frame _ _ _ _ _ _ Hml) as (M1 & M2 & _).
      split; congruence.
Qed.

(** ** Draw entry: the fourth frame *)

Lemma smoothing_lastLandmarks (x y : float) lm (s : State) :
  smoothedPos (smoothing x y (set_lastLandmarks lm s))
  = smoothedPos (smoothing x y s).
Proof.
  unfold smoothing. destruct s as [? ? ? ? ? ? ? ? ? ? [sp|] ? ? ? ? ? ? ?];
    reflexivity.
Qed.

(** With the menu closed, a tick on a frame in the zone leaves the
    output of the position filter, fed the mirrored pinch midpoint in
    pixels, both in the filter state and in the cursor. *)
Lemma tick_cursor (f : Frame) (s s' : State) effects (r : float) :
  isMenuOpen s = false ->
  inZoneFrame f r ->
  tick sin f s = Some (s', effects) ->
  exists l others rp,
    multiHandLandmarks f = l :: others
    /\ rawPointOf false l = Some rp
    /\ smoothedPos s'
       = smoothedPos (smoothing (Point.x (mirror rp) * width f)
                                (Point.y (mirror rp) * height f) s)
    /\ smoothedPos s' = Some (cursorPos s').
Proof.
  intros Hm (l & others & rp & Hf & Hr & Hp & Hz) Ht.
  unfold pinchRatioOf in Hr.
  destruct (getHandSize l) as [hs|] eqn:Hs; [|discriminate]. cbn in Hr.
  rewrite (tick_unfold f s l others Hf) in Ht.
  destruct (update_cursor f (set_lastLandmarks (Some l) s) s' effects l hs r rp)
    as [C1 C2]; try assumption.
  - now destruct s.
  - destruct s; cbn in *. now rewrite Hm.
  - exists l, others, rp. rewrite smoothing_lastLandmarks in C1. auto.
Qed.

(** C3 (as amended). From IDLE or HOVER with the menu closed and a zero
    pinch counter, feed consecutive qualifying frames: in zone, showing
    neither the open palm nor the victory sign, pinch ratio below 0.09.
    After one, two or three of them the mode is unchanged, the counter
    equals their number and no stroke is opened, and a single frame with
    ratio at least 0.09 then resets the counter to 0. After the fourth the
    mode is DRAWING with a stroke of one point; that point is the cursor,
    which is the output of the position filter for the fourth frame: the
    filter state left by the first three frames, fed the mirrored pinch
    midpoint of the fourth in pixels. Any further such frames keep the
    mode DRAWING and only extend that same stroke: none is finalized and
    none is opened again. *)
Theorem pinch_confirmed_on_fourth_frame (fs : list Frame) (s : State) :
  mode s = IDLE \/ mode s = HOVER ->
  isMenuOpen s = false ->
  consecutivePinchFrames s = 0%Z ->
  Forall pinchedFrame fs ->
  exists s',
    run sin fs s = Some (s', [])
    /\ paths s' = paths s
    /\ (List.length fs <= 3 ->
          mode s' = mode s
          /\ consecutivePinchFrames s' = Z.of_nat (List.length fs)
          /\ currentPath s' = currentPath s
          /\ forall g, releasedFrame g ->
               exists s'',
                 tick sin g s' = Some (s'', [])
                 /\ consecutivePinchFrames s'' = 0%Z
                 /\ mode s'' = HOVER
                 /\ currentPath s'' = currentPath s)
    /\ (List.length fs = 4%nat ->
          mode s' = DRAWING
          /\ currentPath s' = [cursorPos s']
          /\ smoothedPos s' = Some (cursorPos s')
          /\ exists s3 f4 l others rp,
               fs = (firstn 3 fs ++ [f4])%list
               /\ run sin (firstn 3 fs) s = Some (s3, [])
               /\ multiHandLandmarks f4 = l :: others
               /\ rawPointOf false l = Some rp
               /\ smoothedPos s'
                  = smoothedPos
                      (smoothing (Point.x (mirror rp) * width f4)
                                 (Point.y (mirror rp) * height f4) s3))
    /\ (4 <= List.length fs ->
          mode s' = DRAWING
          /\ exists s4 ext,
               run sin (firstn 4 fs) s = Some (s4, [])
               /\ currentPath s' = cursorPos s4 :: ext).
Proof.
  intros Hmode Hm Hc Hall.
  assert (mode s <> DRAWING) as Hd by (destruct Hmode; congruence).
  destruct (Nat.le_gt_cases (List.length fs) 3) as [Hle | Hgt].
  - destruct (run_counting fs s Hd Hm Hall)
      as (s' & Hrun & Hd' & Hm' & Hc' & Hcur' & Hp');
      [rewrite Hc; unfold PINCH_DEBOUNCE_FRAMES; lia|].
    exists s'. split; [exact Hrun|]. split; [exact Hp'|].
    split; [|split; intros; lia].
    intros _. split; [exact Hd'|]. split; [now rewrite Hc', Hc|].
    split; [exact Hcur'|]. intros g Hg.
    destruct (released_tick g s') as (s'' & Ht & ? & ? & ? & ?);
      [congruence|assumption|assumption|].
    exists s''. repeat split; congruence.
  - destruct (Forall_split_at pinchedFrame 4 fs Hall) as [Hfirst Hrest].
    assert (List.length (firstn 4 fs) = 4%nat) as Hlen
      by (rewrite length_firstn; lia).
    destruct (run_confirming (firstn 4 fs) s Hd Hm Hc Hfirst Hlen)
      as (s4 & Hrun4 & Hd4 & Hm4 & Hcur4 & Hp4).
    assert (Forall (fun f => exists r, inZoneFrame f r
                                       /\ (PINCH_END_THRESHOLD <? r) = false)
                   (skipn 4 fs)) as Hrest'.
    { apply Forall_forall. intros f Hin. apply pinchedFrame_not_above_end.
      rewrite Forall_forall in Hrest. now apply Hrest. }
    destruct (run_held (skipn 4 fs) s4 Hd4 Hm4 Hrest')
      as (s' & ext & Hrun & Hd' & _ & _ & Hp' & Hcur').
    exists s'. rewrite <- (firstn_skipn 4 fs) at 1.
    rewrite run_app, Hrun4. cbn [bind]. rewrite Hrun. cbn [bind ret app].
    split; [reflexivity|]. split; [congruence|].
    split; [intros; lia|]. split.
    + intros H4.
      rewrite skipn_all2 in Hrun by lia. cbn in Hrun. injection Hrun as <-.
      split; [exact Hd4|]. split; [exact Hcur4|].
      destruct fs as [|f1 [|f2 [|f3 [|f4 [|]]]]]; try discriminate.
      cbn [firstn] in *.
      inversion Hall as [|? ? P1 Hall1]; subst.
      inversion Hall1 as [|? ? P2 Hall2]; subst.
      inversion Hall2 as [|? ? P3 Hall3]; subst.
      inversion Hall3 as [|? ? (r4 & Hz4 & _) _]; subst.
      destruct (run_counting [f1; f2; f3] s Hd Hm)
        as (s3 & Hrun3 & _ & Hm3 & _);
        [repeat constructor; assumption
        |rewrite Hc; cbn; unfold PINCH_DEBOUNCE_FRAMES; lia|].
      change [f1; f2; f3; f4] with ([f1; f2; f3] ++ [f4])%list in Hrun4.
      rewrite run_app, Hrun3 in Hrun4. cbn [bind run] in Hrun4.
      destruct (tick sin f4 s3) as [[u e]|] eqn:Ht; [|discriminate].
      cbn in Hrun4. injection Hrun4 as -> _.
      destruct (tick_cursor f4 s3 s4 e r4 Hm3 Hz4 Ht)
        as (l & others & rp & Hf & Hp & C1 & C2).
      split; [exact C2|].
      exists s3, f4, l, others, rp. auto 10.
    + intros _. split; [exact Hd'|].
      exists s4, ext. split; [reflexivity|]. now rewrite Hcur', Hcur4.
Qed.


Lemma tick_reachable (f : Frame) (s s' : State) effects :
  reachable sin s -> tick sin f s = Some (s', effects) -> reachable sin s'.
Proof.
  intros Hr Ht. eapply reach_update; [|exact Ht]. now apply reach_results.
Qed.

Lemma run_reachable (fs : list Frame) :
  forall s s' effects,
    reachable sin s -> run sin fs s = Some (s', effects) -> reachable sin s'.
Proof.
  induction fs as [|f fs IH]; intros s s' effects Hr H; cbn in H.
  - now injection H as <- _.
  - destruct (tick sin f s) as [[s1 e1]|] eqn:Ht; [|discriminate]. cbn in H.
    destruct (run sin fs s1) as [[s2 e2]|] eqn:Hrun; [|discriminate].
    injection H as <- _.
    exact (IH s1 s2 e2 (tick_reachable f s s1 e1 Hr Ht) Hrun).
Qed.

End UpdateProperties.

(** ** Menu dwell selector *)

Section DwellProperties.
Local Open Scope float_scope.
Variable doc : Document.

Lemma sameId_refl (id : string) : sameId (Some id) id = true.
Proof. apply String.eqb_refl. Qed.

Lemma hitTest_element (x y : float) (id : string) :
  hitTest doc x y = Some id -> exists r, doc id = Some r.
Proof.
  unfold hitTest. intros H. apply find_some in H. destruct H as [_ H].
  destruct (doc id); [eauto|discriminate].
Qed.

Lemma hover_enter (s : State) (id : string) :
  hitTest doc (Point.x (cursorPos s)) (Point.y (cursorPos s)) = Some id ->
  sameId (hoveredId s) id = false ->
  handleUIInteraction doc s
    = (set_selectionProgress 0 (set_hoveredId (Some id) s), []).
Proof.
  intros Hh Hs. unfold handleUIInteraction. now rewrite Hh, Hs.
Qed.

Lemma hover_miss (s : State) :
  hitTest doc (Point.x (cursorPos s)) (Point.y (cursorPos s)) = None ->
  handleUIInteraction doc s
    = (set_selectionProgress 0 (set_hoveredId None s), []).
Proof.
  intros Hh. unfold handleUIInteraction. now rewrite Hh.
Qed.

Lemma hover_accumulate (s : State) (id : string) :
  hitTest doc (Point.x (cursorPos s)) (Point.y (cursorPos s)) = Some id ->
  hoveredId s = Some id ->
  (DWELL_TIME_MS <=? selectionProgress s + FRAME_INTERVAL) = false ->
  handleUIInteraction doc s
    = (set_selectionProgress (selectionProgress s + FRAME_INTERVAL) s, []).
Proof.
  intros Hh Hs Hd. unfold handleUIInteraction.
  rewrite Hh, Hs, sameId_refl. cbn [negb].
  replace (selectionProgress (set_selectionProgress _ s))
    with (selectionProgress s + FRAME_INTERVAL) by now destruct s.
  now rewrite Hd.
Qed.

Lemma hover_fire (s : State) (id : string) :
  hitTest doc (Point.x (cursorPos s)) (Point.y (cursorPos s)) = Some id ->
  hoveredId s = Some id ->
  (DWELL_TIME_MS <=? selectionProgress s + FRAME_INTERVAL) = true ->
  exists s',
    handleUIInteraction doc s
      = (s', [ScalePulse id; SetToolbarProps (tool s') (color s') (size s')])
    /\ selectionProgress s' = 0
    /\ hoveredId s' = None.
Proof.
  intros Hh Hs Hd. unfold handleUIInteraction.
  rewrite Hh, Hs, sameId_refl. cbn [negb].
  replace (selectionProgress (set_selectionProgress _ s))
    with (selectionProgress s + FRAME_INTERVAL) by now destruct s.
  rewrite Hd. unfold triggerClick.
  destruct (hitTest_element _ _ _ Hh) as [rect ->].
  destruct (String.eqb id "btn-pen"), (String.eqb id "btn-eraser"),
    (String.prefix "btn-color-" id), (String.prefix "btn-size-" id);
    destruct s; cbn;
    match goal with |- exists s', (?u, _) = _ /\ _ => exists u end;
    repeat split.
Qed.

(** Seventeen accumulating frames stay short of the dwell time; the
    eighteenth reaches it, exactly. *)
Lemma dwell_schedule :
  forallb (fun k => negb (DWELL_TIME_MS <=? dwellAfter k + FRAME_INTERVAL))
          (seq 0 17) = true
  /\ (DWELL_TIME_MS <=? dwellAfter 17 + FRAME_INTERVAL) = true
  /\ dwellAfter 18 = DWELL_TIME_MS.
Proof. repeat split; vm_compute; reflexivity. Qed.

Lemma dwell_short (k : nat) :
  k < 17 -> (DWELL_TIME_MS <=? dwellAfter k + FRAME_INTERVAL) = false.
Proof.
  intros Hk. destruct dwell_schedule as [H _].
  rewrite forallb_forall in H. apply negb_true_iff, H, in_seq. lia.
Qed.

Lemma hoverRun_accumulates (id : string) (ps : list Point.t) :
  forall (k : nat) (s : State),
    hoveredId s = Some id ->
    selectionProgress s = dwellAfter k ->
    Forall (fun q => hitTest doc (Point.x q) (Point.y q) = Some id) ps ->
    k + List.length ps <= 17 ->
    exists s',
      hoverRun doc ps s = (s', [])
      /\ hoveredId s' = Some id
      /\ selectionProgress s' = dwellAfter (k + List.length ps)
      /\ tool s' = tool s /\ color s' = color s /\ size s' = size s.
Proof.
  induction ps as [|p ps IH]; intros k s Hh Hp Hall Hk.
  - exists s. rewrite Nat.add_0_r. auto 10.
  - inversion Hall as [|? ? Hhit Hall']; subst. cbn [List.length] in Hk.
    cbn [hoverRun]. unfold hoverAt.
    rewrite (hover_accumulate (set_cursorPos p s) id);
      [|now destruct s|now destruct s|].
    + destruct (IH (S k)
                  (set_selectionProgress
                     (selectionProgress (set_cursorPos p s) + FRAME_INTERVAL)
                     (set_cursorPos p s)))
        as (s' & -> & H1 & H2 & H3 & H4 & H5);
        [now destruct s| |assumption|lia|].
      * destruct s; cbn in *. now rewrite Hp.
      * exists s'. cbn [List.length]. rewrite Nat.add_succ_r.
        destruct s; cbn in *. auto 10.
    + replace (selectionProgress (set_cursorPos p s)) with (dwellAfter k)
        by (now destruct s).
      apply dwell_short. lia.
Qed.

(** C5. With the cursor held on one element [id], already hovered and
    with no progress yet, seventeen frames fire nothing and the
    eighteenth, at which the accumulated time reaches 600 ms exactly,
    fires one selection of [id] and resets the progress and the hovered
    id. A frame whose hit differs from the hovered id only records the
    new id with progress 0, and a frame with no hit clears both. *)
Theorem dwell_selects_once (id : string) (ps : list Point.t) (p : Point.t)
    (s : State) :
  hoveredId s = Some id ->
  selectionProgress s = 0 ->
  Forall (fun q => hitTest doc (Point.x q) (Point.y q) = Some id)
         (ps ++ [p])%list ->
  List.length ps = 17%nat ->
  (exists s17,
     hoverRun doc ps s = (s17, []) /\ hoveredId s17 = Some id)
  /\ (exists s18 effects,
        hoverRun doc (ps ++ [p])%list s = (s18, effects)
        /\ effects
           = [ScalePulse id; SetToolbarProps (tool s18) (color s18) (size s18)]
        /\ selections effects = 1%nat
        /\ selectionProgress s18 = 0
        /\ hoveredId s18 = None)
  /\ dwellAfter 18 = DWELL_TIME_MS
  /\ (forall t id',
        hitTest doc (Point.x (cursorPos t)) (Point.y (cursorPos t)) = Some id' ->
        sameId (hoveredId t) id' = false ->
        exists t',
          handleUIInteraction doc t = (t', [])
          /\ hoveredId t' = Some id' /\ selectionProgress t' = 0)
  /\ (forall t,
        hitTest doc (Point.x (cursorPos t)) (Point.y (cursorPos t)) = None ->
        exists t',
          handleUIInteraction doc t = (t', [])
          /\ hoveredId t' = None /\ selectionProgress t' = 0).
Proof.
  intros Hh Hp Hall Hlen.
  apply Forall_app in Hall. destruct Hall as [Hps Hlast].
  inversion Hlast as [|? ? Hhit _]; subst.
  destruct (hoverRun_accumulates id ps 0 s Hh Hp Hps)
    as (s17 & Hrun & H1 & H2 & _); [lia|].
  split; [eauto|]. split; [|split; [apply dwell_schedule|split]].
  - destruct (hover_fire (set_cursorPos p s17) id)
      as (s18 & Hfire & F1 & F2);
      [now destruct s17|now destruct s17| |].
    + replace (selectionProgress (set_cursorPos p s17)) with (dwellAfter 17)
        by (rewrite Hlen in H2; now destruct s17).
      apply dwell_schedule.
    + exists s18. eexists. split; [|split; [reflexivity|auto]].
      assert (forall qs u, hoverRun doc (qs ++ [p])%list u =
                (let '(u1, e1) := hoverRun doc qs u in
                 let '(u2, e2) := hoverAt doc p u1 in
                 (u2, (e1 ++ e2)%list))) as Happ.
      { induction qs as [|q qs IHq]; intros u; cbn [hoverRun app].
        - destruct (hoverAt doc p u). now rewrite app_nil_r.
        - destruct (hoverAt doc q u) as [u1 e1]. rewrite IHq.
          destruct (hoverRun doc qs u1) as [u2 e2].
          destruct (hoverAt doc p u2). now rewrite app_assoc. }
      rewrite Happ, Hrun. unfold hoverAt. now rewrite Hfire.
  - intros t id' Hhit' Hdiff. rewrite (hover_enter t id' Hhit' Hdiff).
    eexists. split; [reflexivity|]. now destruct t.
  - intros t Hmiss. rewrite (hover_miss t Hmiss).
    eexists. split; [reflexivity|]. now destruct t.
Qed.

End DwellProperties.

(** ** The properties on the sample inputs *)

Lemma inZone_sample (t4 t8 : HandLandmark.t) (r : float) :
  pinchRatioOf (handWith t4 t8) = Some r ->
  (forall rp, rawPointOf false (handWith t4 t8) = Some rp ->
              isInSafeZone (mirror rp) = true) ->
  inZoneFrame (frameOf (handWith t4 t8)) r.
Proof.
  intros Hr Hz. eexists _, _, _. split; [reflexivity|]. split; [exact Hr|].
  split; [reflexivity|]. now apply Hz.
Qed.

Lemma noGesture_sample (t4 t8 : HandLandmark.t) :
  detectOpenPalm (handWith t4 t8) = Some false ->
  detectVictory (handWith t4 t8) = Some false ->
  noGesture (frameOf (handWith t4 t8)).
Proof. intros Hp Hv. eexists _, _. split; [reflexivity|]. now split. Qed.

Lemma hand005_pinched : pinchedFrame (frameOf hand005).
Proof.
  exists 0.05%float. split; [|split].
  - apply inZone_sample; [vm_compute; reflexivity|].
    intros rp H. injection H as <-. vm_compute. reflexivity.
  - apply noGesture_sample; vm_compute; reflexivity.
  - vm_compute. reflexivity.
Qed.

Lemma hand010_held : heldFrame (frameOf hand010).
Proof.
  exists 0.1%float. split.
  - apply inZone_sample; [vm_compute; reflexivity|].
    intros rp H. injection H as <-. vm_compute. reflexivity.
  - vm_compute. reflexivity.
Qed.

Lemma hand013_held : heldFrame (frameOf hand013).
Proof.
  exists 0.13%float. split.
  - apply inZone_sample; [vm_compute; reflexivity|].
    intros rp H. injection H as <-. vm_compute. reflexivity.
  - vm_compute. reflexivity.
Qed.

Lemma hand020_inZone : inZoneFrame (frameOf hand020) 0.2%float.
Proof.
  apply inZone_sample; [vm_compute; reflexivity|].
  intros rp H. injection H as <-. vm_compute. reflexivity.
Qed.

(** C1 as stated fails. With the exit counter at 3 and a frame of pinch
    ratio exactly 0.20, the counter goes to 2 and the mode stays DRAWING,
    but the stroke is not the old one followed by the cursor: it is the
    old one, although the cursor has moved well over 2 px from its last
    point. *)
Lemma exit_frame_point_not_appended :
  pinchRatioOf hand020 = Some 0.2%float
  /\ exists s',
       tick noDrift (frameOf hand020) drawingState = Some (s', [])
       /\ consecutivePinchFrames s' = 2%Z
       /\ mode s' = DRAWING
       /\ (4 <? distanceSq (Point.mk 320 200) (cursorPos s'))%float = true
       /\ currentPath s' = currentPath drawingState
       /\ currentPath s' <> (currentPath drawingState ++ [cursorPos s'])%list.
Proof.
  split; [vm_compute; reflexivity|].
  destruct (tick noDrift (frameOf hand020) drawingState) as [[s' e]|] eqn:E;
    vm_compute in E; [|discriminate].
  injection E as <- <-. eexists. split; [reflexivity|].
  vm_compute. repeat split; discriminate.
Qed.

(** C2, on a drawing state whose filter holds (320, 200). A frame with no
    hand and a frame whose hand is outside the safe zone both finalize the
    two-point stroke and force IDLE; the first also resets the filter to
    null, the second leaves it at (320, 200). *)
Theorem out_of_zone_keeps_filter_state :
  (exists s',
     tick noDrift lostFrame drawingState = Some (s', [])
     /\ mode s' = IDLE
     /\ currentPath s' = []
     /\ paths s' = [finalized drawingState]
     /\ smoothedPos s' = None)
  /\ (exists s',
        tick noDrift (frameOf handAtEdge) drawingState = Some (s', [])
        /\ mode s' = IDLE
        /\ currentPath s' = []
        /\ paths s' = [finalized drawingState]
        /\ smoothedPos s' = Some (Point.mk 320 200)).
Proof.
  split.
  - evaluate (tick noDrift lostFrame drawingState).
    eexists. split; [reflexivity|]. vm_compute. repeat split.
  - evaluate (tick noDrift (frameOf handAtEdge) drawingState).
    eexists. split; [reflexivity|]. vm_compute. repeat split.
Qed.

Lemma exit_frame_decrements_without_append_witness :
  exists s',
    tick noDrift (frameOf hand020) drawingState = Some (s', [])
    /\ consecutivePinchFrames s' = 2%Z
    /\ mode s' = DRAWING
    /\ currentPath s' = currentPath drawingState
    /\ paths s' = paths drawingState.
Proof.
  apply (exit_frame_decrements_without_append noDrift (frameOf hand020)
           drawingState 0.2%float);
    [reflexivity|reflexivity|reflexivity|exact hand020_inZone|
     vm_compute; reflexivity].
Defined.

Lemma hand005moved_pinched : pinchedFrame (frameOf hand005moved).
Proof.
  exists 0.05%float. split; [|split].
  - apply inZone_sample; [vm_compute; reflexivity|].
    intros rp H. injection H as <-. vm_compute. reflexivity.
  - apply noGesture_sample; vm_compute; reflexivity.
  - vm_compute. reflexivity.
Qed.

Lemma hand004_pinched (time : Z) : pinchedFrame (frameAt time hand004).
Proof.
  destruct (pinchRatioOf hand004) as [r|] eqn:E;
    [|vm_compute in E; discriminate].
  exists r. split; [|split].
  - exists hand004, [], (Point.mk 0.5 0.12000000000000001).
    repeat split; try assumption; vm_compute; reflexivity.
  - exists hand004, []. repeat split; vm_compute; reflexivity.
  - vm_compute in E. injection E as <-. vm_compute. reflexivity.
Qed.

(** C3 as stated fails when the menu is open. Six open-palm frames open
    the menu and a frame without a hand leaves the mode IDLE with a zero
    pinch counter. Four frames follow whose hand is in the zone, by the
    pinch midpoint as well as by the index tip, and shows neither global
    gesture, with pinch ratio 0.04: after the fourth the mode is MENU, not
    DRAWING, and no stroke has been opened. *)
Lemma pinch_under_open_menu_opens_no_stroke :
  exists s0 e0,
    run noDrift (sixPalmFrames ++ [lostAt 2240])%list initialState = Some (s0, e0)
    /\ mode s0 = IDLE
    /\ consecutivePinchFrames s0 = 0%Z
    /\ isMenuOpen s0 = true
    /\ Forall pinchedFrame pinchUnderMenu
    /\ Forall (fun f => exists l rp,
                         multiHandLandmarks f = [l]
                         /\ rawPointOf true l = Some rp
                         /\ isInSafeZone (mirror rp) = true) pinchUnderMenu
    /\ exists s4 e4,
         run noDrift pinchUnderMenu s0 = Some (s4, e4)
         /\ mode s4 = MENU
         /\ currentPath s4 = []
         /\ paths s4 = paths s0.
Proof.
  destruct (run noDrift (sixPalmFrames ++ [lostAt 2240])%list initialState)
    as [[s0 e0]|] eqn:E; vm_compute in E; [|discriminate].
  injection E as <- <-. eexists _, _. split; [reflexivity|].
  split; [reflexivity|]. split; [reflexivity|]. split; [reflexivity|].
  split; [repeat constructor; apply hand004_pinched|].
  split.
  - repeat constructor; exists hand004, (Point.mk 0.5 0.10000000000000001);
      repeat split; vm_compute; reflexivity.
  - match goal with
    | |- exists s4 e4, ?r = _ /\ _ =>
        destruct r as [[s4 e4]|] eqn:E4; vm_compute in E4; [|discriminate]
    end.
    injection E4 as <- <-. eexists _, _. split; [reflexivity|].
    repeat split.
Qed.

(** The fourth frame has moved: its mirrored pinch midpoint is at pixel
    (352, 36), the filter is at (320, 36), and the one point of the new
    stroke is the filter output in between. *)
Lemma pinch_confirmed_on_fourth_frame_witness :
  exists s',
    run noDrift
        [frameOf hand005; frameOf hand005; frameOf hand005; frameOf hand005moved]
        initialState = Some (s', [])
    /\ mode s' = DRAWING
    /\ currentPath s' = [cursorPos s']
    /\ smoothedPos s' = Some (cursorPos s')
    /\ cursorPos s' = Point.mk 332.15999999999997 36.000000000000007.
Proof.
  destruct (pinch_confirmed_on_fourth_frame noDrift
              [frameOf hand005; frameOf hand005; frameOf hand005;
               frameOf hand005moved]
              initialState)
    as (s' & Hrun & _ & _ & H4 & _);
    [left; reflexivity|reflexivity|reflexivity|
     repeat constructor; (exact hand005_pinched || exact hand005moved_pinched)|].
  destruct (H4 eq_refl) as (Hd & Hcur & Hsm & _).
  exists s'. split; [exact Hrun|]. split; [exact Hd|]. split; [exact Hcur|].
  split; [exact Hsm|].
  pose proof Hrun as E. vm_compute in E. now injection E as <-.
Defined.

Lemma hysteresis_band_never_exits_witness :
  exists s',
    run noDrift
        (firstn 4 [frameOf hand010; frameOf hand013; frameOf hand010; frameOf hand013])
        drawingState = Some (s', [])
    /\ mode s' = DRAWING
    /\ consecutivePinchFrames s' = PINCH_DEBOUNCE_FRAMES
    /\ paths s' = paths drawingState.
Proof.
  apply (hysteresis_band_never_exits noDrift
           [frameOf hand010; frameOf hand013; frameOf hand010; frameOf hand013]
           drawingState 4);
    [reflexivity|reflexivity|
     repeat constructor; (exact hand010_held || exact hand013_held)|
     cbn; lia].
Defined.

Lemma dwell_selects_once_witness :
  exists s18 effects,
    hoverRun eraserOnly (repeat (Point.mk 150 120) 17 ++ [Point.mk 150 120])%list
             hoveringState = (s18, effects)
    /\ effects
       = [ScalePulse "btn-eraser";
          SetToolbarProps (tool s18) (color s18) (size s18)]
    /\ selections effects = 1
    /\ selectionProgress s18 = 0%float
    /\ hoveredId s18 = None.
Proof.
  apply (dwell_selects_once eraserOnly "btn-eraser"
           (repeat (Point.mk 150 120) 17) (Point.mk 150 120) hoveringState);
    [reflexivity|reflexivity|repeat constructor|reflexivity].
Defined.

Lemma triggerDissolve_spawns_and_clears_witness :
  exists batches,
    particles (triggerDissolve (fun _ => 0.5%float) 640 480 twoPaths)
      = (particles twoPaths ++ List.concat batches)%list
    /\ Forall2 batchOf (paths twoPaths) batches
    /\ paths (triggerDissolve (fun _ => 0.5%float) 640 480 twoPaths) = []
    /\ currentPath (triggerDissolve (fun _ => 0.5%float) 640 480 twoPaths) = [].
Proof.
  apply (triggerDissolve_spawns_and_clears (fun _ => 0.5%float) 640 480 twoPaths).
  discriminate.
Defined.

Lemma addPointToStroke_filters_micro_movements_witness :
  addPoints [Point.mk 321 241; Point.mk 319 240; Point.mk 320 242]
            (startStroke (Point.mk 320 240) initialState)
    = startStroke (Point.mk 320 240) initialState.
Proof.
  apply (proj2 (proj2 (addPointToStroke_filters_micro_movements (Point.mk 0 0)
                         (startStroke (Point.mk 320 240) initialState)))
               (Point.mk 320 240));
    [reflexivity|repeat constructor].
Defined.


Lemma strokes_invariant_witness :
  exists s' effects,
    run noDrift [frameOf hand005; frameOf hand005; frameOf hand005; frameOf hand005]
        initialState = Some (s', effects)
    /\ mode s' = DRAWING
    /\ activeStrokes s' = [currentPath s']
    /\ currentPath s' <> [].
Proof.
  destruct (run noDrift
              [frameOf hand005; frameOf hand005; frameOf hand005; frameOf hand005]
              initialState) as [[s' effects]|] eqn:E;
    [|vm_compute in E; discriminate].
  assert (mode s' = DRAWING) as Hd
    by (vm_compute in E; now injection E as <- _).
  destruct (strokes_invariant noDrift s'
              (run_reachable noDrift _ _ _ _ (reach_init noDrift) E))
    as (H1 & _ & _).
  exists s', effects. split; [reflexivity|]. split; [exact Hd|]. exact (H1 Hd).
Defined.


(** * Further properties of the code *)

(** ** Gesture predicates *)

Section GestureProperties.
Local Open Scope float_scope.

Lemma detectOpenPalm_fingers (l : list HandLandmark.t) :
  detectOpenPalm l = Some true ->
  isFingerExtended l 8 6 = Some true
  /\ isFingerExtended l 12 10 = Some true
  /\ isFingerExtended l 16 14 = Some true
  /\ isFingerExtended l 20 18 = Some true.
Proof.
  unfold detectOpenPalm.
  destruct (isFingerExtended l 8 6) as [[]|]; cbn; try discriminate.
  destruct (isFingerExtended l 12 10) as [[]|]; cbn; try discriminate.
  destruct (isFingerExtended l 16 14) as [[]|]; cbn; try discriminate.
  destruct (isFingerExtended l 20 18) as [[]|]; cbn; try discriminate.
  auto.
Qed.

(** X1. No hand shows two of the three gestures at once: open palm,
    pointing and victory exclude one another pairwise. *)
Theorem gestures_exclude_one_another (l : list HandLandmark.t) :
  ~ (detectOpenPalm l = Some true /\ detectVictory l = Some true)
  /\ ~ (detectOpenPalm l = Some true /\ detectPointing l = Some true)
  /\ ~ (detectPointing l = Some true /\ detectVictory l = Some true).
Proof.
  repeat split; intros [H1 H2].
  - apply detectOpenPalm_fingers in H1. destruct H1 as (E1 & E2 & E3 & E4).
    unfold detectVictory in H2. rewrite E1, E2, E3, E4 in H2. discriminate.
  - apply detectOpenPalm_fingers in H1. destruct H1 as (E1 & E2 & E3 & E4).
    unfold detectPointing in H2. rewrite E1, E2, E3, E4 in H2. discriminate.
  - unfold detectPointing in H1. unfold detectVictory in H2.
    destruct (isFingerExtended l 8 6) as [[]|]; cbn in *; try discriminate;
      destruct (isFingerExtended l 12 10) as [[]|]; cbn in *;
      try discriminate;
      destruct (isFingerExtended l 16 14) as [[]|]; cbn in *;
      try discriminate;
      destruct (isFingerExtended l 20 18) as [[]|]; cbn in *; discriminate.
Qed.

Lemma at_index_None {A : Type} (l : list A) (i : nat) :
  at_index l i = None <-> List.length l <= i.
Proof. apply nth_error_None. Qed.

Lemma at_index_Some {A : Type} (l : list A) (i : nat) :
  i < List.length l -> exists a, at_index l i = Some a.
Proof.
  intros H. destruct (at_index l i) eqn:E; [eauto|].
  apply at_index_None in E. lia.
Qed.

Lemma isFingerExtended_throws (l : list HandLandmark.t) (tip pip : nat) :
  isFingerExtended l tip pip = None
  <-> List.length l <= Nat.max tip pip.
Proof.
  unfold isFingerExtended. split.
  - intros H.
    destruct (Nat.le_gt_cases (List.length l) (Nat.max tip pip)) as [|G];
      [assumption|exfalso].
    destruct (at_index_Some l 0%nat) as [a0 E0]; [lia|].
    destruct (at_index_Some l tip) as [at_ Et]; [lia|].
    destruct (at_index_Some l pip) as [ap Ep]; [lia|].
    rewrite E0 in H. cbn [bind] in H. rewrite Et in H. cbn [bind] in H.
    rewrite Ep in H. discriminate.
  - intros H. destruct (at_index l 0); [cbn [bind]|reflexivity].
    destruct (at_index l tip) eqn:Et; [cbn [bind]|reflexivity].
    destruct (at_index l pip) eqn:Ep; [|reflexivity].
    assert (tip < List.length l)
      by (apply nth_error_Some; unfold at_index in Et; congruence).
    assert (pip < List.length l)
      by (apply nth_error_Some; unfold at_index in Ep; congruence).
    lia.
Qed.

Lemma isFingerExtended_returns (l : list HandLandmark.t) (tip pip : nat) :
  Nat.max tip pip < List.length l ->
  exists b, isFingerExtended l tip pip = Some b.
Proof.
  intros H. destruct (isFingerExtended l tip pip) eqn:E; [eauto|].
  apply isFingerExtended_throws in E. lia.
Qed.

(** X2. The geometry helpers throw exactly on landmark arrays that are too
    short for the indices they read: hand size needs 10 landmarks, pinch
    ratio and pinch midpoint 9, the victory and pointing tests all 21;
    the open-palm test returns on every array of 21, and returns false
    without reading further as soon as a finger is not extended. *)
Theorem geometry_throws_on_short_arrays (l : list HandLandmark.t) :
  (getHandSize l = None <-> List.length l <= 9)
  /\ (forall hs, getPinchRatio l hs = None <-> List.length l <= 8)
  /\ (getPinchMidpoint l = None <-> List.length l <= 8)
  /\ (detectVictory l = None <-> List.length l <= 20)
  /\ (detectPointing l = None <-> List.length l <= 20)
  /\ (20 < List.length l -> detectOpenPalm l <> None)
  /\ (isFingerExtended l 8 6 = Some false -> detectOpenPalm l = Some false).
Proof.
  split; [|split; [|split; [|split; [|split; [|split]]]]].
  - unfold getHandSize. split.
    + intros H. destruct (Nat.le_gt_cases (List.length l) 9); [assumption|].
      destruct (at_index_Some l 0%nat) as [a0 E0]; [lia|].
      destruct (at_index_Some l 9%nat) as [a9 E9]; [lia|].
      rewrite E0, E9 in H. discriminate.
    + intros H. apply (at_index_None l 9) in H. rewrite H.
      now destruct (at_index l 0).
  - intros hs. unfold getPinchRatio. split.
    + intros H. destruct (Nat.le_gt_cases (List.length l) 8); [assumption|].
      destruct (at_index_Some l 8%nat) as [a8 E8]; [lia|].
      destruct (at_index_Some l 4%nat) as [a4 E4]; [lia|].
      rewrite E8, E4 in H. discriminate.
    + intros H. apply (at_index_None l 8) in H. now rewrite H.
  - unfold getPinchMidpoint. split.
    + intros H. destruct (Nat.le_gt_cases (List.length l) 8); [assumption|].
      destruct (at_index_Some l 8%nat) as [a8 E8]; [lia|].
      destruct (at_index_Some l 4%nat) as [a4 E4]; [lia|].
      rewrite E8 in H. cbn [bind] in H. rewrite E4 in H. discriminate.
    + intros H. apply (at_index_None l 8) in H. now rewrite H.
  - unfold detectVictory. split.
    + intros H. destruct (Nat.le_gt_cases (List.length l) 20); [assumption|].
      destruct (isFingerExtended_returns l 8 6) as [b1 E1]; [lia|].
      destruct (isFingerExtended_returns l 12 10) as [b2 E2]; [lia|].
      destruct (isFingerExtended_returns l 16 14) as [b3 E3]; [lia|].
      destruct (isFingerExtended_returns l 20 18) as [b4 E4]; [lia|].
      rewrite E1, E2, E3, E4 in H. discriminate.
    + intros H. assert (isFingerExtended l 20 18 = None) as ->
        by (apply isFingerExtended_throws; cbn; lia).
      destruct (isFingerExtended l 8 6); [cbn|reflexivity].
      destruct (isFingerExtended l 12 10); [cbn|reflexivity].
      now destruct (isFingerExtended l 16 14).
  - unfold detectPointing. split.
    + intros H. destruct (Nat.le_gt_cases (List.length l) 20); [assumption|].
      destruct (isFingerExtended_returns l 8 6) as [b1 E1]; [lia|].
      destruct (isFingerExtended_returns l 12 10) as [b2 E2]; [lia|].
      destruct (isFingerExtended_returns l 16 14) as [b3 E3]; [lia|].
      destruct (isFingerExtended_returns l 20 18) as [b4 E4]; [lia|].
      rewrite E1, E2, E3, E4 in H. discriminate.
    + intros H. assert (isFingerExtended l 20 18 = None) as ->
        by (apply isFingerExtended_throws; cbn; lia).
      destruct (isFingerExtended l 8 6); [cbn|reflexivity].
      destruct (isFingerExtended l 12 10); [cbn|reflexivity].
      now destruct (isFingerExtended l 16 14).
  - intros H. unfold detectOpenPalm.
    destruct (isFingerExtended_returns l 8 6) as [b1 ->]; [lia|].
    destruct (isFingerExtended_returns l 12 10) as [b2 ->]; [lia|].
    destruct (isFingerExtended_returns l 16 14) as [b3 ->]; [lia|].
    destruct (isFingerExtended_returns l 20 18) as [b4 ->]; [lia|].
    destruct (at_index_Some l 4%nat) as [a4 ->]; [lia|].
    destruct (at_index_Some l 17%nat) as [a17 ->]; [lia|].
    destruct (at_index_Some l 3%nat) as [a3 ->]; [lia|].
    destruct b1, b2, b3, b4; discriminate.
  - intros H. unfold detectOpenPalm. now rewrite H.
Qed.

End GestureProperties.

(** ** NaN and the borders of the safe zone *)

Section NaNProperties.
Local Open Scope float_scope.

Lemma SFcompare_refl (a : spec_float) :
  a <> S754_nan -> SFcompare a a = Some Eq.
Proof.
  destruct a as [s|s| |s m e]; cbn; intros H; try congruence.
  - now destruct s.
  - rewrite Z.compare_refl.
    change (PosDef.Pos.compare_cont Eq) with Pos.compare.
    rewrite Pos.compare_refl. now destruct s.
Qed.

Lemma is_nan_spec (a : float) : is_nan a = true -> Prim2SF a = S754_nan.
Proof.
  unfold is_nan. rewrite eqb_spec. unfold SFeqb. intros H.
  destruct (Prim2SF a) as [s|s| |s m e] eqn:E; [| |reflexivity|];
    rewrite SFcompare_refl in H by discriminate; discriminate.
Qed.

Lemma ltb_nan_l (a b : float) : is_nan a = true -> (a <? b) = false.
Proof.
  intros H. rewrite ltb_spec, (is_nan_spec a H). reflexivity.
Qed.

Lemma ltb_nan_r (a b : float) : is_nan b = true -> (a <? b) = false.
Proof.
  intros H. rewrite ltb_spec, (is_nan_spec b H). unfold SFltb.
  now destruct (Prim2SF a).
Qed.

Lemma leb_nan_l (a b : float) : is_nan a = true -> (a <=? b) = false.
Proof.
  intros H. rewrite leb_spec, (is_nan_spec a H). reflexivity.
Qed.

Lemma leb_nan_r (a b : float) : is_nan b = true -> (a <=? b) = false.
Proof.
  intros H. rewrite leb_spec, (is_nan_spec b H). unfold SFleb.
  now destruct (Prim2SF a).
Qed.

(** X3. A point with a NaN coordinate is outside the safe zone, and so is
    a point on one of the four border lines 0.05 and 0.95: the zone is the
    open square. *)
Theorem safe_zone_is_open_and_rejects_nan (p : Point.t) :
  is_nan (Point.x p) = true \/ is_nan (Point.y p) = true
  \/ Point.x p = 0.05 \/ Point.x p = 0.95
  \/ Point.y p = 0.05 \/ Point.y p = 0.95 ->
  isInSafeZone p = false.
Proof.
  unfold isInSafeZone.
  intros [H | [H | [H | [H | [H | H]]]]].
  - now rewrite (ltb_nan_r _ _ H).
  - rewrite (ltb_nan_r 0.05 _ H).
    now destruct (0.05 <? Point.x p), (Point.x p <? 0.95).
  - rewrite H. reflexivity.
  - rewrite H. reflexivity.
  - rewrite H. now destruct (0.05 <? Point.x p), (Point.x p <? 0.95).
  - rewrite H. now destruct (0.05 <? Point.x p), (Point.x p <? 0.95).
Qed.

End NaNProperties.

(** ** Leaving and re-entering DRAWING *)

Section DrawingProperties.
Variable sin : float -> float.
Local Open Scope float_scope.

Lemma lost_tick (f : Frame) (s : State) :
  multiHandLandmarks f = [] ->
  exists s',
    tick sin f s = Some (s', [])
    /\ consecutivePinchFrames s' = consecutivePinchFrames s
    /\ isMenuOpen s' = isMenuOpen s
    /\ (mode s = DRAWING -> currentPath s <> [] ->
          mode s' = IDLE
          /\ paths s' = (paths s ++ [finalized s])%list
          /\ currentPath s' = []).
Proof.
  intros Hf. unfold tick, onResults. rewrite Hf.
  rewrite update_lost by now destruct s.
  eexists. split; [reflexivity|].
  destruct (physics_shape sin (height f) (set_lastLandmarks None s)) as [ps ->].
  unfold dropToIdle, endStroke, finalized.
  destruct s as [? cur ? ? ? ? [] ? ? ? ? ? ? ? ? ? ? ?]; cbn;
    try (repeat split; discriminate).
  destruct cur; cbn; repeat split; congruence.
Qed.

(** X4. A frame without a hand is always processed and leaves the mode
    IDLE and the filter state null, with no effect outside the record;
    pinch counter and menu flag are kept. If the mode was DRAWING and the
    stroke had points, exactly that stroke is pushed onto the path
    collection, with no point lost or added, and the active stroke is
    emptied; otherwise paths and active stroke are untouched. *)
Theorem tracking_lost_finalizes (f : Frame) (s : State) :
  multiHandLandmarks f = [] ->
  exists s',
    tick sin f s = Some (s', [])
    /\ mode s' = IDLE
    /\ smoothedPos s' = None
    /\ consecutivePinchFrames s' = consecutivePinchFrames s
    /\ isMenuOpen s' = isMenuOpen s
    /\ if AppMode_eqb (mode s) DRAWING && (0 <? List.length (currentPath s))%nat
       then paths s' = (paths s ++ [finalized s])%list /\ currentPath s' = []
       else paths s' = paths s /\ currentPath s' = currentPath s.
Proof.
  intros Hf. unfold tick, onResults. rewrite Hf.
  rewrite update_lost by now destruct s.
  eexists. split; [reflexivity|].
  destruct (physics_shape sin (height f) (set_lastLandmarks None s)) as [ps ->].
  unfold dropToIdle, endStroke, finalized.
  destruct s as [? cur ? ? ? ? [] ? ? ? ? ? ? ? ? ? ? ?]; cbn;
    try destruct cur; cbn; auto 10.
Qed.

Lemma run_exiting (fs : list Frame) :
  forall s,
    mode s = DRAWING ->
    isMenuOpen s = false ->
    Forall exitFrame fs ->
    (Z.of_nat (List.length fs) <= consecutivePinchFrames s)%Z ->
    exists s',
      run sin fs s = Some (s', [])
      /\ mode s' = DRAWING
      /\ isMenuOpen s' = false
      /\ consecutivePinchFrames s'
         = (consecutivePinchFrames s - Z.of_nat (List.length fs))%Z
      /\ currentPath s' = currentPath s
      /\ paths s' = paths s
      /\ finalized s' = finalized s.
Proof.
  induction fs as [|f fs IH]; intros s Hd Hm Hall Hle.
  - exists s. cbn. rewrite Z.sub_0_r. auto 10.
  - inversion Hall as [|? ? (r & Hz & Hr) Hall']; subst.
    cbn [List.length] in Hle. rewrite Nat2Z.inj_succ in Hle.
    destruct (tick_in_zone sin f s r Hm Hz) as (l & hs & rp & others & _ & Ht).
    destruct (tracked_shape sin f hs rp (set_lastLandmarks (Some l) s))
      as (ps & sp & _ & Hshape).
    rewrite Hshape in Ht. cbv zeta in Ht.
    replace (mode _) with DRAWING in Ht by now destruct s.
    cbn [AppMode_eqb negb] in Ht.
    rewrite modeLogic_exit in Ht; [|now destruct s..|assumption].
    cbv zeta in Ht.
    replace (consecutivePinchFrames (set_cursorPos _ _))
      with (consecutivePinchFrames s) in Ht by now destruct s.
    replace (consecutivePinchFrames s - 1 <? 0)%Z with false in Ht
      by (symmetry; apply Z.ltb_ge; lia).
    match type of Ht with _ = Some (?u, _) => set (s1 := u) in * end.
    destruct (IH s1) as (s' & Hrun & Hd' & Hm' & Hc' & Hcur' & Hp' & Hf');
      [now destruct s|now destruct s|assumption| |].
    + replace (consecutivePinchFrames s1) with (consecutivePinchFrames s - 1)%Z
        by (now destruct s). lia.
    + exists s'. cbn [run List.length]. rewrite Ht. cbn [bind].
      rewrite Hrun. cbn. split; [reflexivity|]. split; [exact Hd'|].
      split; [exact Hm'|]. split.
      * rewrite Hc'.
        replace (consecutivePinchFrames s1)
          with (consecutivePinchFrames s - 1)%Z by (now destruct s). lia.
      * rewrite Hcur', Hp', Hf'. now destruct s.
Qed.

(** X5. Leaving DRAWING is debounced by the exit counter. From DRAWING
    with the counter at c, c or fewer consecutive frames above the end
    threshold only count it down, stroke and paths untouched; the frame
    that takes it below zero, the (c+1)-th, ends the stroke, pushes it
    onto the path collection and sets the mode to HOVER with the counter
    at -1. *)
Theorem exit_is_debounced (fs : list Frame) (g : Frame) (s : State) :
  mode s = DRAWING ->
  isMenuOpen s = false ->
  Forall exitFrame (fs ++ [g])%list ->
  Z.of_nat (List.length fs) = consecutivePinchFrames s ->
  (exists s1,
     run sin fs s = Some (s1, [])
     /\ mode s1 = DRAWING
     /\ consecutivePinchFrames s1 = 0%Z
     /\ currentPath s1 = currentPath s
     /\ paths s1 = paths s)
  /\ (exists s2,
        run sin (fs ++ [g])%list s = Some (s2, [])
        /\ mode s2 = HOVER
        /\ consecutivePinchFrames s2 = (-1)%Z
        /\ currentPath s2 = []
        /\ paths s2 = paths (endStroke s)).
Proof.
  intros Hd Hm Hall Hlen.
  apply Forall_app in Hall. destruct Hall as [Hfs Hg].
  inversion Hg as [|? ? (r & Hz & Hr) _]; subst.
  destruct (run_exiting fs s Hd Hm Hfs)
    as (s1 & Hrun & Hd1 & Hm1 & Hc1 & Hcur1 & Hp1 & Hf1); [lia|].
  assert (consecutivePinchFrames s1 = 0%Z) as Hc0 by lia.
  split; [exists s1; auto 10|].
  destruct (drawing_tick_exit sin g s1 r Hd1 Hm1 Hz Hr)
    as (s2 & Ht & _ & Hc2 & Hrest).
  rewrite Hc0 in Hc2, Hrest. cbn in Hrest. destruct Hrest as (Hd2 & Hcur2 & Hp2).
  exists s2. rewrite run_app, Hrun. cbn [bind run]. rewrite Ht. cbn.
  repeat split; try assumption. rewrite Hp2.
  unfold endStroke. unfold finalized in Hf1.
  rewrite Hcur1. destruct (0 <? _)%nat; [|exact Hp1].
  destruct s, s1; cbn in *. injection Hf1 as -> -> -> ->. now subst.
Qed.

(** X6. A loss of tracking does not reset the pinch counter. Take a
    DRAWING state with the menu closed, a non-empty stroke and the pinch
    counter at c, 3 <= c < 2^53 (where [++] on a number is exact). A
    frame without a hand, followed by one qualifying pinched frame (in
    zone, neither open palm nor victory shown, pinch ratio below 0.09),
    is DRAWING again at once: the old stroke is finalized by the first
    frame and a new one-point stroke is opened by the second, with the
    counter at c + 1. *)
Theorem pinch_counter_survives_tracking_loss (lost pinched : Frame) (s : State) :
  mode s = DRAWING ->
  isMenuOpen s = false ->
  currentPath s <> [] ->
  (3 <= consecutivePinchFrames s < 2 ^ 53)%Z ->
  multiHandLandmarks lost = [] ->
  pinchedFrame pinched ->
  exists s',
    run sin [lost; pinched] s = Some (s', [])
    /\ mode s' = DRAWING
    /\ currentPath s' = [cursorPos s']
    /\ paths s' = (paths s ++ [finalized s])%list
    /\ consecutivePinchFrames s' = (consecutivePinchFrames s + 1)%Z.
Proof.
  intros Hd Hm Hcur [Hc _] Hlost Hp.
  destruct (lost_tick lost s Hlost) as (s1 & Ht1 & Hc1 & Hm1 & Hpaths).
  destruct (Hpaths Hd Hcur) as (Hd1 & Hp1 & Hcur1).
  destruct (entry_tick sin pinched s1) as (s2 & Ht2 & _ & Hp2 & Hc2 & Hb);
    [congruence|congruence|assumption|].
  replace (PINCH_DEBOUNCE_FRAMES <? consecutivePinchFrames s1 + 1)%Z
    with true in Hb
    by (symmetry; apply Z.ltb_lt; unfold PINCH_DEBOUNCE_FRAMES; lia).
  destruct Hb as [Hd2 Hcur2].
  exists s2. cbn [run]. rewrite Ht1. cbn [bind]. rewrite Ht2. cbn.
  repeat split; congruence.
Qed.

(** X7. A pinch ratio that is NaN (a hand of size 0 whose two tips
    coincide) passes neither threshold test. With the menu closed and
    the frame in the zone: while drawing, such a frame is handled as a
    held pinch, the counter going to its ceiling 3, the mode staying
    DRAWING, no path being finalized and the stroke staying as it is or
    gaining the cursor; outside DRAWING, if the frame shows neither the
    open palm nor the victory sign, it is handled as a released pinch,
    the counter going to 0 and the mode to HOVER, stroke and paths
    untouched. *)
Theorem nan_ratio_passes_neither_threshold (f : Frame) (s : State) (r : float) :
  isMenuOpen s = false ->
  inZoneFrame f r ->
  is_nan r = true ->
  (mode s = DRAWING ->
     exists s',
       tick sin f s = Some (s', [])
       /\ mode s' = DRAWING
       /\ consecutivePinchFrames s' = PINCH_DEBOUNCE_FRAMES
       /\ paths s' = paths s
       /\ (currentPath s' = currentPath s
           \/ currentPath s' = (currentPath s ++ [cursorPos s'])%list))
  /\ (mode s <> DRAWING -> noGesture f ->
        exists s',
          tick sin f s = Some (s', [])
          /\ mode s' = HOVER
          /\ consecutivePinchFrames s' = 0%Z
          /\ currentPath s' = currentPath s
          /\ paths s' = paths s).
Proof.
  intros Hm Hz Hnan. split.
  - intros Hd.
    destruct (drawing_tick_held sin f s r Hd Hm Hz (ltb_nan_r _ _ Hnan))
      as (s' & Ht & Hd' & _ & Hc' & Hp' & Hcur').
    exists s'. auto.
  - intros Hd Hg.
    destruct (idle_tick sin f s r Hd Hm Hz Hg)
      as (l & t & -> & Hd' & Hm' & Hc & Hcur & Hp).
    rewrite modeLogic_released;
      [|assumption|congruence|now apply ltb_nan_l].
    eexists. split; [reflexivity|]. destruct t; cbn in *; auto.
Qed.

End DrawingProperties.

(** ** Invariants of the running application *)

Section Invariants.
Variable sin : float -> float.
Local Open Scope float_scope.

(** A property of the record, and of anything computed from the effects
    so far, is kept by [update] as soon as the pieces of [update] keep it. *)
Lemma update_preserves {R : Type} (step : R -> Effect -> R)
      (Q : State -> R -> Prop) (f : Frame) :
  (forall s r ps, Q s r -> Q (set_particles ps s) r) ->
  (forall s r hs, Q s r -> Q (set_handSize hs s) r) ->
  (forall s r sp, Q s r -> Q (set_smoothedPos sp s) r) ->
  (forall s r p, Q s r -> Q (set_cursorPos p s) r) ->
  (forall s r, Q s r -> Q (dropToIdle s) r) ->
  (forall l t t' e r,
     mode t <> DRAWING -> Q t r -> menuGesture (now f) l t = Some (t', e) ->
     Q t' (fold_left step e r)) ->
  (forall rnd w h t r,
     mode t <> DRAWING -> Q t r -> Q (triggerDissolve rnd w h t) r) ->
  (forall doc l ratio t t' e r,
     Q t r -> modeLogic doc l ratio t = Some (t', e) ->
     Q t' (fold_left step e r)) ->
  forall s s' e r,
    Q s r -> update sin f s = Some (s', e) -> Q s' (fold_left step e r).
Proof.
  intros Hps Hhs Hsp Hcp Hdrop Hgest Hdis Hmode s s' e r HQ H.
  assert (forall h, Q (physics sin h s) r) as Hphys
    by (intros h; destruct (physics_shape sin h s) as [ps ->]; auto).
  destruct (update_cases sin f s s' e H)
    as [[Hl ->] | (l & hs & ratio & rp & Hl & Hs & Hr & Hp & [[Hz ->] | Hz])].
  - rewrite (update_lost sin f s Hl) in H. injection H as <-. cbn. auto.
  - rewrite (update_out_of_zone sin f s l hs ratio rp Hl Hs Hr Hp Hz) in H.
    injection H as <-. cbn. auto.
  - rewrite (update_in_zone sin f s l hs ratio rp Hl Hs Hr Hp Hz) in H.
    cbv zeta in H.
    assert (Q (tracked sin f hs rp s) r) as Ht.
    { destruct (tracked_shape sin f hs rp s) as (ps & sp & _ & ->). auto. }
    set (t := tracked sin f hs rp s) in *.
    destruct (AppMode_eqb (mode t) DRAWING) eqn:Hd; cbn [negb] in H.
    + eauto.
    + assert (mode t <> DRAWING) as Hnd by (destruct (mode t); easy).
      destruct (menuGesture (now f) l t) as [[t1 e1]|] eqn:Hg; [|discriminate].
      cbn [bind] in H.
      destruct (menuGesture_step _ _ _ _ _ Hg Hnd) as (G1 & _).
      destruct (detectVictory l) as [v|]; [|discriminate]. cbn [bind] in H.
      destruct (v && negb (isMenuOpen t1)).
      * injection H as <- <-. eauto.
      * destruct (modeLogic (document f) l ratio t1) as [[t2 e2]|] eqn:Hml;
          [|discriminate].
        injection H as <- <-. rewrite fold_left_app. eauto.
Qed.

Lemma handleUIInteraction_counters (doc : Document) (s : State) :
  let t := fst (handleUIInteraction doc s) in
  consecutivePinchFrames t = consecutivePinchFrames s
  /\ consecutiveOpenFrames t = consecutiveOpenFrames s.
Proof.
  unfold handleUIInteraction.
  destruct (hitTest doc _ _) as [hit|]; [|now destruct s].
  destruct (negb _); [now destruct s|].
  destruct (DWELL_TIME_MS <=? _); [|now destruct s].
  unfold triggerClick.
  destruct (String.eqb hit "btn-pen"), (String.eqb hit "btn-eraser"),
    (String.prefix "btn-color-" hit), (String.prefix "btn-size-" hit);
    destruct s; cbn; auto.
Qed.

Lemma modeLogic_counters (doc : Document) l (r : float) (t t' : State) e :
  modeLogic doc l r t = Some (t', e) ->
  countersInRange t /\ menuInStep t ->
  countersInRange t' /\ menuInStep t'.
Proof.
  unfold modeLogic, countersInRange, menuInStep.
  intros H ((C1 & C2 & C3) & (M1 & M2)).
  destruct (isMenuOpen t) eqn:Hm.
  - destruct (isFingerExtended l 8 6) as [[]|]; cbn [bind] in H;
      try discriminate.
    + pose proof (handleUIInteraction_fields sin doc (set_mode MENU t)) as K.
      pose proof (handleUIInteraction_counters doc (set_mode MENU t)) as K'.
      destruct (handleUIInteraction doc (set_mode MENU t)) as [u e'].
      injection H as <- <-. cbn in K, K'.
      destruct K as (K1 & K2 & _). destruct K' as (K3 & K4).
      rewrite K1, K2, K3, K4. destruct t; cbn in *.
      repeat split; auto; try lia; discriminate.
    + injection H as <- <-. destruct t; cbn in *.
      repeat split; auto; try lia; discriminate.
  - destruct (AppMode_eqb (mode t) DRAWING) eqn:Hd.
    + assert (mode t = DRAWING) as Hd' by (destruct (mode t); easy).
      specialize (C3 Hd').
      destruct (PINCH_END_THRESHOLD <? r).
      * destruct (consecutivePinchFrames _ <? 0)%Z eqn:Hlt.
        -- apply Z.ltb_lt in Hlt. injection H as <- <-. unfold endStroke.
           destruct t as [? cur ? ? ? ? ? ? ? ? ? ? ? ? ? ? ? ?]; cbn in *.
           destruct cur; cbn; repeat split; auto; try lia; try discriminate;
             congruence.
        -- apply Z.ltb_ge in Hlt. injection H as <- <-.
           destruct t; cbn in *. subst.
           repeat split; auto; try lia; try discriminate; congruence.
      * injection H as <- <-. unfold addPointToStroke.
        destruct t as [? cur ? ? ? ? ? ? ? ? ? ? ? ? ? ? ? ?]; cbn in *; subst.
        destruct (List.length cur =? 0)%nat; [|destruct (4 <? _)]; cbn;
          unfold PINCH_DEBOUNCE_FRAMES;
          repeat split; auto; try lia; try discriminate; congruence.
    + assert (mode t <> DRAWING) as Hd' by (destruct (mode t); easy).
      destruct (r <? PINCH_START_THRESHOLD).
      * destruct (PINCH_DEBOUNCE_FRAMES <? _)%Z eqn:Hlt; injection H as <- <-;
          destruct t; cbn in *; subst.
        -- apply Z.ltb_lt in Hlt. unfold PINCH_DEBOUNCE_FRAMES in Hlt.
           repeat split; auto; try lia; try discriminate; congruence.
        -- repeat split; auto; try lia; try congruence.
      * injection H as <- <-. destruct t; cbn in *.
        repeat split; auto; try lia; try discriminate; congruence.
Qed.

Lemma menuGesture_counters (time : Z) l (t t' : State) e :
  menuGesture time l t = Some (t', e) ->
  countersInRange t /\ menuInStep t ->
  mode t <> DRAWING ->
  countersInRange t' /\ menuInStep t'.
Proof.
  unfold menuGesture, countersInRange, menuInStep.
  intros H ((C1 & C2 & C3) & (M1 & M2)) Hnd.
  destruct (1000 <? time - lastGestureTime t)%Z;
    [|injection H as <- <-; auto 10].
  destruct (detectOpenPalm l) as [[]|]; cbn [bind] in H; try discriminate.
  - destruct (5 <? _)%Z eqn:Hlt.
    + unfold toggleMenu, endStroke in H. injection H as <- <-.
      destruct t as [? cur ? ? ? ? ? ? ? ? ? ? [] ? ? ? ? ?]; cbn in *;
        destruct cur; cbn in *;
        repeat split; auto; try lia; try discriminate; congruence.
    + apply Z.ltb_ge in Hlt. injection H as <- <-. destruct t; cbn in *.
      repeat split; auto; try lia.
  - injection H as <- <-. destruct t; cbn in *. repeat split; auto; lia.
Qed.

Lemma steady_preserved (f : Frame) (s s' : State) e :
  countersInRange s /\ menuInStep s ->
  update sin f s = Some (s', e) ->
  countersInRange s' /\ menuInStep s'.
Proof.
  intros HQ H.
  apply (update_preserves react
           (fun s _ => countersInRange s /\ menuInStep s) f)
    with (s := s) (e := e) (r := initialReact); try assumption.
  - intros ? ? ? K. now destruct s0.
  - intros ? ? ? K. now destruct s0.
  - intros ? ? ? K. now destruct s0.
  - intros ? ? ? K. now destruct s0.
  - intros t _ ((C1 & C2 & C3) & (M1 & M2)).
    unfold dropToIdle, endStroke, countersInRange, menuInStep.
    destruct t as [? cur ? ? ? ? [] ? ? ? ? ? ? ? ? ? ? ?]; cbn in *;
      try destruct cur; cbn;
      repeat split; auto; try lia; discriminate.
  - intros l t t' e0 _ Hnd K Hg.
    exact (menuGesture_counters (now f) l t t' e0 Hg K Hnd).
  - intros rnd w h t _ _ K. unfold triggerDissolve.
    destruct (_ =? 0)%nat; [exact K|]. now destruct t.
  - intros doc l ratio t t' e0 _ K Hml.
    exact (modeLogic_counters doc l ratio t t' e0 Hml K).
Qed.

Lemma reachable_steady (s : State) :
  reachable sin s -> countersInRange s /\ menuInStep s.
Proof.
  induction 1 as [|results s _ IH|s _ IH|f s s' effects _ IH Hu].
  - unfold countersInRange, menuInStep. cbn.
    repeat split; try lia; discriminate.
  - unfold onResults. destruct results; now destruct s.
  - now destruct s.
  - exact (steady_preserved f s s' effects IH Hu).
Qed.

(** X8. In every reachable state the open-palm counter lies between 0 and
    5, the pinch counter is at least -1, and in DRAWING mode the pinch
    counter is not negative. *)
Theorem counters_stay_in_range (s : State) :
  reachable sin s -> countersInRange s.
Proof. intros H. exact (proj1 (reachable_steady s H)). Qed.

(** X9. In every reachable state the mode is MENU only while the menu is
    open; while it is open the mode is MENU or IDLE, never HOVER or
    DRAWING, and there is no active stroke. *)
Theorem menu_and_mode_in_step (s : State) :
  reachable sin s ->
  (mode s = MENU -> isMenuOpen s = true)
  /\ (isMenuOpen s = true ->
        (mode s = MENU \/ mode s = IDLE) /\ currentPath s = []).
Proof.
  intros H. destruct (reachable_steady s H) as (_ & M1 & M2).
  split; [exact M1|]. intros Ho. split; [auto|].
  apply (proj2 (reachable_consistent sin s H)).
  destruct (M2 Ho) as [-> | ->]; discriminate.
Qed.

(** *** The React state *)

Lemma mirrored_silent (s t : State) (r : ReactState) :
  isMenuOpen t = isMenuOpen s ->
  tool t = tool s -> color t = color s -> size t = size s ->
  mirrored s r -> mirrored t r.
Proof.
  unfold mirrored. intros -> -> -> ->. auto.
Qed.

Lemma handleUIInteraction_mirrored (doc : Document) (s : State) (r : ReactState) :
  mirrored s r ->
  mirrored (fst (handleUIInteraction doc s))
           (fold_left react (snd (handleUIInteraction doc s)) r).
Proof.
  unfold handleUIInteraction, mirrored. intros [H1 H2].
  destruct (hitTest doc _ _) as [hit|]; [|now destruct s].
  destruct (negb _); [now destruct s|].
  destruct (DWELL_TIME_MS <=? _); [|now destruct s].
  unfold triggerClick.
  destruct (doc hit);
    destruct (String.eqb hit "btn-pen"), (String.eqb hit "btn-eraser"),
      (String.prefix "btn-color-" hit), (String.prefix "btn-size-" hit);
    destruct s; cbn in *; auto.
Qed.

Lemma modeLogic_mirrored (doc : Document) l (ratio : float) (t t' : State) e r :
  mirrored t r ->
  modeLogic doc l ratio t = Some (t', e) ->
  mirrored t' (fold_left react e r).
Proof.
  unfold modeLogic. intros HQ H.
  destruct (isMenuOpen t) eqn:Hm.
  - destruct (isFingerExtended l 8 6) as [[]|]; cbn [bind] in H;
      try discriminate.
    + pose proof (handleUIInteraction_mirrored doc (set_mode MENU t) r) as K.
      destruct (handleUIInteraction doc (set_mode MENU t)) as [u e'].
      injection H as <- <-. apply K.
      apply (mirrored_silent t); now destruct t.
    + injection H as <- <-. apply (mirrored_silent t); now destruct t.
  - destruct (AppMode_eqb (mode t) DRAWING).
    + destruct (PINCH_END_THRESHOLD <? ratio).
      * destruct (_ <? 0)%Z; injection H as <- <-;
          apply (mirrored_silent t); trivial; unfold endStroke;
          destruct t as [? cur ? ? ? ? ? ? ? ? ? ? ? ? ? ? ? ?]; cbn;
          try destruct cur; reflexivity.
      * injection H as <- <-. apply (mirrored_silent t); trivial;
          unfold addPointToStroke;
          destruct t as [? cur ? ? ? ? ? ? ? ? ? ? ? ? ? ? ? ?]; cbn;
          (destruct (List.length cur =? 0)%nat; [|destruct (4 <? _)]);
          reflexivity.
    + destruct (ratio <? PINCH_START_THRESHOLD).
      * destruct (PINCH_DEBOUNCE_FRAMES <? _)%Z; injection H as <- <-;
          apply (mirrored_silent t); trivial; now destruct t.
      * injection H as <- <-. apply (mirrored_silent t); now destruct t.
Qed.

Lemma menuGesture_mirrored (time : Z) l (t t' : State) e r :
  mirrored t r ->
  menuGesture time l t = Some (t', e) ->
  mirrored t' (fold_left react e r).
Proof.
  unfold menuGesture, mirrored. intros [H1 H2] H.
  destruct (1000 <? time - lastGestureTime t)%Z;
    [|injection H as <- <-; auto].
  destruct (detectOpenPalm l) as [[]|]; cbn [bind] in H; try discriminate.
  - destruct (5 <? _)%Z.
    + unfold toggleMenu, endStroke in H. injection H as <- <-.
      destruct t as [? cur ? ? ? ? ? ? ? ? ? ? [] ? ? ? ? ?]; cbn in *;
        destruct cur; cbn in *; auto.
    + injection H as <- <-. destruct t; cbn in *. auto.
  - injection H as <- <-. destruct t; cbn in *. auto.
Qed.

Lemma update_mirrored (f : Frame) (s s' : State) e r :
  mirrored s r ->
  update sin f s = Some (s', e) ->
  mirrored s' (fold_left react e r).
Proof.
  intros HQ H.
  apply (update_preserves react mirrored f) with (s := s); try assumption.
  - intros ? ? ? K. apply (mirrored_silent s0); now destruct s0.
  - intros ? ? ? K. apply (mirrored_silent s0); now destruct s0.
  - intros ? ? ? K. apply (mirrored_silent s0); now destruct s0.
  - intros ? ? ? K. apply (mirrored_silent s0); now destruct s0.
  - intros t r0 K. apply (mirrored_silent t); trivial;
      unfold dropToIdle, endStroke;
      destruct t as [? cur ? ? ? ? [] ? ? ? ? ? ? ? ? ? ? ?]; cbn;
      try destruct cur; reflexivity.
  - intros l t t0 e0 r0 _ K Hg.
    exact (menuGesture_mirrored (now f) l t t0 e0 r0 K Hg).
  - intros rnd w h t r0 _ K. unfold triggerDissolve.
    destruct (_ =? 0)%nat; [exact K|].
    apply (mirrored_silent t); now destruct t.
  - intros doc l ratio t t0 e0 r0 K Hml.
    exact (modeLogic_mirrored doc l ratio t t0 e0 r0 K Hml).
Qed.

(** X10. The React state follows the record. If [uiVisible] and
    [toolbarProps] show the menu flag and the tool, colour and size of the
    record before some ticks, they show them again once the effects of
    those ticks are applied; so the toolbar is rendered exactly while the
    menu flag is set. *)
Theorem react_state_mirrors_record (fs : list Frame) (s s' : State)
  (r : ReactState) (e : list Effect) :
  mirrored s r ->
  run sin fs s = Some (s', e) ->
  mirrored s' (fold_left react e r)
  /\ forall doc,
       Toolbar.render doc (toolbarOf (fold_left react e r)) = None
       <-> isMenuOpen s' = false.
Proof.
  intros HQ H.
  assert (mirrored s' (fold_left react e r)) as K.
  { revert s r e HQ H. induction fs as [|f fs IH]; intros s r e HQ H; cbn in H.
    - now injection H as <- <-.
    - destruct (tick sin f s) as [[s1 e1]|] eqn:Ht; [|discriminate].
      cbn [bind] in H.
      destruct (run sin fs s1) as [[s2 e2]|] eqn:Hrun; [|discriminate].
      injection H as <- <-. rewrite fold_left_app.
      apply (IH s1 _ e2); [|exact Hrun].
      apply (update_mirrored f (onResults (multiHandLandmarks f) s)); [|exact Ht].
      apply (mirrored_silent s); trivial; unfold onResults;
        destruct (multiHandLandmarks f); now destruct s. }
  split; [exact K|]. intros doc. destruct K as [K1 K2].
  unfold Toolbar.render, toolbarOf. rewrite K2. cbn. rewrite K1.
  destruct (isMenuOpen s'); cbn; split; congruence.
Qed.

(** *** Colours and widths *)

Lemma fromTables_silent (s t : State) :
  color t = color s -> size t = size s -> paths t = paths s ->
  fromTables s -> fromTables t.
Proof. unfold fromTables. intros -> -> ->. auto. Qed.

Lemma endStroke_fromTables (s : State) : fromTables s -> fromTables (endStroke s).
Proof.
  unfold fromTables, endStroke. intros (H1 & H2 & H3).
  destruct (0 <? _)%nat; [|auto].
  destruct s; cbn in *. split; [exact H1|]. split; [exact H2|].
  apply Forall_app. split; [exact H3|]. constructor; [|constructor].
  cbn. auto.
Qed.

Lemma hitTest_declared (doc : Document) (x y : float) (id : string) :
  hitTest doc x y = Some id -> In id ids.
Proof. unfold hitTest. intros H. now apply find_some in H. Qed.

Lemma triggerClick_fromTables (doc : Document) (id : string) (s : State) :
  In id ids -> fromTables s -> fromTables (fst (triggerClick doc id s)).
Proof.
  unfold fromTables. intros Hin (H1 & H2 & H3).
  cbn in Hin.
  repeat (destruct Hin as [<- | Hin]); [..|destruct Hin];
    destruct s; cbn in *; (split; [|split]); auto 10.
Qed.

Lemma handleUIInteraction_fromTables (doc : Document) (s : State) :
  fromTables s -> fromTables (fst (handleUIInteraction doc s)).
Proof.
  unfold handleUIInteraction. intros H.
  destruct (hitTest doc _ _) as [hit|] eqn:Hh;
    [|apply (fromTables_silent s); now destruct s].
  destruct (negb _); [apply (fromTables_silent s); now destruct s|].
  destruct (DWELL_TIME_MS <=? _);
    [|apply (fromTables_silent s); now destruct s].
  pose proof (triggerClick_fromTables doc hit
                (set_selectionProgress (selectionProgress s + FRAME_INTERVAL) s)
                (hitTest_declared _ _ _ _ Hh)) as K.
  destruct (triggerClick doc hit _) as [u e]. cbn in *.
  apply (fromTables_silent u); try (now destruct u).
  apply K. apply (fromTables_silent s); now destruct s.
Qed.

Lemma modeLogic_fromTables (doc : Document) l (ratio : float) (t t' : State) e :
  fromTables t ->
  modeLogic doc l ratio t = Some (t', e) ->
  fromTables t'.
Proof.
  unfold modeLogic. intros HQ H.
  destruct (isMenuOpen t) eqn:Hm.
  - destruct (isFingerExtended l 8 6) as [[]|]; cbn [bind] in H;
      try discriminate.
    + pose proof (handleUIInteraction_fromTables doc (set_mode MENU t)) as K.
      destruct (handleUIInteraction doc (set_mode MENU t)) as [u e'].
      injection H as <- <-. apply K.
      apply (fromTables_silent t); now destruct t.
    + injection H as <- <-. apply (fromTables_silent t); now destruct t.
  - destruct (AppMode_eqb (mode t) DRAWING).
    + destruct (PINCH_END_THRESHOLD <? ratio).
      * destruct (_ <? 0)%Z; injection H as <- <-.
        -- apply (fromTables_silent
                    (endStroke (set_consecutivePinchFrames
                                  (consecutivePinchFrames t - 1)%Z t)));
             try (now destruct (endStroke _)).
           apply endStroke_fromTables.
           apply (fromTables_silent t); now destruct t.
        -- apply (fromTables_silent t); now destruct t.
      * injection H as <- <-. apply (fromTables_silent t); trivial;
          unfold addPointToStroke;
          destruct t as [? cur ? ? ? ? ? ? ? ? ? ? ? ? ? ? ? ?]; cbn;
          (destruct (List.length cur =? 0)%nat; [|destruct (4 <? _)]);
          reflexivity.
    + destruct (ratio <? PINCH_START_THRESHOLD).
      * destruct (PINCH_DEBOUNCE_FRAMES <? _)%Z; injection H as <- <-;
          apply (fromTables_silent t); trivial; now destruct t.
      * injection H as <- <-. apply (fromTables_silent t); now destruct t.
Qed.

Lemma update_fromTables (f : Frame) (s s' : State) e :
  fromTables s -> update sin f s = Some (s', e) -> fromTables s'.
Proof.
  intros HQ H.
  apply (update_preserves react (fun s _ => fromTables s) f)
    with (s := s) (e := e) (r := initialReact); try assumption.
  - intros ? ? ? K. apply (fromTables_silent s0); now destruct s0.
  - intros ? ? ? K. apply (fromTables_silent s0); now destruct s0.
  - intros ? ? ? K. apply (fromTables_silent s0); now destruct s0.
  - intros ? ? ? K. apply (fromTables_silent s0); now destruct s0.
  - intros t _ K. unfold dropToIdle.
    destruct (AppMode_eqb (mode t) DRAWING).
    + apply (fromTables_silent (endStroke t));
        try (now destruct (endStroke t)).
      now apply endStroke_fromTables.
    + apply (fromTables_silent t); now destruct t.
  - intros l t t0 e0 _ _ K Hg. unfold menuGesture in Hg.
    destruct (1000 <? now f - lastGestureTime t)%Z;
      [|now injection Hg as <- <-].
    destruct (detectOpenPalm l) as [[]|]; cbn [bind] in Hg; try discriminate.
    + destruct (5 <? _)%Z.
      * unfold toggleMenu in Hg. cbv beta iota zeta in Hg.
        match type of Hg with
        | context [if ?c then endStroke ?u else _] =>
            assert (fromTables u) as Ku
              by (apply (fromTables_silent t); now destruct t);
            destruct c
        end; injection Hg as <- <-.
        -- match goal with
           | |- fromTables (_ _ (endStroke ?u)) =>
               apply (fromTables_silent (endStroke u));
               [now destruct (endStroke u)..|now apply endStroke_fromTables]
           end.
        -- apply (fromTables_silent t); now destruct t.
      * injection Hg as <- <-. apply (fromTables_silent t); now destruct t.
    + injection Hg as <- <-. apply (fromTables_silent t); now destruct t.
  - intros rnd w h t _ _ (K1 & K2 & K3). unfold triggerDissolve, fromTables.
    destruct (_ =? 0)%nat; [auto|]. destruct t; cbn in *. auto.
  - intros doc l ratio t t0 e0 _ K Hml.
    exact (modeLogic_fromTables doc l ratio t t0 e0 K Hml).
Qed.

(** X11. In every reachable state the colour and the size in use are
    defined and are entries of the toolbar's tables COLORS and SIZES, and
    so are the colour and the width of every finalized path: a table look-up
    by button index never goes out of range. *)
Theorem settings_come_from_the_tables (s : State) :
  reachable sin s -> fromTables s.
Proof.
  induction 1 as [|results s _ IH|s _ IH|f s s' effects _ IH Hu].
  - unfold fromTables. cbn. (split; [|split]); auto 10.
  - apply (fromTables_silent s); trivial; unfold onResults;
      destruct results; now destruct s.
  - apply (fromTables_silent s); now destruct s.
  - exact (update_fromTables f s s' effects IH Hu).
Qed.

(** *** The cooldown of the menu toggle *)

Lemma handleUIInteraction_no_toggle (doc : Document) (s : State) (n : nat) :
  let '(t, e) := handleUIInteraction doc s in
  isMenuOpen t = isMenuOpen s
  /\ lastGestureTime t = lastGestureTime s
  /\ consecutiveOpenFrames t = consecutiveOpenFrames s
  /\ fold_left countToggle e n = n.
Proof.
  unfold handleUIInteraction.
  destruct (hitTest doc _ _) as [hit|]; [|now destruct s].
  destruct (negb _); [now destruct s|].
  destruct (DWELL_TIME_MS <=? _)%float; [|now destruct s].
  unfold triggerClick.
  destruct (doc hit);
    destruct (String.eqb hit "btn-pen"), (String.eqb hit "btn-eraser"),
      (String.prefix "btn-color-" hit), (String.prefix "btn-size-" hit);
    destruct s; cbn; auto.
Qed.

(** X12. Within the cooldown nothing toggles the menu: an update at a
    clock reading no more than 1000 ms after the last toggle leaves the
    menu flag, the time of the last toggle and the open-palm counter as
    they were, and calls [setUiVisible] not once; the open-palm counter
    does not even advance during the cooldown. *)
Theorem no_toggle_within_cooldown (f : Frame) (s s' : State) (e : list Effect) :
  (now f - lastGestureTime s <= 1000)%Z ->
  update sin f s = Some (s', e) ->
  isMenuOpen s' = isMenuOpen s
  /\ lastGestureTime s' = lastGestureTime s
  /\ consecutiveOpenFrames s' = consecutiveOpenFrames s
  /\ toggles e = 0%nat.
Proof.
  intros Hcool H. unfold toggles.
  pose (Q := fun (t : State) (n : nat) =>
               isMenuOpen t = isMenuOpen s
               /\ lastGestureTime t = lastGestureTime s
               /\ consecutiveOpenFrames t = consecutiveOpenFrames s
               /\ n = 0%nat).
  apply (update_preserves countToggle Q f) with (s := s); unfold Q;
    try assumption; auto.
  - intros t n K. unfold dropToIdle, endStroke.
    destruct t as [? cur ? ? ? ? [] ? ? ? ? ? ? ? ? ? ? ?]; cbn in *;
      try destruct cur; exact K.
  - intros l t t' e0 n _ (K1 & K2 & K3 & K4) Hg. unfold menuGesture in Hg.
    replace (1000 <? now f - lastGestureTime t)%Z with false in Hg
      by (symmetry; apply Z.ltb_ge; lia).
    injection Hg as <- <-. auto.
  - intros rnd w h t n _ K. unfold triggerDissolve.
    destruct (_ =? 0)%nat; [exact K|]. now destruct t.
  - intros doc l ratio t t' e0 n (K1 & K2 & K3 & K4) Hml.
    unfold modeLogic in Hml.
    destruct (isMenuOpen t) eqn:Hm.
    + destruct (isFingerExtended l 8 6) as [[]|]; cbn [bind] in Hml;
        try discriminate.
      * pose proof (handleUIInteraction_no_toggle doc (set_mode MENU t) n) as K.
        destruct (handleUIInteraction doc (set_mode MENU t)) as [u e'].
        injection Hml as <- <-. destruct K as (L1 & L2 & L3 & L4).
        rewrite L1, L2, L3, L4. destruct t; cbn in *. intuition congruence.
      * injection Hml as <- <-. destruct t; cbn in *. intuition congruence.
    + destruct (AppMode_eqb (mode t) DRAWING).
      * destruct (PINCH_END_THRESHOLD <? ratio).
        -- destruct (_ <? 0)%Z; injection Hml as <- <-; unfold endStroke;
             destruct t as [? cur ? ? ? ? ? ? ? ? ? ? ? ? ? ? ? ?]; cbn in *;
             try destruct cur; cbn in *; intuition congruence.
        -- injection Hml as <- <-. unfold addPointToStroke.
           destruct t as [? cur ? ? ? ? ? ? ? ? ? ? ? ? ? ? ? ?]; cbn in *.
           destruct (List.length cur =? 0)%nat; [|destruct (4 <? _)]; cbn in *;
             intuition congruence.
      * destruct (ratio <? PINCH_START_THRESHOLD).
        -- destruct (PINCH_DEBOUNCE_FRAMES <? _)%Z; injection Hml as <- <-;
             destruct t; cbn in *; intuition congruence.
        -- injection Hml as <- <-. destruct t; cbn in *. intuition congruence.
Qed.

End Invariants.

(** ** The two global gestures *)

Section GlobalGestures.
Variable sin : float -> float.
Local Open Scope float_scope.

Lemma palm_not_victory (l : list HandLandmark.t) :
  detectOpenPalm l = Some true -> detectVictory l = Some false.
Proof.
  intros H. apply detectOpenPalm_fingers in H.
  destruct H as (E1 & E2 & E3 & E4).
  unfold detectVictory. now rewrite E1, E2, E3, E4.
Qed.

(** A palm frame before the sixth in a row only counts. *)
Lemma palm_tick_counting (f : Frame) (s : State) :
  mode s <> DRAWING ->
  isMenuOpen s = false ->
  releasedPalmFrame (lastGestureTime s) f ->
  (consecutiveOpenFrames s + 1 <= 5)%Z ->
  exists s',
    tick sin f s = Some (s', [])
    /\ mode s' = HOVER
    /\ isMenuOpen s' = false
    /\ consecutiveOpenFrames s' = (consecutiveOpenFrames s + 1)%Z
    /\ lastGestureTime s' = lastGestureTime s
    /\ currentPath s' = currentPath s
    /\ paths s' = paths s.
Proof.
  intros Hd Hm ((r & Hz & Hr) & (l' & others' & Hf' & Hpalm) & Hcool) Hle.
  destruct (tick_in_zone sin f s r Hm Hz) as (l & hs & rp & others & Hf & ->).
  rewrite Hf in Hf'. injection Hf' as <- <-.
  destruct (tracked_shape sin f hs rp (set_lastLandmarks (Some l) s))
    as (ps & sp & _ & ->).
  cbv zeta.
  replace (mode (set_cursorPos _ _)) with (mode s) by now destruct s.
  replace (negb (AppMode_eqb (mode s) DRAWING)) with true
    by (destruct (mode s); try reflexivity; congruence).
  unfold menuGesture.
  replace (lastGestureTime (set_cursorPos _ _)) with (lastGestureTime s)
    by now destruct s.
  replace (1000 <? now f - lastGestureTime s)%Z with true
    by (symmetry; apply Z.ltb_lt; lia).
  rewrite Hpalm. cbn [bind ret].
  replace (consecutiveOpenFrames (set_consecutiveOpenFrames _ _))
    with (consecutiveOpenFrames s + 1)%Z by now destruct s.
  replace (5 <? consecutiveOpenFrames s + 1)%Z with false
    by (symmetry; apply Z.ltb_ge; lia).
  cbn [bind ret]. rewrite (palm_not_victory l Hpalm). cbn [bind ret andb].
  rewrite modeLogic_released; [|now destruct s| |assumption].
  - eexists. split; [reflexivity|]. now destruct s.
  - destruct s; cbn in *. exact Hd.
Qed.

(** X13. Opening the menu takes an open palm held for six frames with the
    pinch released. From a state outside DRAWING with the menu closed and
    the open-palm counter at 0, take six consecutive in-zone frames that
    show an open palm, come later than the cooldown after the last
    toggle, and have a pinch ratio that is not below the start threshold
    0.09 (so that the draw entry does not count them). The first five
    fire nothing and leave the menu closed; the sixth opens it: the menu
    flag is set, the mode is MENU, [setUiVisible(true)] is the first
    effect and the only toggle, the counter is back at 0, and the time of
    the toggle is the clock reading of that frame. *)
Theorem sixth_palm_frame_opens_menu (fs : list Frame) (g : Frame) (s : State) :
  mode s <> DRAWING ->
  isMenuOpen s = false ->
  consecutiveOpenFrames s = 0%Z ->
  Forall (releasedPalmFrame (lastGestureTime s)) (fs ++ [g])%list ->
  List.length fs = 5%nat ->
  (exists s5,
     run sin fs s = Some (s5, [])
     /\ isMenuOpen s5 = false
     /\ consecutiveOpenFrames s5 = 5%Z)
  /\ (exists s6 more,
        run sin (fs ++ [g])%list s = Some (s6, SetUiVisible true :: more)
        /\ toggles (SetUiVisible true :: more) = 1%nat
        /\ isMenuOpen s6 = true
        /\ mode s6 = MENU
        /\ consecutiveOpenFrames s6 = 0%Z
        /\ lastGestureTime s6 = now g).
Proof.
  intros Hd Hm Hc Hall Hlen.
  apply Forall_app in Hall. destruct Hall as [Hfs Hg].
  inversion Hg as [|? ? Hg' _]; subst. clear Hg.
  assert (forall gs t,
            mode t <> DRAWING -> isMenuOpen t = false ->
            lastGestureTime t = lastGestureTime s ->
            Forall (releasedPalmFrame (lastGestureTime s)) gs ->
            (consecutiveOpenFrames t + Z.of_nat (List.length gs) <= 5)%Z ->
            exists t',
              run sin gs t = Some (t', [])
              /\ mode t' <> DRAWING /\ isMenuOpen t' = false
              /\ lastGestureTime t' = lastGestureTime s
              /\ consecutiveOpenFrames t'
                 = (consecutiveOpenFrames t + Z.of_nat (List.length gs))%Z
              /\ currentPath t' = currentPath t) as Hcount.
  { induction gs as [|f gs IH]; intros t Hdt Hmt Hlt Hgs Hle.
    - exists t. cbn. rewrite Z.add_0_r. auto 10.
    - inversion Hgs as [|? ? Hf Hgs']; subst.
      cbn [List.length] in Hle. rewrite Nat2Z.inj_succ in Hle.
      destruct (palm_tick_counting f t Hdt Hmt) as
        (t1 & Ht & Hd1 & Hm1 & Hc1 & Hl1 & Hcur1 & _);
        [now rewrite Hlt|lia|].
      destruct (IH t1) as (t' & Hrun & Hd' & Hm' & Hl' & Hc' & Hcur');
        [congruence|assumption|congruence|assumption|lia|].
      exists t'. cbn [run List.length]. rewrite Ht. cbn [bind ret].
      rewrite Hrun. cbn. repeat split; try assumption; try congruence.
      rewrite Hc', Hc1. lia. }
  destruct (Hcount fs s Hd Hm eq_refl Hfs)
    as (s5 & Hrun & Hd5 & Hm5 & Hl5 & Hc5 & Hcur5); [lia|].
  rewrite Hc, Hlen in Hc5. cbn in Hc5.
  split; [exists s5; auto|].
  destruct Hg' as ((r & Hz & Hr) & (l' & others' & Hf' & Hpalm) & Hcool).
  destruct (tick_in_zone sin g s5 r Hm5 Hz)
    as (l & hs & rp & others & Hf & Ht).
  rewrite Hf in Hf'. injection Hf' as <- <-.
  destruct (tracked_shape sin g hs rp (set_lastLandmarks (Some l) s5))
    as (ps & sp & _ & Hshape).
  rewrite Hshape in Ht. cbv zeta in Ht.
  replace (mode (set_cursorPos _ _)) with (mode s5) in Ht by now destruct s5.
  replace (negb (AppMode_eqb (mode s5) DRAWING)) with true in Ht
    by (destruct (mode s5); try reflexivity; congruence).
  unfold menuGesture in Ht.
  replace (lastGestureTime (set_cursorPos _ _)) with (lastGestureTime s5) in Ht
    by now destruct s5.
  replace (1000 <? now g - lastGestureTime s5)%Z with true in Ht
    by (symmetry; apply Z.ltb_lt; lia).
  rewrite Hpalm in Ht. cbn [bind ret] in Ht.
  replace (consecutiveOpenFrames (set_consecutiveOpenFrames _ _))
    with (consecutiveOpenFrames s5 + 1)%Z in Ht by now destruct s5.
  rewrite Hc5 in Ht. cbn [Z.add Z.ltb Z.compare Pos.compare Pos.add
                          Pos.compare_cont Pos.succ] in Ht.
  unfold toggleMenu in Ht. cbv beta iota zeta in Ht.
  replace (isMenuOpen (set_consecutiveOpenFrames _ _)) with false in Ht
    by now destruct s5.
  cbn [negb] in Ht.
  match type of Ht with
  | context [set_consecutiveOpenFrames 0%Z ?u] =>
      assert (isMenuOpen (set_consecutiveOpenFrames 0%Z u) = true
              /\ consecutiveOpenFrames (set_consecutiveOpenFrames 0%Z u) = 0%Z
              /\ lastGestureTime (set_consecutiveOpenFrames 0%Z u) = now g)
        as (U1 & U2 & U3)
        by (unfold endStroke;
            destruct s5 as [? cur ? ? ? ? ? ? ? ? ? ? ? ? ? ? ? ?]; cbn;
            destruct cur; cbn; auto);
      set (t := set_consecutiveOpenFrames 0%Z u) in *
  end.
  rewrite (palm_not_victory l Hpalm) in Ht. cbn [bind ret andb] in Ht.
  unfold modeLogic in Ht. rewrite U1 in Ht.
  destruct (detectOpenPalm_fingers l Hpalm) as (E1 & _).
  rewrite E1 in Ht. cbn [bind ret] in Ht.
  pose proof (handleUIInteraction_no_toggle (document g) (set_mode MENU t) 1)
    as K.
  pose proof (handleUIInteraction_fields sin (document g) (set_mode MENU t))
    as K'.
  destruct (handleUIInteraction (document g) (set_mode MENU t)) as [s6 more].
  exists s6, more. rewrite run_app, Hrun. cbn [bind ret run]. rewrite Ht. cbn.
  destruct K as (K1 & K2 & K3 & K4). cbn in K'. destruct K' as (K5 & _).
  match goal with
  | |- ret (_, SetUiVisible ?b :: _) = _ /\ _ =>
      replace b with true
        by (unfold endStroke;
            destruct s5 as [? cur ? ? ? ? ? ? ? ? ? ? ? ? ? ? ? ?]; cbn;
            destruct cur; reflexivity)
  end.
  rewrite app_nil_r.
  split; [reflexivity|]. split; [exact K4|].
  split; [rewrite K1; now destruct t|].
  split; [rewrite K5; now destruct t|].
  split; [rewrite K3; now destruct t|].
  rewrite K2. now destruct t.
Qed.


End GlobalGestures.

(** ** Particle physics *)

Section ParticleProperties.
Variable sin : float -> float.
Local Open Scope float_scope.

Lemma physics_particles (h : float) (s : State) :
  particles (physics sin h s)
  = filter (fun p => (0 <? Particle.life p) && (Particle.y p <? h))
           (map (stepParticle sin) (particles s)).
Proof.
  unfold physics. destruct (particles s) eqn:E; cbn.
  - now rewrite E.
  - now destruct s.
Qed.

(** X15. The physics step only removes particles: what it keeps is alive
    and above the bottom edge, it never adds one, and it changes no other
    field of the record. *)
Theorem physics_keeps_only_live_particles (h : float) (s : State) :
  Forall (fun p => (0 <? Particle.life p) = true /\ (Particle.y p <? h) = true)
         (particles (physics sin h s))
  /\ List.length (particles (physics sin h s)) <= List.length (particles s)
  /\ physics sin h s = set_particles (particles (physics sin h s)) s.
Proof.
  split; [|split].
  - rewrite physics_particles. apply Forall_forall. intros p Hp.
    apply filter_In in Hp. destruct Hp as [_ Hp].
    now apply andb_true_iff in Hp.
  - rewrite physics_particles.
    rewrite <- (length_map (stepParticle sin) (particles s)).
    apply filter_length_le.
  - unfold physics. destruct (0 <? _)%nat; now destruct s.
Qed.

Lemma lifetime_bound :
  forallb (fun j => negb (0 <? lifeAfter j 1)) (seq 50 51) = true.
Proof. vm_compute. reflexivity. Qed.

Lemma physics_ages (h : float) (s : State) (lo hi : nat) :
  Forall (aged lo hi) (particles s) ->
  Forall (fun p => aged (S lo) (S hi) p /\ (0 <? Particle.life p) = true)
         (particles (physics sin h s)).
Proof.
  intros H. rewrite physics_particles. apply Forall_forall. intros p Hp.
  apply filter_In in Hp. destruct Hp as [Hin Hp].
  apply andb_true_iff in Hp. destruct Hp as [Hlive _].
  apply in_map_iff in Hin. destruct Hin as (q & <- & Hq).
  rewrite Forall_forall in H. destruct (H q Hq) as (j & Hj & Hlife).
  split; [|exact Hlive].
  exists (S j). split; [lia|]. cbn. now rewrite Hlife.
Qed.

Lemma physicsRun_ages (heights : list float) :
  forall (s : State) (lo hi : nat),
    Forall (aged lo hi) (particles s) ->
    Forall (aged (lo + List.length heights) (hi + List.length heights))
           (particles (physicsRun sin heights s))
    /\ (heights <> [] ->
        Forall (fun p => (0 <? Particle.life p) = true)
               (particles (physicsRun sin heights s))).
Proof.
  induction heights as [|h heights IH]; intros s lo hi H.
  - cbn. rewrite !Nat.add_0_r. split; [exact H|congruence].
  - cbn [physicsRun fold_left List.length].
    pose proof (physics_ages h s lo hi H) as K.
    assert (Forall (aged (S lo) (S hi)) (particles (physics sin h s))) as K1
      by (eapply Forall_impl; [|exact K]; now intros ? []).
    destruct (IH (physics sin h s) (S lo) (S hi) K1) as [I1 I2].
    fold (physicsRun sin heights (physics sin h s)).
    rewrite !Nat.add_succ_r. split; [exact I1|]. intros _.
    destruct heights as [|h' rest]; [|apply I2; discriminate].
    cbn. eapply Forall_impl; [|exact K]. now intros ? [].
Qed.

(** X16. Dissolve particles do not outlive 50 frames. If every particle
    was spawned with life 1.0 at most 50 physics steps ago, then after 50
    more physics steps, whatever the canvas heights and the drift, none
    is left. *)
Theorem particles_are_gone_after_50_frames (heights : list float) (s : State) :
  Forall (aged 0 50) (particles s) ->
  List.length heights = 50%nat ->
  particles (physicsRun sin heights s) = [].
Proof.
  intros H Hlen.
  destruct (physicsRun_ages heights s 0 50 H) as [I1 I2].
  rewrite Hlen in I1. cbn in I1.
  assert (heights <> []) as Hne by (destruct heights; cbn in *; congruence).
  specialize (I2 Hne).
  destruct (particles (physicsRun sin heights s)) as [|p rest]; [reflexivity|].
  inversion I1 as [|? ? (j & Hj & Hlife) _]; subst.
  inversion I2 as [|? ? Hlive _]; subst.
  pose proof lifetime_bound as B. rewrite forallb_forall in B.
  assert (In j (seq 50 51)) as Hin by (apply in_seq; lia).
  apply B in Hin. rewrite <- Hlife, Hlive in Hin. discriminate.
Qed.

End ParticleProperties.

(** ** The toolbar and the menu selector *)

Section ToolbarProperties.
Local Open Scope float_scope.

(** X17. An open toolbar renders exactly the ids that the dwell selector
    hit-tests, in the same order; a closed one renders nothing. *)
Theorem toolbar_renders_the_hit_tested_ids (doc : Document) (p : Toolbar.Props) :
  match Toolbar.render doc p with
  | Some buttons => Toolbar.isOpen p = true /\ map Toolbar.id buttons = ids
  | None => Toolbar.isOpen p = false
  end.
Proof.
  unfold Toolbar.render. destruct (Toolbar.isOpen p); cbn; auto.
Qed.

(** X18. Every button selects what it shows. For each button the open
    toolbar renders, a click on its id sets the colour to the button's
    background colour if it is a swatch, sets the size to the one its
    width 2 * size + 4 is drawn from if it is a size button, and sets the
    tool to the pen or the eraser if it is one of the two tool buttons,
    leaving the other two settings alone; and it reports the new settings
    through [setToolbarProps] as its last effect. *)
Theorem every_button_selects_what_it_shows (doc doc' : Document)
  (p : Toolbar.Props) (b : Toolbar.Button) (buttons : list Toolbar.Button)
  (s : State) :
  Toolbar.render doc p = Some buttons ->
  In b buttons ->
  exists s' before,
    triggerClick doc' (Toolbar.id b) s
      = (s', (before ++ [SetToolbarProps (tool s') (color s') (size s')])%list)
    /\ (forall c, Toolbar.backgroundColor b = Some c ->
                  color s' = Some c /\ tool s' = tool s /\ size s' = size s)
    /\ (forall w, Toolbar.extent b = Some w ->
                  exists z, size s' = Some z /\ w = z * 2 + 4
                            /\ tool s' = tool s /\ color s' = color s)
    /\ (Toolbar.id b = "btn-pen" ->
          tool s' = PEN /\ color s' = color s /\ size s' = size s)
    /\ (Toolbar.id b = "btn-eraser" ->
          tool s' = ERASER /\ color s' = color s /\ size s' = size s).
Proof.
  unfold Toolbar.render. destruct (negb (Toolbar.isOpen p)); [discriminate|].
  intros H Hin. injection H as <-. cbn in Hin.
  unfold triggerClick. cbv zeta.
  match goal with
  | |- exists s' before, (?S, (?P ++ _)%list) = _ /\ _ => exists S, P
  end.
  split; [reflexivity|].
  repeat (destruct Hin as [<- | Hin]); [..|destruct Hin];
    destruct s; cbn;
    repeat split; intros; try discriminate;
    try match goal with
        | H : Some _ = Some _ |- _ => injection H as <-
        end;
    try reflexivity;
    eexists; repeat split.
Qed.

Lemma find_first {A : Type} (test : A -> bool) (l : list A) (a : A) :
  find test l = Some a ->
  exists before after,
    l = (before ++ a :: after)%list
    /\ test a = true
    /\ forall b, In b before -> test b = false.
Proof.
  induction l as [|x l IH]; cbn; [discriminate|].
  destruct (test x) eqn:E.
  - intros H. injection H as <-. exists [], l. repeat split; auto.
    intros b [].
  - intros H. destruct (IH H) as (before & after & -> & Ha & Hb).
    exists (x :: before), after. repeat split; auto.
    intros b [<- | Hin]; auto.
Qed.

(** X19. The hit test is first-match-wins over the declared ids and
    inclusive at the borders of a rectangle. A hit is a declared id whose
    element exists and contains the cursor, while no id declared before it
    has an element that does; there is no hit exactly when no declared
    id has an element containing the cursor; and a cursor with a NaN
    coordinate hits nothing. *)
Theorem hit_test_takes_the_first_match (doc : Document) (x y : float) :
  (forall id,
     hitTest doc x y = Some id ->
     exists before after rect,
       ids = (before ++ id :: after)%list
       /\ doc id = Some rect
       /\ contains rect x y = true
       /\ forall id' rect',
            In id' before -> doc id' = Some rect' -> contains rect' x y = false)
  /\ (hitTest doc x y = None <->
      forall id rect, In id ids -> doc id = Some rect -> contains rect x y = false)
  /\ (forall rect, contains rect (DOMRect.left rect) (DOMRect.top rect)
                   = (DOMRect.left rect <=? DOMRect.left rect)
                     && (DOMRect.left rect <=? DOMRect.right rect)
                     && (DOMRect.top rect <=? DOMRect.top rect)
                     && (DOMRect.top rect <=? DOMRect.bottom rect))
  /\ (is_nan x = true \/ is_nan y = true -> hitTest doc x y = None).
Proof.
  unfold hitTest. split; [|split; [|split]].
  - intros id H. destruct (find_first _ _ _ H) as (before & after & E & Ha & Hb).
    destruct (doc id) as [rect|] eqn:Ed; [|discriminate].
    exists before, after, rect. repeat split; auto.
    intros id' rect' Hin Ed'. specialize (Hb id' Hin). now rewrite Ed' in Hb.
  - split.
    + intros H id rect Hin Ed.
      pose proof (find_none _ _ H id Hin) as K. cbn in K. now rewrite Ed in K.
    + intros H. destruct (find _ ids) as [id|] eqn:E; [|reflexivity].
      apply find_some in E. destruct E as [Hin E].
      destruct (doc id) as [rect|] eqn:Ed; [|discriminate].
      rewrite (H id rect Hin Ed) in E. discriminate.
  - reflexivity.
  - intros Hnan. destruct (find _ ids) as [id|] eqn:E; [|reflexivity].
    apply find_some in E. destruct E as [_ E].
    destruct (doc id) as [rect|]; [|discriminate].
    unfold contains in E. destruct Hnan as [Hn | Hn].
    + rewrite (leb_nan_r _ _ Hn) in E. discriminate.
    + rewrite (leb_nan_r _ _ Hn) in E. rewrite !andb_false_r in E.
      discriminate.
Qed.

End ToolbarProperties.

(** ** Rendering a path *)

Section DrawPathProperties.

Lemma last_default_irrelevant {A : Type} (l : list A) :
  forall a d d', last (a :: l) d = last (a :: l) d'.
Proof.
  induction l as [|c l IH]; intros a d d'; [reflexivity|].
  change (last (a :: c :: l) d) with (last (c :: l) d).
  change (last (a :: c :: l) d') with (last (c :: l) d').
  apply IH.
Qed.

Lemma curves_length (pts : list Point.t) :
  List.length (curves pts) = List.length pts - 1.
Proof.
  induction pts as [|p [|q rest] IH]; try reflexivity.
  cbn [curves List.length] in *. rewrite IH. lia.
Qed.

(** X20. A path of fewer than two points draws nothing. A longer one is
    drawn as one stroke that starts with a move to its first point, has
    one quadratic curve for each point strictly between the first and the
    last, that point being the control point, and ends with a line to its
    last point. *)
Theorem drawPath_spans_first_to_last (points : list Point.t)
  (color : option string) (width : option float) :
  (List.length points < 2 -> drawPath points color width = [])
  /\ (2 <= List.length points ->
      forall d,
        drawPath points color width
        = ([BeginPath; StrokeStyle color; LineWidth width;
            MoveTo (Point.x (hd d points)) (Point.y (hd d points))]
           ++ curves (tl points)
           ++ [LineTo (Point.x (last points d)) (Point.y (last points d));
               Stroke])%list
        /\ List.length (curves (tl points)) = List.length points - 2
        /\ forall i, i < List.length points - 2 ->
             exists p q,
               nth_error points (S i) = Some p
               /\ nth_error points (S (S i)) = Some q
               /\ nth_error (curves (tl points)) i
                  = Some (QuadraticCurveTo (Point.x p) (Point.y p)
                            ((Point.x p + Point.x q) / 2)%float
                            ((Point.y p + Point.y q) / 2)%float)).
Proof.
  split.
  - destruct points as [|p0 [|p1 more]]; cbn; intros; try reflexivity; lia.
  - intros Hlen d. destruct points as [|p0 [|p1 more]]; cbn in Hlen; try lia.
    split; [|split].
    + cbn [drawPath hd tl]. destruct more as [|p2 more].
      * reflexivity.
      * change (last (p0 :: p1 :: p2 :: more) d)
          with (last (p1 :: p2 :: more) d).
        rewrite (last_default_irrelevant (p2 :: more) p1 d p1).
        cbn [app]. now rewrite <- app_assoc.
    + cbn [tl]. rewrite curves_length. cbn. lia.
    + cbn [tl List.length]. intros i Hi.
      assert (forall (l : list Point.t) i,
                S i < List.length l ->
                exists p q,
                  nth_error l i = Some p /\ nth_error l (S i) = Some q
                  /\ nth_error (curves l) i
                     = Some (QuadraticCurveTo (Point.x p) (Point.y p)
                               ((Point.x p + Point.x q) / 2)%float
                               ((Point.y p + Point.y q) / 2)%float)) as Hnth.
      { induction l as [|a [|b l] IHl]; intros k Hk; cbn in Hk; try lia.
        destruct k as [|k].
        - exists a, b. repeat split.
        - destruct (IHl k) as (p & q & E1 & E2 & E3); [cbn; lia|].
          exists p, q. repeat split; assumption. }
      destruct (Hnth (p1 :: more) i) as (p & q & E1 & E2 & E3); [cbn; lia|].
      exists p, q. repeat split; assumption.
Qed.

End DrawPathProperties.


(** ** The further properties on the sample inputs *)

Lemma safe_zone_is_open_and_rejects_nan_witness :
  isInSafeZone (Point.mk 0.05 0.5) = false.
Proof.
  apply safe_zone_is_open_and_rejects_nan.
  right; right; left. reflexivity.
Defined.

Lemma tracking_lost_finalizes_witness :
  exists s',
    tick noDrift lostFrame drawingState = Some (s', [])
    /\ mode s' = IDLE
    /\ smoothedPos s' = None
    /\ paths s' = [finalized drawingState]
    /\ currentPath s' = [].
Proof.
  destruct (tracking_lost_finalizes noDrift lostFrame drawingState eq_refl)
    as (s' & Ht & Hd & Hs & _ & _ & Hp).
  exists s'. cbn in Hp. destruct Hp. auto.
Defined.

Lemma hand020_exits : exitFrame (frameOf hand020).
Proof.
  exists 0.2%float. split; [exact hand020_inZone|vm_compute; reflexivity].
Qed.

Lemma exit_is_debounced_witness :
  exists s2,
    run noDrift
        ([frameOf hand020; frameOf hand020; frameOf hand020] ++ [frameOf hand020])
        drawingState = Some (s2, [])
    /\ mode s2 = HOVER
    /\ consecutivePinchFrames s2 = (-1)%Z
    /\ currentPath s2 = []
    /\ paths s2 = paths (endStroke drawingState).
Proof.
  refine (proj2 (exit_is_debounced noDrift
                   [frameOf hand020; frameOf hand020; frameOf hand020]
                   (frameOf hand020) drawingState eq_refl eq_refl _ eq_refl)).
  repeat constructor; exact hand020_exits.
Defined.

Lemma pinch_counter_survives_tracking_loss_witness :
  exists s',
    run noDrift [lostFrame; frameOf hand005] drawingState = Some (s', [])
    /\ mode s' = DRAWING
    /\ currentPath s' = [cursorPos s']
    /\ paths s' = (paths drawingState ++ [finalized drawingState])%list
    /\ consecutivePinchFrames s' = (consecutivePinchFrames drawingState + 1)%Z.
Proof.
  apply (pinch_counter_survives_tracking_loss noDrift lostFrame
           (frameOf hand005) drawingState);
    [reflexivity|reflexivity|discriminate|split; [cbn; lia|reflexivity]|
     reflexivity|exact hand005_pinched].
Defined.

Lemma collapsedHand_inZone : inZoneFrame (frameOf collapsedHand) nan.
Proof.
  exists collapsedHand, [], (Point.mk 0.5 0.5).
  repeat split; vm_compute; reflexivity.
Qed.

Lemma nan_ratio_passes_neither_threshold_witness :
  exists s',
    tick noDrift (frameOf collapsedHand) drawingState = Some (s', [])
    /\ mode s' = DRAWING
    /\ consecutivePinchFrames s' = PINCH_DEBOUNCE_FRAMES
    /\ paths s' = paths drawingState.
Proof.
  destruct (proj1 (nan_ratio_passes_neither_threshold noDrift
                     (frameOf collapsedHand) drawingState nan eq_refl
                     collapsedHand_inZone eq_refl)
                  eq_refl) as (s' & Ht & Hd & Hc & Hp & _).
  exists s'. auto.
Defined.

Lemma sixPalmFrames_reachable :
  exists s' e,
    run noDrift sixPalmFrames initialState = Some (s', e)
    /\ reachable noDrift s'
    /\ isMenuOpen s' = true.
Proof.
  destruct (run noDrift sixPalmFrames initialState) as [[s' e]|] eqn:E;
    [|vm_compute in E; discriminate].
  exists s', e. split; [reflexivity|]. split.
  - exact (run_reachable noDrift _ _ _ _ (reach_init noDrift) E).
  - vm_compute in E. now injection E as <- _.
Qed.

Lemma counters_stay_in_range_witness :
  exists s' e,
    run noDrift sixPalmFrames initialState = Some (s', e)
    /\ countersInRange s'.
Proof.
  destruct sixPalmFrames_reachable as (s' & e & Hrun & Hr & _).
  exists s', e. split; [exact Hrun|].
  exact (counters_stay_in_range noDrift s' Hr).
Defined.

Lemma menu_and_mode_in_step_witness :
  exists s' e,
    run noDrift sixPalmFrames initialState = Some (s', e)
    /\ (mode s' = MENU \/ mode s' = IDLE)
    /\ currentPath s' = [].
Proof.
  destruct sixPalmFrames_reachable as (s' & e & Hrun & Hr & Ho).
  exists s', e. split; [exact Hrun|].
  exact (proj2 (menu_and_mode_in_step noDrift s' Hr) Ho).
Defined.

Lemma react_state_mirrors_record_witness :
  exists s' e,
    run noDrift sixPalmFrames initialState = Some (s', e)
    /\ mirrored s' (fold_left react e initialReact).
Proof.
  destruct (run noDrift sixPalmFrames initialState) as [[s' e]|] eqn:E;
    [|vm_compute in E; discriminate].
  exists s', e. split; [reflexivity|].
  apply (react_state_mirrors_record noDrift sixPalmFrames initialState s'
           initialReact e); [split; reflexivity|exact E].
Defined.

Lemma settings_come_from_the_tables_witness :
  exists s' e,
    run noDrift sixPalmFrames initialState = Some (s', e)
    /\ fromTables s'.
Proof.
  destruct sixPalmFrames_reachable as (s' & e & Hrun & Hr & _).
  exists s', e. split; [exact Hrun|].
  exact (settings_come_from_the_tables noDrift s' Hr).
Defined.

Lemma no_toggle_within_cooldown_witness :
  exists s' e,
    update noDrift (frameAt 500 palmHand) palmPending = Some (s', e)
    /\ isMenuOpen s' = false
    /\ toggles e = 0.
Proof.
  destruct (update noDrift (frameAt 500 palmHand) palmPending)
    as [[s' e]|] eqn:E; [|vm_compute in E; discriminate].
  exists s', e. split; [reflexivity|].
  assert (now (frameAt 500 palmHand) - lastGestureTime palmPending <= 1000)%Z
    as Hcool by (cbn; lia).
  destruct (no_toggle_within_cooldown noDrift (frameAt 500 palmHand)
              palmPending s' e Hcool E) as (H1 & _ & _ & H4).
  split; [exact H1|exact H4].
Defined.

Lemma palmHand_released (time : Z) :
  (1000 < time)%Z -> releasedPalmFrame 0 (frameAt time palmHand).
Proof.
  intros H. split; [|split].
  - destruct (pinchRatioOf palmHand) as [r|] eqn:E;
      [|vm_compute in E; discriminate].
    exists r. split.
    + destruct (getPinchMidpoint palmHand) as [m|] eqn:Em;
        [|vm_compute in Em; discriminate].
      exists palmHand, [], m. repeat split; try assumption.
      vm_compute in Em. injection Em as <-. vm_compute. reflexivity.
    + vm_compute in E. injection E as <-. vm_compute. reflexivity.
  - exists palmHand, []. split; [reflexivity|vm_compute; reflexivity].
  - cbn. lia.
Qed.

Lemma sixth_palm_frame_opens_menu_witness :
  exists s6 more,
    run noDrift sixPalmFrames initialState = Some (s6, SetUiVisible true :: more)
    /\ isMenuOpen s6 = true
    /\ mode s6 = MENU
    /\ lastGestureTime s6 = 2200%Z.
Proof.
  assert (Forall (releasedPalmFrame (lastGestureTime initialState)) sixPalmFrames) as Hall
    by (repeat constructor; apply palmHand_released; lia).
  destruct (sixth_palm_frame_opens_menu noDrift
              (map (fun time => frameAt time palmHand)
                   [2000; 2040; 2080; 2120; 2160]%Z)
              (frameAt 2200 palmHand) initialState
              ltac:(discriminate) eq_refl eq_refl Hall eq_refl)
    as (_ & s6 & more & Hrun & _ & Ho & Hm & _ & Ht).
  exists s6, more. split; [exact Hrun|]. split; [exact Ho|].
  split; [exact Hm|exact Ht].
Defined.



Lemma particles_are_gone_after_50_frames_witness :
  particles (physicsRun (fun a => a) (repeat 480%float 50) oneParticle) = [].
Proof.
  apply particles_are_gone_after_50_frames; [|reflexivity].
  repeat constructor. exists 0. split; [lia|reflexivity].
Defined.

Lemma every_button_selects_what_it_shows_witness :
  exists s' before,
    triggerClick noDocument "btn-color-1" initialState
      = (s', (before ++ [SetToolbarProps (tool s') (color s') (size s')])%list)
    /\ color s' = Some "#FF0000".
Proof.
  destruct (Toolbar.render noDocument openToolbar) as [buttons|] eqn:E;
    [|discriminate E].
  assert (In (Toolbar.colorButton noDocument openToolbar 1 "#FF0000") buttons)
    as Hin.
  { unfold Toolbar.render in E. cbn [negb Toolbar.isOpen openToolbar] in E.
    injection E as <-. right; right; right; left. reflexivity. }
  destruct (every_button_selects_what_it_shows noDocument noDocument openToolbar
              (Toolbar.colorButton noDocument openToolbar 1 "#FF0000")
              buttons initialState E Hin)
    as (s' & before & Hc & Hcol & _).
  exists s', before. split; [exact Hc|]. exact (proj1 (Hcol _ eq_refl)).
Defined.

Lemma hit_test_takes_the_first_match_witness :
  exists rect,
    eraserOnly "btn-eraser" = Some rect /\ contains rect 150 120 = true.
Proof.
  destruct (proj1 (hit_test_takes_the_first_match eraserOnly 150 120)
              "btn-eraser" eq_refl)
    as (before & after & rect & _ & Hd & Hc & _).
  exists rect. split; [exact Hd|exact Hc].
Defined.

Lemma drawPath_spans_first_to_last_witness :
  List.length
    (curves (tl [Point.mk 0 0; Point.mk 10 0; Point.mk 20 5; Point.mk 30 5]))
  = 2.
Proof.
  assert (2 <= List.length
                 [Point.mk 0 0; Point.mk 10 0; Point.mk 20 5; Point.mk 30 5])
    as H by (cbn; lia).
  exact (proj1 (proj2 (proj2 (drawPath_spans_first_to_last
                               [Point.mk 0 0; Point.mk 10 0; Point.mk 20 5;
                                Point.mk 30 5] None None)
                             H (Point.mk 0 0)))).
Defined.

Lemma geometry_throws_on_short_arrays_witness :
  detectVictory (firstn 9 palmHand) = None.
Proof.
  assert (List.length (firstn 9 palmHand) <= 20) as H by (cbn; lia).
  exact (proj2 (proj1 (proj2 (proj2 (proj2
           (geometry_throws_on_short_arrays (firstn 9 palmHand)))))) H).
Defined.
